(** * ssot-project: the SSOT generator, the login API and the JWT-protected
    question endpoint, embedded in Rocq.

  Python [str] values that are scanned character by character (generated
  text, passwords, questions, headers) are lists of Unicode code points;
  identifiers, path segments and error codes are [string]s. *)

From Stdlib Require Import NArith ZArith Lia String Ascii Bool.
From stdpp Require Import base option list gmap strings.

Local Open Scope N_scope.
Local Open Scope nat_scope.
Local Open Scope list_scope.

(** ** Python strings *)

Module PyStr.

Abbreviation str := (list N).

(** An ASCII literal as a Python string. *)
Definition py (s : string) : str :=
  (fun a => N_of_ascii a) <$> list_ascii_of_string s.

Definition between (lo hi c : N) : bool := (lo <=? c)%N && (c <=? hi)%N.

(** [str.isspace] on one character, which is also what [\s] matches in a
    [str] pattern and what [str.strip()] removes: CPython's
    [_PyUnicode_IsWhitespace]. *)
Definition isspace (c : N) : bool :=
  between 9 13 c || between 28 32 c || (c =? 133)%N || (c =? 160)%N
  || (c =? 5760)%N || between 8192 8202 c || (c =? 8232)%N || (c =? 8233)%N
  || (c =? 8239)%N || (c =? 8287)%N || (c =? 12288)%N.

Fixpoint lstrip (s : str) : str :=
  match s with
  | c :: t => if isspace c then lstrip t else s
  | [] => []
  end.

Definition rstrip (s : str) : str := rev (lstrip (rev s)).

(** [s.strip()] *)
Definition strip (s : str) : str := rstrip (lstrip s).

(** [s.startswith(p)] *)
Fixpoint startswith (p s : str) : bool :=
  match p, s with
  | [], _ => true
  | a :: p', b :: s' => (a =? b)%N && startswith p' s'
  | _ :: _, [] => false
  end.

(** [s.find(p)]: the index of the first occurrence, [None] for -1. *)
Fixpoint find (p s : str) : option nat :=
  if startswith p s then Some 0
  else match s with
       | [] => None
       | _ :: t => S <$> find p t
       end.

End PyStr.
Import PyStr.

(** ** The fragment of Python's [re] the repository uses

  A backtracking matcher in continuation-passing style, with the priorities
  of [re]: alternatives left to right, greedy repetition longest first, lazy
  repetition shortest first. *)

Module Re.

Inductive regex : Type :=
| Eps
| Chr (p : N -> bool)            (* one character: literal, class or dot *)
| Seq (a b : regex)
| Alt (a b : regex)
| Star (greedy : bool) (a : regex)
| Group (n : nat) (a : regex)
| Bol                            (* ^ without MULTILINE *)
| Eol                            (* $ without MULTILINE *)
| WordB (w : N -> bool)          (* \b, for the word class w *)
| Look (a : regex).              (* (?=a) *)

(** A position in the subject: the characters already passed (latest
    first), the characters ahead, and the groups captured so far. *)
Record mstate : Type := MState {
  seen : str;
  rest : str;
  groups : gmap nat str
}.

Definition init (text : str) : mstate := MState [] text ∅.

(** Move [n] characters forward. *)
Definition adv (n : nat) (s : mstate) : mstate :=
  MState (rev (take n (rest s)) ++ seen s) (drop n (rest s)) (groups s).

Definition set_group (n : nat) (s0 s1 : mstate) : mstate :=
  MState (seen s1) (rest s1)
         (<[n := take (length (rest s0) - length (rest s1)) (rest s0)]> (groups s1)).

Definition K := mstate -> option mstate.

Definition orelse (a b : option mstate) : option mstate :=
  match a with Some x => Some x | None => b end.

Fixpoint star_loop (greedy : bool) (body : K -> K) (k : K)
    (fuel : nat) (s : mstate) : option mstate :=
  match fuel with
  | 0 => k s
  | S f =>
      let more :=
        body (fun s' =>
                if length (rest s') <? length (rest s)
                then star_loop greedy body k f s' else None) s in
      if greedy then orelse more (k s) else orelse (k s) more
  end.

Definition is_word_at (w : N -> bool) (l : str) : bool :=
  match l with c :: _ => w c | [] => false end.

Fixpoint m (r : regex) (k : K) (s : mstate) : option mstate :=
  match r with
  | Eps => k s
  | Chr p =>
      match rest s with
      | c :: t => if p c then k (MState (c :: seen s) t (groups s)) else None
      | [] => None
      end
  | Seq a b => m a (m b k) s
  | Alt a b => orelse (m a k s) (m b k s)
  | Star g a => star_loop g (m a) k (S (length (rest s))) s
  | Group n a => m a (fun s' => k (set_group n s s')) s
  | Bol => match seen s with [] => k s | _ => None end
  | Eol =>
      match rest s with
      | [] => k s
      | [c] => if (c =? 10)%N then k s else None
      | _ => None
      end
  | WordB w =>
      if xorb (is_word_at w (seen s)) (is_word_at w (rest s)) then k s else None
  | Look a => m a (fun _ => k s) s
  end.

(** A literal string, character by character ([re.escape]d text). *)
Fixpoint lit (l : str) : regex :=
  match l with
  | [] => Eps
  | c :: l' => Seq (Chr (N.eqb c)) (lit l')
  end.

Definition any : regex := Chr (fun _ => true).          (* . with DOTALL *)
Definition dot : regex := Chr (fun c => negb (c =? 10)%N). (* . *)
Definition plus (a : regex) : regex := Seq a (Star true a).

Fixpoint search_at (r : regex) (sn : str) (rs : str) : option mstate :=
  match m r Some (MState sn rs ∅) with
  | Some s => Some s
  | None =>
      match rs with
      | [] => None
      | c :: t => search_at r (c :: sn) t
      end
  end.

(** [re.search(r, text)] *)
Definition search (r : regex) (text : str) : option mstate :=
  search_at r [] text.

(** [r.match(text)] *)
Definition match_ (r : regex) (text : str) : option mstate :=
  m r Some (init text).

(** [r.fullmatch(text)] *)
Definition fullmatch (r : regex) (text : str) : option mstate :=
  m r (fun s => match rest s with [] => Some s | _ => None end) (init text).

(** [mo.group(n)] for a group that took part in the match. *)
Definition group (n : nat) (s : mstate) : str := default [] (groups s !! n).

(** Length of the longest prefix whose characters all satisfy [p]. *)
Fixpoint span_len (p : N -> bool) (l : str) : nat :=
  match l with
  | c :: t => if p c then S (span_len p t) else 0
  | [] => 0
  end.

(** The first position, scanning forward, at which [k] accepts. *)
Fixpoint scan (k : K) (sn rs : str) (g : gmap nat str) : option mstate :=
  orelse (k (MState sn rs g))
         (match rs with
          | [] => None
          | c :: t => scan k (c :: sn) t g
          end).

End Re.
Import Re.

(** ** generate_all.py and generate_ssot_from_feature_spec.py: extraction *)

Definition fence : str := py "```".

(** [[a-zA-Z0-9_+-]] *)
Definition tagchar (c : N) : bool :=
  between 97 122 c || between 65 90 c || between 48 57 c
  || (c =? 95)%N || (c =? 43)%N || (c =? 45)%N.

(** rf"```{re.escape(language)}\s*(.*?)(```|$)" *)
Definition pattern_lang (language : str) : regex :=
  Seq (lit fence) (Seq (lit language) (Seq (Star true (Chr isspace))
    (Seq (Group 1 (Star false any)) (Group 2 (Alt (lit fence) Eol))))).

(** r"```[a-zA-Z0-9_+-]*\s*(.*?)(```|$)" *)
Definition pattern_any : regex :=
  Seq (lit fence) (Seq (Star true (Chr tagchar)) (Seq (Star true (Chr isspace))
    (Seq (Group 1 (Star false any)) (Group 2 (Alt (lit fence) Eol))))).

(** r"```[a-zA-Z0-9_+-]*\s*(.*?)```" *)
Definition pattern_block : regex :=
  Seq (lit fence) (Seq (Star true (Chr tagchar)) (Seq (Star true (Chr isspace))
    (Seq (Group 1 (Star false any)) (lit fence)))).

(** generate_all.py, [extract_code_block(text, language)]; an empty
    [language] is falsy and takes the untagged pattern. *)
Definition extract_code_block (text : str) (language : option str) : str :=
  let pattern :=
    match language with
    | Some (c :: l) => pattern_lang (c :: l)
    | _ => pattern_any
    end in
  match search pattern text with
  | Some mo => strip (group 1 mo)
  | None => strip text
  end.

(** generate_ssot_from_feature_spec.py, [extract_block(text)] *)
Definition extract_block (text : str) : str :=
  match search pattern_block text with
  | Some mo => strip (group 1 mo)
  | None => strip text
  end.


(** ** Errors, the file system and the external services *)

Inductive exn : Type :=
| FileNotFoundError
| IsADirectoryError
| NotADirectoryError
| FileExistsError
| KeyError (key : string)
| TypeError
| AttributeError
| YAMLError
| JSONDecodeError
| FormatError
| ServiceError
| RuntimeError
| SystemExit
| IndexError
| ValueError (msg : string).

Inductive result (A : Type) : Type :=
| Ok (a : A)
| Err (e : exn).
Arguments Ok {A} a.
Arguments Err {A} e.

(** A [pathlib.Path]: its segments below the root. *)
Abbreviation path := (list string).

(** [p / name] for a single segment [name]. *)
Definition path_div (p : path) (name : string) : path := p ++ [name].
Infix "//" := path_div (at level 40, left associativity).

Inductive node : Type :=
| File (content : str)
| Dir.

(** The file system: what each path holds. *)
Abbreviation world := (gmap (list string) node).

(** The root directory always exists. *)
Definition lookup_node (w : world) (p : path) : option node :=
  match p with
  | [] => Some Dir
  | _ => w !! p
  end.

(** State and exception monad of the scripts: a raised exception keeps the
    writes made before it. *)
Definition M (A : Type) : Type := world -> result A * world.

Definition ret {A} (a : A) : M A := fun w => (Ok a, w).
Definition raise {A} (e : exn) : M A := fun w => (Err e, w).
Definition bind {A B} (c : M A) (f : A -> M B) : M B :=
  fun w => match c w with
           | (Ok a, w') => f a w'
           | (Err e, w') => (Err e, w')
           end.
Definition lift {A} (r : result A) : M A := fun w => (r, w).

Notation "'let*' x := c1 'in' c2" := (bind c1 (fun x => c2))
  (at level 10, x name, c1 at level 100, c2 at level 200).
Notation "'do' c1 'then' c2" := (bind c1 (fun _ => c2))
  (at level 10, c1 at level 100, c2 at level 200).

(** [p.exists()] *)
Definition path_exists (p : path) : M bool :=
  fun w => (Ok (bool_decide (is_Some (lookup_node w p))), w).

(** [p.read_text(encoding="utf-8")] *)
Definition read_text (p : path) : M str :=
  fun w => match lookup_node w p with
           | Some (File c) => (Ok c, w)
           | Some Dir => (Err IsADirectoryError, w)
           | None => (Err FileNotFoundError, w)
           end.

(** The ancestors of [p] from the top down, [p] last. *)
Definition ancestors (p : path) : list path :=
  (fun n => take (S n) p) <$> seq 0 (length p).

(** The directories [ps], an ancestor before its descendants, made in turn:
    a file where the last one goes raises FileExistsError, a file where an
    ancestor of it is needed NotADirectoryError. *)
Fixpoint make_dirs (ps : list path) : M unit :=
  match ps with
  | [] => ret tt
  | d :: ps' =>
      fun w => match lookup_node w d with
               | Some (File _) =>
                   (Err match ps' with
                        | [] => FileExistsError
                        | _ => NotADirectoryError
                        end, w)
               | _ => make_dirs ps' (<[d := Dir]> w)
               end
  end.

(** [p.mkdir(parents=True, exist_ok=True)] *)
Definition mkdir_parents (p : path) : M unit := make_dirs (ancestors p).

(** [p.write_text(content, encoding="utf-8")] *)
Definition write_text (p : path) (content : str) : M unit :=
  fun w => match lookup_node w (removelast p), lookup_node w p with
           | Some Dir, Some Dir => (Err IsADirectoryError, w)
           | Some Dir, _ => (Ok tt, <[p := File content]> w)
           | Some (File _), _ => (Err NotADirectoryError, w)
           | None, _ => (Err FileNotFoundError, w)
           end.

(** A parsed YAML document; a mapping keeps its items in order. *)
#[local] Unset Elimination Schemes.
Inductive yaml : Type :=
| YNull
| YBool (b : bool)
| YInt (z : Z)
| YStr (s : string)
| YSeq (l : list yaml)
| YMap (items : list (string * yaml)).
#[local] Set Elimination Schemes.

Fixpoint assoc (k : string) (items : list (string * yaml)) : option yaml :=
  match items with
  | [] => None
  | (k', v) :: t => if String.eqb k k' then Some v else assoc k t
  end.

(** [y[key]] for a string key *)
Definition getitem (y : yaml) (key : string) : result yaml :=
  match y with
  | YMap items =>
      match assoc key items with
      | Some v => Ok v
      | None => Err (KeyError key)
      end
  | _ => Err TypeError
  end.

(** [y.get(key, {})] *)
Definition get_or_empty (y : yaml) (key : string) : result yaml :=
  match y with
  | YMap items => Ok (default (YMap []) (assoc key items))
  | _ => Err AttributeError
  end.

Definition is_str (key : string) (y : yaml) : bool :=
  match y with YStr s => String.eqb key s | _ => false end.

Fixpoint substring_of (k s : string) : bool :=
  String.prefix k s
  || match s with
     | EmptyString => false
     | String _ s' => substring_of k s'
     end.

(** [key in y] for a string key *)
Definition contains (y : yaml) (key : string) : result bool :=
  match y with
  | YMap items => Ok (bool_decide (is_Some (assoc key items)))
  | YSeq l => Ok (existsb (is_str key) l)
  | YStr s => Ok (substring_of key s)
  | _ => Err TypeError
  end.

(** [list(y.keys())] *)
Definition keys (y : yaml) : result (list string) :=
  match y with
  | YMap items => Ok (fst <$> items)
  | _ => Err AttributeError
  end.

(** The segments of a relative path written with slashes. *)
Fixpoint split_slash (acc : string) (s : string) : list string :=
  match s with
  | EmptyString => match acc with EmptyString => [] | _ => [acc] end
  | String c s' =>
      if Ascii.eqb c "/"%char
      then match acc with
           | EmptyString => split_slash EmptyString s'
           | _ => acc :: split_slash EmptyString s'
           end
      else split_slash (acc ++ String c EmptyString) s'
  end.

(** ** The generator scripts *)

Section Model.

(** The libraries the scripts call.  [yaml.safe_load], [yaml.safe_dump],
    [json.loads], [json.dumps] and [str.format] are functions of their
    arguments; a generation service answers a system instruction and a
    prompt, or fails. *)
Variable json : Type.
Variable yaml_safe_load : str -> result yaml.
Variable yaml_safe_dump : yaml -> str.
Variable json_loads : str -> result json.
Variable json_dumps : json -> str.
Variable str_format : str -> list (string * str) -> result str.

(** [Path(__file__).resolve().parent] of get_feature_config.py and
    generate_all.py, and of generate_ssot_from_feature_spec.py. *)
Variable BASE_DIR : path.
Variable SSOT_BASE_DIR : path.

Definition service : Type := str -> str -> result str.

(** *** get_feature_config.py *)

Definition SSOT_INDEX_PATH : path := BASE_DIR // "ssot_index.yaml".

Definition load_ssot_index : M yaml :=
  let* present := path_exists SSOT_INDEX_PATH in
  if negb present then raise FileNotFoundError
  else
    let* text := read_text SSOT_INDEX_PATH in
    lift (yaml_safe_load text).

Definition get_feature_config (feature_id : string) : M yaml :=
  let* index := load_ssot_index in
  let* features := lift (get_or_empty index "features") in
  let* found := lift (contains features feature_id) in
  if negb found
  then raise (KeyError feature_id)
  else lift (getitem features feature_id).

(** [(BASE_DIR / rel_path).resolve()]; the file system has no links and the
    configured paths no [..] segments. *)
Definition resolve_path (rel_path : yaml) : result path :=
  match rel_path with
  | YStr s => Ok (BASE_DIR ++ split_slash EmptyString s)
  | _ => Err TypeError
  end.

(** *** generate_all.py *)

Definition GENERATED_DIR : path := BASE_DIR // "generated".

Definition load_text (p : path) : M str := read_text p.

Definition load_yaml_str (p : path) : M str := read_text p.

Definition load_json_str (p : path) : M str :=
  let* text := read_text p in
  let* obj := lift (json_loads text) in
  ret (json_dumps obj).

Definition default_system : str :=
  [45320; 45716; 32; 83; 83; 79; 84; 32; 44592; 48152; 51004; 47196; 32;
   53076; 46300; 47484; 32; 49373; 49457; 54616; 45716; 32; 50612; 49884;
   49828; 53556; 53944; 45796; 46]%N.

Definition call_llm (client : service) (prompt : str) : M str :=
  lift (client default_system prompt).

Definition ensure_dir (p : path) : M unit := mkdir_parents p.

(** [load(resolve_path(cfg[key]))] *)
Definition load_cfg (load : path -> M str) (cfg : yaml) (key : string) : M str :=
  let* rel := lift (getitem cfg key) in
  let* p := lift (resolve_path rel) in
  load p.

(** [load_text(resolve_path(cfg["prompts"][mode]))] *)
Definition load_prompt (cfg : yaml) (mode : string) : M str :=
  let* prompts := lift (getitem cfg "prompts") in
  load_cfg load_text prompts mode.

(** generate_api, up to the rendered prompt. *)
Definition api_prompt (feature_id : string) (cfg : yaml) : M str :=
  let* prompt_tpl := load_prompt cfg "api" in
  let* api_spec_str := load_cfg load_yaml_str cfg "api_spec" in
  let* rules_str := load_cfg load_yaml_str cfg "rules" in
  let* validation_str := load_cfg load_json_str cfg "validation" in
  let* db_schema_str := load_cfg load_yaml_str cfg "db_schema" in
  let* testcases_str := load_cfg load_yaml_str cfg "testcases" in
  lift (str_format prompt_tpl
          [("feature_id", py feature_id); ("api_spec", api_spec_str);
           ("rules", rules_str); ("validation_schema", validation_str);
           ("db_schema", db_schema_str); ("testcases", testcases_str)]).

(** [load_json_str(resolve_path(design_cfg[key]))] if the key is there,
    else the empty string. *)
Definition load_design (design_cfg : yaml) (key : string) : M str :=
  let* present := lift (contains design_cfg key) in
  if present then load_cfg load_json_str design_cfg key else ret [].

(** generate_ui, up to the rendered prompt. *)
Definition ui_prompt (feature_id : string) (cfg : yaml) : M str :=
  let* prompt_tpl := load_prompt cfg "ui" in
  let* design_cfg := lift (get_or_empty cfg "design") in
  let* components_str := load_design design_cfg "components" in
  let* flow_str := load_design design_cfg "flow" in
  let* tokens_str := load_design design_cfg "tokens" in
  let* rules_str := load_cfg load_yaml_str cfg "rules" in
  let* validation_str := load_cfg load_json_str cfg "validation" in
  lift (str_format prompt_tpl
          [("feature_id", py feature_id); ("components", components_str);
           ("flow", flow_str); ("tokens", tokens_str);
           ("rules", rules_str); ("validation_schema", validation_str)]).

(** generate_test, up to the rendered prompt. *)
Definition test_prompt (feature_id : string) (cfg : yaml) : M str :=
  let* prompt_tpl := load_prompt cfg "test" in
  let* api_spec_str := load_cfg load_yaml_str cfg "api_spec" in
  let* testcases_str := load_cfg load_yaml_str cfg "testcases" in
  let* validation_str := load_cfg load_json_str cfg "validation" in
  let* rules_str := load_cfg load_yaml_str cfg "rules" in
  lift (str_format prompt_tpl
          [("feature_id", py feature_id); ("api_spec", api_spec_str);
           ("testcases", testcases_str); ("validation_schema", validation_str);
           ("rules", rules_str)]).

(** generate_db, up to the rendered prompt. *)
Definition db_prompt (feature_id : string) (cfg : yaml) : M str :=
  let* prompt_tpl := load_prompt cfg "db" in
  let* db_schema_str := load_cfg load_yaml_str cfg "db_schema" in
  let* rules_str := load_cfg load_yaml_str cfg "rules" in
  lift (str_format prompt_tpl
          [("feature_id", py feature_id); ("db_schema", db_schema_str);
           ("rules", rules_str)]).

(** The tail shared by the four generators: call the service, extract the
    block of [language], create [out_dir], write [out_dir / file_name]. *)
Definition emit (client : service) (prompt : str) (language : string)
    (out_dir : path) (file_name : string) : M unit :=
  let* raw := call_llm client prompt in
  let code := extract_code_block raw (Some (py language)) in
  do ensure_dir out_dir then
  write_text (out_dir // file_name) code.

Definition generate_api (client : service) (feature_id : string) (cfg : yaml) : M unit :=
  let* prompt := api_prompt feature_id cfg in
  emit client prompt "python"
       (GENERATED_DIR // feature_id // "api") (feature_id ++ "_api.py")%string.

Definition generate_ui (client : service) (feature_id : string) (cfg : yaml) : M unit :=
  let* prompt := ui_prompt feature_id cfg in
  emit client prompt "python"
       (GENERATED_DIR // feature_id // "ui") (feature_id ++ "_ui.py")%string.

Definition generate_test (client : service) (feature_id : string) (cfg : yaml) : M unit :=
  let* prompt := test_prompt feature_id cfg in
  emit client prompt "python"
       (GENERATED_DIR // feature_id // "test") (feature_id ++ "_test.py")%string.

Definition generate_db (client : service) (feature_id : string) (cfg : yaml) : M unit :=
  let* prompt := db_prompt feature_id cfg in
  emit client prompt "sql"
       (GENERATED_DIR // feature_id // "db") (feature_id ++ "_schema.sql")%string.

Definition has_mode (mode : string) (modes : list string) : bool :=
  existsb (String.eqb mode) modes.

Definition when (b : bool) (c : M unit) : M unit := if b then c else ret tt.

Definition generate_for_feature (client : service) (feature_id : string)
    (modes : list string) : M unit :=
  let* cfg := get_feature_config feature_id in
  do when (has_mode "api" modes) (generate_api client feature_id cfg) then
  do when (has_mode "ui" modes) (generate_ui client feature_id cfg) then
  do when (has_mode "test" modes) (generate_test client feature_id cfg) then
  when (has_mode "db" modes) (generate_db client feature_id cfg).

(** generate_all.py, [main]: [feature] is the positional argument, [all] the
    [--all] flag, [modes] the [--modes] list. *)
Fixpoint for_features (client : service) (features : list string)
    (modes : list string) : M unit :=
  match features with
  | [] => ret tt
  | fid :: rest => do generate_for_feature client fid modes then
                   for_features client rest modes
  end.

Definition truthy (feature : option string) : bool :=
  match feature with
  | Some f => negb (String.eqb f EmptyString)
  | None => false
  end.

Definition generate_all_main (client : service) (feature : option string)
    (all : bool) (modes : list string) : M unit :=
  if negb all && negb (truthy feature)
  then raise SystemExit
  else
    let* features :=
      if all then
        let* index := load_ssot_index in
        let* fs := lift (get_or_empty index "features") in
        lift (keys fs)
      else ret (match feature with Some f => [f] | None => [] end) in
    for_features client features modes.

(** *** generate_ssot_from_feature_spec.py *)

Definition AUTO_FEATURES_DIR : path := SSOT_BASE_DIR // "auto_features".

Definition LF : string := String (ascii_of_nat 10) EmptyString.

Definition load_yaml (p : path) : M yaml :=
  let* text := read_text p in
  lift (yaml_safe_load text).

Definition save_yaml (p : path) (data : yaml) : M unit :=
  do mkdir_parents (removelast p) then
  write_text p (yaml_safe_dump data).

Definition save_json (p : path) (data : json) : M unit :=
  do mkdir_parents (removelast p) then
  write_text p (json_dumps data).

Definition ssot_call_llm (client : service) (system prompt : str) : M str :=
  lift (client system prompt).

Definition system_messages (kind : string) : option string :=
  if String.eqb kind "api" then Some (
    "You are an expert backend/API architect." ++ LF ++
    "From a feature specification in YAML, generate a single OpenAPI 3.0/3.1 spec." ++ LF ++
    "Always return STRICTLY valid YAML only (no markdown, no extra text).")%string
  else if String.eqb kind "db_schema" then Some (
    "You are an expert database designer." ++ LF ++
    "From a feature specification in YAML, generate a logical DB schema description in YAML." ++ LF ++
    "Use tables/columns/constraints that are implied by the spec (api, validation, business_rules, etc.)." ++ LF ++
    "Always return STRICTLY valid YAML only.")%string
  else if String.eqb kind "rules" then Some (
    "You are a backend rules/validation designer." ++ LF ++
    "From a feature specification in YAML, generate rules.yaml containing validation and business_rules sections." ++ LF ++
    "Unify and normalize all validation and business rules from the spec into a single YAML." ++ LF ++
    "Always return STRICTLY valid YAML only.")%string
  else if String.eqb kind "testcases" then Some (
    "You are a senior QA engineer." ++ LF ++
    "From a feature specification in YAML, generate a testcases.yaml file." ++ LF ++
    "Include typical success/failure cases AND additional cases required by business_rules (e.g., lock_on_fail, max_fail_count)." ++ LF ++
    "Each testcase should have id, name, and enough info (request/expected) to be used by API tests." ++ LF ++
    "Always return STRICTLY valid YAML only.")%string
  else if String.eqb kind "validation" then Some (
    "You are an expert in JSON Schema (Draft-07 or later)." ++ LF ++
    "From a feature specification in YAML, generate a JSON Schema for the request body validation." ++ LF ++
    "Use all validation constraints defined or implied by the spec." ++ LF ++
    "Always return STRICTLY valid JSON only (no markdown, no comments).")%string
  else None.

Definition extra_of (kind : string) : string :=
  if String.eqb kind "api" then (
    "The OpenAPI should:" ++ LF ++
    "- Have 'paths' with the operations described in the spec." ++ LF ++
    "- Use request/response schemas consistent with validation, business_rules, and testcases." ++ LF ++
    "- Include proper HTTP status codes and error response schemas (e.g., errorCode fields) if specified." ++ LF)%string
  else if String.eqb kind "db_schema" then (
    "The DB schema should:" ++ LF ++
    "- Reflect entities implied by the spec (e.g. user, login history, lock status, etc.)." ++ LF ++
    "- Include primary keys, unique constraints, and nullable information when clear." ++ LF ++
    "- Not invent unrelated tables." ++ LF)%string
  else if String.eqb kind "rules" then (
    "The rules.yaml should:" ++ LF ++
    "- Contain 'validation' and 'business_rules' top-level keys." ++ LF ++
    "- validation: field-level constraints (type, required, pattern, length, etc.)." ++ LF ++
    "- business_rules: high-level rules such as max_fail_count, lock_on_fail, errorCode mapping." ++ LF)%string
  else if String.eqb kind "testcases" then (
    "The testcases.yaml should:" ++ LF ++
    "- Have 'feature_id' at top-level, and 'testcases' list." ++ LF ++
    "- Each testcase entry should at least contain: id, name, and data needed for API tests." ++ LF ++
    "- If business_rules mention things like max_fail_count or lock_on_fail," ++ LF ++
    "  you MUST include scenarios to cover those rules (e.g. multiple failed attempts leading to locked account)." ++ LF)%string
  else (
    "The JSON Schema should:" ++ LF ++
    "- Contain type: 'object' at the top level." ++ LF ++
    "- Use 'properties' and 'required' fields according to the spec's request body." ++ LF ++
    "- Include pattern/format/minLength/maxLength constraints as defined." ++ LF)%string.

(** What [generate_artifact] returns: parsed YAML, or parsed JSON for the
    validation schema. *)
Inductive artifact : Type :=
| AYaml (y : yaml)
| AJson (j : json).

Definition generate_artifact (client : service) (feature_id : string)
    (spec : yaml) (kind : string) : M artifact :=
  match system_messages kind with
  | None => raise (ValueError ("Unknown artifact kind: " ++ kind))
  | Some system =>
      let spec_yaml := yaml_safe_dump spec in
      let extra := extra_of kind in
      let prompt :=
        py ("Feature ID: " ++ feature_id ++ LF ++ LF ++
            "Here is the full feature specification in YAML:" ++ LF ++ LF)%string
        ++ spec_yaml
        ++ py (LF ++ LF ++ "Now generate ONLY the '" ++ kind
               ++ "' artifact as described below." ++ LF ++ LF
               ++ extra ++ LF
               ++ "Return ONLY the final artifact content. Do NOT add explanations."
               ++ LF)%string in
      let* raw := ssot_call_llm client (py system) prompt in
      let cleaned := extract_block raw in
      if String.eqb kind "validation"
      then let* j := lift (json_loads cleaned) in ret (AJson j)
      else let* y := lift (yaml_safe_load cleaned) in ret (AYaml y)
  end.

(** [save_yaml] and [save_json] write what [yaml.safe_dump] and
    [json.dumps] make of the data they are given. *)
Definition save_artifact (p : path) (data : artifact) : M unit :=
  match data with
  | AYaml y => save_yaml p y
  | AJson j => save_json p j
  end.

(** One of the five numbered steps of [main]. *)
Definition ssot_step (client : service) (feature_id : string) (spec : yaml)
    (kind file_name : string) : M unit :=
  let* data := generate_artifact client feature_id spec kind in
  save_artifact (AUTO_FEATURES_DIR // feature_id // file_name) data.

(** [main(feature_id)]; [has_key] tells whether OPENAI_API_KEY is set. *)
Definition ssot_main (client : service) (has_key : bool) (feature_id : string) : M unit :=
  let spec_path :=
    SSOT_BASE_DIR ++ ["feature_specs"; (feature_id ++ "_feature_spec_add_lock.yaml")%string] in
  let* present := path_exists spec_path in
  if negb present then raise FileNotFoundError
  else if negb has_key then raise RuntimeError
  else
    let* spec := load_yaml spec_path in
    let out_dir := AUTO_FEATURES_DIR // feature_id in
    do mkdir_parents out_dir then
    do ssot_step client feature_id spec "api" "api.yaml" then
    do ssot_step client feature_id spec "db_schema" "db_schema.yaml" then
    do ssot_step client feature_id spec "rules" "rules.yaml" then
    do ssot_step client feature_id spec "testcases" "testcases.yaml" then
    ssot_step client feature_id spec "validation" "validation_schema.json".

(** ** The HTTP services *)

(** The [detail] of an [HTTPException]: the login API raises a dict with an
    [errorCode], the question server a message. *)
Inductive detail : Type :=
| DetailCode (errorCode : string)
| DetailText (msg : str).

(** How a handler or dependency ends. *)
Inductive outcome (A : Type) : Type :=
| Return (a : A)
| RaiseHTTP (status_code : Z) (d : detail)
| RaiseOther (e : exn).
#[global] Arguments Return {A} a.
#[global] Arguments RaiseHTTP {A} status_code d.
#[global] Arguments RaiseOther {A} e.

(** A request field that failed pydantic validation. *)
Inductive field_error : Type :=
| FieldMissing (field : string)
| FieldValueError (field : string) (msg : string).

Inductive content : Type :=
| CErrorCode (errorCode : string)
| CDetail (d : detail)
| CLogin (accessToken userId : str)
| CRecommend (mbr_id question wrapped_question answer : str)
| CValidation (errors : list field_error).

Record JSONResponse : Type := Response {
  status_code : Z;
  body : content
}.

(** FastAPI's own handler for [RequestValidationError], which answers every
    request whose parameters or body fail validation unless the application
    registers a handler for that class. *)
Definition request_validation_exception_handler (errors : list field_error)
    : JSONResponse :=
  Response 422 (CValidation errors).

(** FastAPI's own handler for [HTTPException]. *)
Definition default_http_exception_handler (status : Z) (d : detail) : JSONResponse :=
  Response status (CDetail d).

(** pydantic on one declared [str] field: an absent field is an error of the
    model, a field validator only sees a value that is present. *)
Definition validate_field (name : string)
    (validator : option str -> string + str) (v : option str)
    : field_error + str :=
  match v with
  | None => inl (FieldMissing name)
  | Some s =>
      match validator (Some s) with
      | inl msg => inl (FieldValueError name msg)
      | inr s' => inr s'
      end
  end.

(** *** generated/login/api/login_api.py *)

Variable EmailStr_validate : str -> bool.
Variable checkpw : str -> str -> bool.
Variable jwt_encode : str -> Z -> Z -> str.
Variable isdecimal_nonascii : N -> bool.

Definition MAX_FAIL_COUNT : Z := 5.
Definition FAIL_ERROR_CODE : string := "LOGIN_FAILED".
Definition LOCK_ERROR_CODE : string := "ACCOUNT_LOCKED".
Definition MISSING_REQUIRED_FIELD : string := "MISSING_REQUIRED_FIELD".
Definition INVALID_EMAIL_FORMAT : string := "INVALID_EMAIL_FORMAT".
Definition INVALID_PASSWORD_FORMAT : string := "INVALID_PASSWORD_FORMAT".
Definition JWT_EXPIRE_SECONDS : Z := 3600.

(** A row of ssot.tbl_member; datetimes are seconds. *)
Record Member : Type := mkMember {
  user_id : str;
  email : str;
  password_hash : str;
  fail_count : Z;
  is_locked : bool;
  locked_at : option Z;
  created_at : Z;
  updated_at : Z
}.

(** The table, by its unique [email] column. *)
Abbreviation table := (gmap (list N) Member).

Record LoginRequest : Type := mkLoginRequest {
  req_email : str;
  req_password : str
}.

(** [\d] in a [str] pattern *)
Definition isdecimal (c : N) : bool :=
  if (c <? 128)%N then between 48 57 c else isdecimal_nonascii c.

Definition is_upper (c : N) : bool := between 65 90 c.
Definition is_lower (c : N) : bool := between 97 122 c.

Definition elem (c : N) (l : list N) : bool := existsb (N.eqb c) l.

(** [[!@#$%^&*]] *)
Definition is_special (c : N) : bool := elem c [33; 64; 35; 36; 37; 94; 38; 42]%N.

(** [(?=.*c)] *)
Definition lookahead_has (c : N -> bool) : regex :=
  Look (Seq (Star true dot) (Chr c)).

Fixpoint times (n : nat) (a : regex) : regex :=
  match n with
  | 0 => Eps
  | S n' => Seq a (times n' a)
  end.

(** r"(?=.*[A-Z])(?=.*[a-z])(?=.*\d)(?=.*[!@#$%^&*]).{8,}" *)
Definition password_pattern : regex :=
  Seq (lookahead_has is_upper) (Seq (lookahead_has is_lower)
    (Seq (lookahead_has isdecimal) (Seq (lookahead_has is_special)
      (Seq (times 8 dot) (Star true dot))))).

Definition validate_email (v : option str) : string + str :=
  match v with
  | None => inl MISSING_REQUIRED_FIELD
  | Some v =>
      if 255 <? length v then inl INVALID_EMAIL_FORMAT
      else if negb (EmailStr_validate v) then inl INVALID_EMAIL_FORMAT
      else inr v
  end.

Definition validate_password (v : option str) : string + str :=
  match v with
  | None => inl MISSING_REQUIRED_FIELD
  | Some v =>
      if length v <? 8 then inl INVALID_PASSWORD_FORMAT
      else match fullmatch password_pattern v with
           | None => inl INVALID_PASSWORD_FORMAT
           | Some _ => inr v
           end
  end.

Definition create_access_token (user_id : str) (now : Z) : str :=
  jwt_encode user_id now (now + JWT_EXPIRE_SECONDS)%Z.

Definition http_exception_handler (status : Z) (d : detail) : JSONResponse :=
  match d with
  | DetailCode c =>
      if (status =? 400)%Z then Response 400 (CErrorCode c)
      else if (status =? 401)%Z then Response 401 (CErrorCode c)
      else Response status (CErrorCode "UNKNOWN_ERROR")
  | DetailText _ => Response status (CErrorCode "UNKNOWN_ERROR")
  end.

Definition set_failed (member : Member) (count : Z) : Member :=
  mkMember (user_id member) (email member) (password_hash member) count
           (is_locked member) (locked_at member)
           (created_at member) (updated_at member).

Definition set_locked (member : Member) (now : Z) : Member :=
  mkMember (user_id member) (email member) (password_hash member)
           (fail_count member) true (Some now)
           (created_at member) (updated_at member).

Definition reset_member (member : Member) (now : Z) : Member :=
  mkMember (user_id member) (email member) (password_hash member) 0 false None
           (created_at member) now.

(** [login_api(req)] at time [now] on the table [db]: what it returns or
    raises, and the table as committed. *)
Definition login_api (req : LoginRequest) (now : Z) (db : table)
    : outcome (str * str) * table :=
  match db !! req_email req with
  | None => (RaiseHTTP 401 (DetailCode FAIL_ERROR_CODE), db)
  | Some member =>
      if is_locked member
      then (RaiseHTTP 401 (DetailCode LOCK_ERROR_CODE), db)
      else if negb (checkpw (req_password req) (password_hash member))
      then
        let member := set_failed member (fail_count member + 1) in
        if (MAX_FAIL_COUNT <=? fail_count member)%Z
        then (RaiseHTTP 401 (DetailCode LOCK_ERROR_CODE),
              <[req_email req := set_locked member now]> db)
        else (RaiseHTTP 401 (DetailCode FAIL_ERROR_CODE),
              <[req_email req := member]> db)
      else
        let db' :=
          if negb (fail_count member =? 0)%Z || is_locked member
          then <[req_email req := reset_member member now]> db
          else db in
        (Return (create_access_token (user_id member) now, user_id member), db')
  end.

Definition value_error_handler (error_code : string) : JSONResponse :=
  if String.eqb error_code MISSING_REQUIRED_FIELD
     || String.eqb error_code INVALID_EMAIL_FORMAT
     || String.eqb error_code INVALID_PASSWORD_FORMAT
  then Response 400 (CErrorCode error_code)
  else Response 400 (CErrorCode "INVALID_REQUEST").

Definition generic_exception_handler : JSONResponse :=
  Response 500 (CErrorCode "INTERNAL_SERVER_ERROR").

(** The JSON body of a login request: each field absent or a string. *)
Record login_body : Type := mkLoginBody {
  body_email : option str;
  body_password : option str
}.

(** pydantic building [LoginRequest]: both fields are validated, in the
    order declared, and the errors collected. *)
Definition parse_LoginRequest (b : login_body) : list field_error + LoginRequest :=
  match validate_field "email" validate_email (body_email b),
        validate_field "password" validate_password (body_password b) with
  | inr e, inr p => inr (mkLoginRequest e p)
  | inl x, inr _ => inl [x]
  | inr _, inl y => inl [y]
  | inl x, inl y => inl [x; y]
  end.

(** What the application answers to what a route raises: the handlers it
    registers for [HTTPException], [ValueError] and [Exception]. *)
Definition login_app_handlers {A} (o : outcome A) : option JSONResponse :=
  match o with
  | Return _ => None
  | RaiseHTTP status d => Some (http_exception_handler status d)
  | RaiseOther (ValueError msg) => Some (value_error_handler msg)
  | RaiseOther _ => Some generic_exception_handler
  end.

(** The route with the application's handlers around it: what a validated
    request is answered. *)
Definition serve_login (req : LoginRequest) (now : Z) (db : table)
    : JSONResponse * table :=
  let '(o, db') := login_api req now db in
  match o with
  | Return (token, uid) => (Response 200 (CLogin token uid), db')
  | _ => (default generic_exception_handler (login_app_handlers o), db')
  end.

(** POST /api/login_api as FastAPI serves it: the body is validated into a
    [LoginRequest] first, and a body that fails is answered by the
    framework; then the route runs. *)
Definition post_login_api (b : login_body) (now : Z) (db : table)
    : JSONResponse * table :=
  match parse_LoginRequest b with
  | inl errors => (request_validation_exception_handler errors, db)
  | inr req => serve_login req now db
  end.

(** Requests served one after the other, each at its time. *)
Fixpoint serve_logins (reqs : list (LoginRequest * Z)) (db : table)
    : list JSONResponse * table :=
  match reqs with
  | [] => ([], db)
  | (req, now) :: more =>
      let '(r, db') := serve_login req now db in
      let '(rs, db'') := serve_logins more db' in
      (r :: rs, db'')
  end.

(** *** generated_ori/login/api/login_api.py

    The earlier generation of the same API registers a handler of its own
    for [RequestValidationError]: the first error on [email] or [password]
    decides the code, then a missing field, and FastAPI's handler is the
    fallback. *)
Definition field_of (e : field_error) : string :=
  match e with
  | FieldMissing f => f
  | FieldValueError f _ => f
  end.

Fixpoint first_error_code (errors : list field_error) : option string :=
  match errors with
  | [] => None
  | e :: more =>
      if String.eqb (field_of e) "email" then Some INVALID_EMAIL_FORMAT
      else if String.eqb (field_of e) "password" then Some INVALID_PASSWORD_FORMAT
      else match e with
           | FieldMissing _ => Some MISSING_REQUIRED_FIELD
           | _ => first_error_code more
           end
  end.

Definition validation_exception_handler (errors : list field_error) : JSONResponse :=
  match first_error_code errors with
  | Some code => Response 400 (CErrorCode code)
  | None => request_validation_exception_handler errors
  end.

(** *** jwt_test/fastapi_server.py *)

(** What [jwt.decode(token, SECRET_KEY, algorithms=[ALGORITHM])] does with a
    token: it returns the payload, of which the server reads the [sub] claim,
    or raises [ExpiredSignatureError], or another [InvalidTokenError] (a bad
    signature among them). *)
Inductive jwt_result : Type :=
| JwtPayload (sub : option str)
| JwtExpired
| JwtInvalid.

Variable jwt_decode : str -> jwt_result.
Variable json_dumps_question : str -> str.
Variable alnum_nonascii : N -> bool.
Variable ignorecase_nonascii : N -> N -> bool.

(** The characters of the class in SAFE_QUESTION_REGEX. *)
Definition safe_char (c : N) : bool :=
  between 12593 12622 c || between 44032 55203 c
  || between 97 122 c || between 65 90 c || between 48 57 c
  || isspace c
  || elem c [46; 44; 33; 63; 40; 41; 91; 93; 45; 95; 58; 43; 47; 39; 34; 64; 35; 38]%N.

(** r"^[...]+$" *)
Definition SAFE_QUESTION_REGEX : regex :=
  Seq Bol (Seq (plus (Chr safe_char)) Eol).

Definition unsafe_message : string := "question has characters that are not allowed".

(** The validator of [QuestionRequest.question]. *)
Definition validate_question (v : str) : string + str :=
  match match_ SAFE_QUESTION_REGEX v with
  | None => inl unsafe_message
  | Some _ => inr v
  end.

(** The characters with the Unicode property White_Space.  They are what
    [strip_whitespace=True] removes in pydantic 2, whose string validator
    trims with Rust's [str::trim]; unlike [str.isspace] the property leaves
    out U+001C to U+001F. *)
Definition is_white_space (c : N) : bool :=
  between 9 13 c || (c =? 32)%N || (c =? 133)%N || (c =? 160)%N
  || (c =? 5760)%N || between 8192 8202 c || (c =? 8232)%N || (c =? 8233)%N
  || (c =? 8239)%N || (c =? 8287)%N || (c =? 12288)%N.

Fixpoint trim_start (s : str) : str :=
  match s with
  | c :: t => if is_white_space c then trim_start t else s
  | [] => []
  end.

(** What pydantic 2 makes of a string under [strip_whitespace=True]. *)
Definition trim (s : str) : str := rev (trim_start (rev (trim_start s))).

(** [constr(strip_whitespace=True, min_length=1, max_length=300)], then the
    validator. *)
Definition parse_QuestionRequest (question : option str) : list field_error + str :=
  match question with
  | None => inl [FieldMissing "question"]
  | Some raw =>
      let v := trim raw in
      if length v <? 1 then inl [FieldValueError "question" "too short"]
      else if 300 <? length v then inl [FieldValueError "question" "too long"]
      else match validate_question v with
           | inl msg => inl [FieldValueError "question" msg]
           | inr v' => inr v'
           end
  end.

(** [s.split(" ", 1)] *)
Fixpoint split_space (acc : str) (s : str) : list str :=
  match s with
  | [] => [rev acc]
  | c :: t => if (c =? 32)%N then [rev acc; t] else split_space (c :: acc) t
  end.

Definition get_current_user (authorization : str) : outcome str :=
  if negb (startswith (py "Bearer ") authorization)
  then RaiseHTTP 401 (DetailText (py "Invalid Authorization header"))
  else
    match split_space [] authorization !! 1 with
    | None => RaiseOther IndexError
    | Some part =>
        let token := strip part in
        match jwt_decode token with
        | JwtExpired => RaiseHTTP 401 (DetailText (py "Token expired"))
        | JwtInvalid => RaiseHTTP 401 (DetailText (py "Invalid token"))
        | JwtPayload sub =>
            match sub with
            | None | Some [] => RaiseHTTP 401 (DetailText (py "Invalid token payload"))
            | Some mbr_id => Return mbr_id
            end
        end
    end.

(** [\w] in a [str] pattern *)
Definition is_word (c : N) : bool :=
  if (c <? 128)%N
  then between 97 122 c || between 65 90 c || between 48 57 c || (c =? 95)%N
  else alnum_nonascii c.

(** A lower-case ASCII letter of a pattern under [(?i)]. *)
Definition ignorecase (c x : N) : bool :=
  (x =? c)%N || (x =? c - 32)%N || ((128 <=? x)%N && ignorecase_nonascii c x).

Fixpoint lit_i (l : str) : regex :=
  match l with
  | [] => Eps
  | c :: l' => Seq (Chr (ignorecase c)) (lit_i l')
  end.

(** r"(?i)\b(select|insert|update|delete|drop|truncate|union|exec)\b" and
    r"[;&|`$]" *)
Definition DANGEROUS_PATTERNS : list regex :=
  [ Seq (WordB is_word)
      (Seq (Group 1
              (Alt (lit_i (py "select")) (Alt (lit_i (py "insert"))
              (Alt (lit_i (py "update")) (Alt (lit_i (py "delete"))
              (Alt (lit_i (py "drop")) (Alt (lit_i (py "truncate"))
              (Alt (lit_i (py "union")) (lit_i (py "exec"))))))))))
           (WordB is_word));
    Chr (fun c => elem c [59; 38; 124; 96; 36]%N) ].

Definition sanitize_question (question : str) : str :=
  filter (fun ch => is_Some (match_ SAFE_QUESTION_REGEX [ch])) question.

Definition dangerous_message : str :=
  [54728; 50857; 46104; 51648; 32; 50506; 45716; 32; 54056; 53556; 51060; 32;
   54252; 54632; 46108; 32; 51656; 47928; 51077; 45768; 45796; 46]%N.

Fixpoint detect_in (patterns : list regex) (question : str) : outcome unit :=
  match patterns with
  | [] => Return tt
  | pattern :: more =>
      match search pattern question with
      | Some _ => RaiseHTTP 400 (DetailText dangerous_message)
      | None => detect_in more question
      end
  end.

Definition detect_dangerous_pattern (question : str) : outcome unit :=
  detect_in DANGEROUS_PATTERNS question.

Definition dummy_answer (mbr_id question_safe : str) : str :=
  py "[mbr_id=" ++ mbr_id
  ++ [93; 32; 45784; 51032; 32; 51656; 47928; 51008; 32; 39]%N
  ++ question_safe
  ++ [39; 32; 51077; 45768; 45796; 46; 32; 40; 50668; 44592; 50640; 32;
      52628; 52380; 32; 47196; 51649; 32; 44396; 54788; 41]%N.

(** [recommend(body, user)] for [body.question] and [user.mbr_id]. *)
Definition recommend (question_raw : str) (mbr_id : str) : outcome content :=
  match detect_dangerous_pattern question_raw with
  | RaiseHTTP status d => RaiseHTTP status d
  | RaiseOther e => RaiseOther e
  | Return _ =>
      let question_safe := sanitize_question question_raw in
      let wrapped_question := json_dumps_question question_safe in
      Return (CRecommend mbr_id question_safe wrapped_question
                         (dummy_answer mbr_id question_safe))
  end.

Definition global_exception_handler : JSONResponse :=
  Response 500 (CDetail (DetailText
    [45236; 48512; 32; 49436; 48260; 32; 50724; 47448; 44032; 32; 48156;
     49373; 54664; 49845; 45768; 45796; 46]%N)).

(** A request to POST /recommend: its Authorization header, if any, and the
    [question] field of its JSON body, if any. *)
Record recommend_request : Type := mkRequest {
  authorization : option str;
  question : option str
}.

Definition answer_of (o : outcome content) : JSONResponse :=
  match o with
  | Return c => Response 200 c
  | RaiseHTTP status d => default_http_exception_handler status d
  | RaiseOther _ => global_exception_handler
  end.

(** POST /recommend as FastAPI serves it.  The header is a required
    parameter of the dependency: without it the dependency is not called and
    the request fails validation.  With it the dependency runs before the
    body is validated, and what it raises ends the request. *)
Definition post_recommend (r : recommend_request) : JSONResponse :=
  match authorization r with
  | None =>
      request_validation_exception_handler
        (FieldMissing "authorization"
         :: match parse_QuestionRequest (question r) with
            | inl errors => errors
            | inr _ => []
            end)
  | Some header =>
      match get_current_user header with
      | RaiseHTTP status d => default_http_exception_handler status d
      | RaiseOther _ => global_exception_handler
      | Return mbr_id =>
          match parse_QuestionRequest (question r) with
          | inl errors => request_validation_exception_handler errors
          | inr q => answer_of (recommend q mbr_id)
          end
      end
  end.

(** *** generated/login/ui/login_ui.py *)

(** A JSON document as [resp.json()] gives it; an object lists each of its
    keys once. *)
#[local] Unset Elimination Schemes.
Inductive jvalue : Type :=
| JNull
| JBool (b : bool)
| JNumber (z : Z)
| JString (s : str)
| JArray (l : list jvalue)
| JObject (items : list (string * jvalue)).
#[local] Set Elimination Schemes.

Fixpoint jassoc (k : string) (items : list (string * jvalue)) : option jvalue :=
  match items with
  | [] => None
  | (k', v) :: t => if String.eqb k k' then Some v else jassoc k t
  end.

(** [data.get(key, default)]; [None] where [data] is no dict and the call
    raises AttributeError. *)
Definition jget (data : jvalue) (key : string) (dflt : jvalue) : option jvalue :=
  match data with
  | JObject items => Some (default dflt (jassoc key items))
  | _ => None
  end.

(** [v == s] for a string literal [s] *)
Definition is_string (s : str) (v : jvalue) : bool :=
  match v with
  | JString t => bool_decide (t = s)
  | _ => false
  end.

(** [[^@]] *)
Definition not_at (c : N) : bool := negb (c =? 64)%N.

(** r"^[^@]+@[^@]+\.[^@]+$" *)
Definition EMAIL_REGEX : regex :=
  Seq Bol (Seq (plus (Chr not_at)) (Seq (Chr (N.eqb 64))
    (Seq (plus (Chr not_at)) (Seq (Chr (N.eqb 46))
      (Seq (plus (Chr not_at)) Eol))))).

(** r"^(?=.*[A-Z])(?=.*[a-z])(?=.*\d)(?=.*[!@#$%^&*]).{8,}$" *)
Definition PASSWORD_REGEX : regex :=
  Seq Bol (Seq (lookahead_has is_upper) (Seq (lookahead_has is_lower)
    (Seq (lookahead_has isdecimal) (Seq (lookahead_has is_special)
      (Seq (Seq (times 8 dot) (Star true dot)) Eol))))).

Definition required_message : str :=
  [54596; 49688; 32; 51077; 47141; 32; 54637; 47785; 51077; 45768; 45796; 46]%N.

Definition email_length_message : str :=
  [51060; 47700; 51068; 51008; 32; 50; 53; 53; 51088; 32; 51060; 54616; 50668;
   50556; 32; 54633; 45768; 45796; 46]%N.

Definition email_format_message : str :=
  [50976; 54952; 54620; 32; 51060; 47700; 51068; 32; 54805; 49885; 51060; 32;
   50500; 45785; 45768; 45796; 46]%N.

Definition password_length_message : str :=
  [48708; 48128; 48264; 54840; 45716; 32; 56; 51088; 32; 51060; 49345; 51060;
   50612; 50556; 32; 54633; 45768; 45796; 46]%N.

Definition password_classes_message : str :=
  [45824; 47928; 51088; 47; 49548; 47928; 51088; 47; 49707; 51088; 47; 53945;
   49688; 47928; 51088; 47484; 32; 47784; 46160; 32; 54252; 54632; 54644; 50556;
   32; 54633; 45768; 45796; 46]%N.

(** login_ui.py, [validate_email(email)]: the message to show, if any. *)
Definition ui_validate_email (email : str) : option str :=
  match email with
  | [] => Some required_message
  | _ =>
      if 255 <? length email then Some email_length_message
      else match match_ EMAIL_REGEX email with
           | None => Some email_format_message
           | Some _ => None
           end
  end.

(** login_ui.py, [validate_password(password)] *)
Definition ui_validate_password (password : str) : option str :=
  match password with
  | [] => Some required_message
  | _ =>
      if length password <? 8 then Some password_length_message
      else match match_ PASSWORD_REGEX password with
           | None => Some password_classes_message
           | Some _ => None
           end
  end.

Inductive http_method : Type := GET | POST.

(** [request.form]: each field, if the form holds it. *)
Record login_form : Type := mkLoginForm {
  form_email : option str;
  form_password : option str
}.

(** What [requests.post] to the login API comes to: the call raises, or it
    returns a response with a status and a body, of which [resp.json()] gives
    the document or raises. *)
Inductive backend_result : Type :=
| CallRaised
| Answered (status : Z) (json : option jvalue).

(** What the view returns: a redirect, or the page rendered with the field
    errors and the messages flashed during the request. *)
Inductive ui_result : Type :=
| Redirect (endpoint : string)
| Rendered (email_error password_error : option str) (flashed : list str).

Definition login_failed_flash : str :=
  [47196; 44536; 51064; 50640; 32; 49892; 54056; 54664; 49845; 45768; 45796; 46;
   32; 51060; 47700; 51068; 44284; 32; 48708; 48128; 48264; 54840; 47484; 32;
   54869; 51064; 54616; 49464; 50836; 46]%N.

Definition account_locked_flash : str :=
  [44228; 51221; 51060; 32; 51104; 44552; 32; 49345; 53468; 51077; 45768; 45796;
   46; 32; 44288; 47532; 51088; 50640; 44172; 32; 47928; 51032; 54616; 49464;
   50836; 46]%N.

Definition unknown_error_flash : str :=
  [50508; 32; 49688; 32; 50630; 45716; 32; 50724; 47448; 44032; 32; 48156; 49373;
   54664; 49845; 45768; 45796; 46]%N.

Definition communication_error_flash : str :=
  [49436; 48260; 50752; 32; 53685; 49888; 32; 51473; 32; 50724; 47448; 44032; 32;
   48156; 49373; 54664; 49845; 45768; 45796; 46]%N.

(** The body of the [try] in [login()], once both fields passed: [None]
    stands for an exception, which the [except] clause turns into the
    communication error. *)
Definition call_backend (backend : str -> str -> backend_result)
    (email password : str) : option ui_result :=
  match backend email password with
  | CallRaised => None
  | Answered status json =>
      if (status =? 200)%Z then
        match json with
        | None => None
        | Some data =>
            match jget data "result" JNull with
            | None => None
            | Some result =>
                if is_string (py "success") result then Some (Redirect "home")
                else
                  match jget data "errorCode" (JString []) with
                  | None => None
                  | Some error_code =>
                      if is_string (py "LOGIN_FAILED") error_code
                      then Some (Rendered None None [login_failed_flash])
                      else if is_string (py "ACCOUNT_LOCKED") error_code
                      then Some (Rendered None None [account_locked_flash])
                      else Some (Rendered None None [unknown_error_flash])
                  end
            end
        end
      else Some (Rendered None None [communication_error_flash])
  end.

(** login_ui.py, [login()] on /login *)
Definition ui_login (backend : str -> str -> backend_result)
    (method : http_method) (form : login_form) : ui_result :=
  match method with
  | GET => Rendered None None []
  | POST =>
      let email := strip (default [] (form_email form)) in
      let password := default [] (form_password form) in
      let email_error := ui_validate_email email in
      let password_error := ui_validate_password password in
      match email_error, password_error with
      | None, None =>
          default (Rendered None None [communication_error_flash])
                  (call_backend backend email password)
      | _, _ => Rendered email_error password_error []
      end
  end.

(** The body of a response of the login API as a JSON document; of an entry
    of a validation failure only [loc] is kept. *)
Definition error_json (e : field_error) : jvalue :=
  JObject [("loc", JArray [JString (py "body"); JString (py (field_of e))])].

Definition detail_json (d : detail) : jvalue :=
  match d with
  | DetailCode c => JObject [("errorCode", JString (py c))]
  | DetailText msg => JString msg
  end.

Definition to_json (c : content) : jvalue :=
  match c with
  | CErrorCode code => JObject [("errorCode", JString (py code))]
  | CDetail d => JObject [("detail", detail_json d)]
  | CLogin token uid => JObject [("accessToken", JString token); ("userId", JString uid)]
  | CRecommend mbr_id q w a =>
      JObject [("mbr_id", JString mbr_id); ("question", JString q);
               ("wrapped_question", JString w); ("answer", JString a)]
  | CValidation errors => JObject [("detail", JArray (error_json <$> errors))]
  end.

(** The login API of generated/login/api behind the page: the page posts
    both fields as strings, at time [now] on the table [db]. *)
Definition login_backend (now : Z) (db : table) (email password : str) : backend_result :=
  let r := (post_login_api (mkLoginBody (Some email) (Some password)) now db).1 in
  Answered (status_code r) (Some (to_json (body r))).

(** *** jwt_test/flask_client.py *)

(** [jwt.encode({"sub": mbr_id}, SECRET_KEY, algorithm=ALGORITHM)] *)
Variable client_jwt_encode : str -> str.

Definition client_create_access_token (mbr_id : str) : str :=
  client_jwt_encode mbr_id.

Inductive ask_body : Type :=
| Relayed (c : content)
| AskError (error : str).

Record ask_response : Type := AskResponse {
  ask_status : Z;
  ask_content : ask_body
}.

Definition call_failed : str :=
  [70; 97; 115; 116; 65; 80; 73; 32; 54840; 52636; 32; 49892; 54056; 58; 32]%N.

(** The member and the question that [ask_recommend] sends. *)
Definition ask_mbr_id : str := py "user123".
Definition ask_question : str :=
  [53412; 48372; 46300; 32; 52628; 52380; 54644; 51480]%N.

(** flask_client.py, [ask_recommend()] on /ask.  [post] is [requests.post]
    to the /recommend endpoint: the response, or the [repr] of what it
    raised. *)
Definition ask_recommend (post : recommend_request -> JSONResponse + str) : ask_response :=
  let mbr_id := ask_mbr_id in
  let question := ask_question in
  match mbr_id, question with
  | [], _ | _, [] => AskResponse 400 (AskError (py "mbr_id and question are required"))
  | _, _ =>
      let access_token := client_create_access_token mbr_id in
      match post (mkRequest (Some (py "Bearer " ++ access_token)) (Some question)) with
      | inl resp => AskResponse (status_code resp) (Relayed (body resp))
      | inr e => AskResponse 500 (AskError (call_failed ++ e))
      end
  end.

(** *** lint_ssot.py *)

(** The document that [json.loads] returns, as Python data. *)
Variable json_value : json -> yaml.

(** What the script prints, one item for each line. *)
Inductive report : Type :=
| NoFeatures
| Rule
| FeatureTitle (fid : string)
| CheckHeader (fid : string)
| PathAbsent (label : string)
| PathLine (label : string) (p : path) (found : bool)
| WarnNoPaths (fid : string)
| ValidationHeader (fid : string)
| TestcasesHeader (fid : string)
| PathOf (first_path : string)
| ApiOnly (fields : list string)
| SchemaOnly (fields : list string)
| NoTestcases
| TestcaseId (tc_id : yaml)
| MissingInTestcase (fields : list string)
| ExtraInTestcase (fields : list string)
| ValidationError (e : exn)
| TestcasesError (e : exn).

(** The script reads the file system and prints: a computation gets the
    file system and the lines printed so far, and returns or raises, with
    the lines printed by then. *)
Definition R (A : Type) : Type := world -> list report -> result A * list report.

Definition rret {A} (a : A) : R A := fun _ out => (Ok a, out).
Definition rbind {A B} (c : R A) (f : A -> R B) : R B :=
  fun w out => match c w out with
               | (Ok a, out') => f a w out'
               | (Err e, out') => (Err e, out')
               end.
Definition rlift {A} (r : result A) : R A := fun _ out => (r, out).
Definition reading {A} (c : M A) : R A := fun w out => ((c w).1, out).
Definition print (line : report) : R unit := fun _ out => (Ok tt, out ++ [line]).

Notation "'let+' x := c1 'in' c2" := (rbind c1 (fun x => c2))
  (at level 10, x name, c1 at level 100, c2 at level 200).
Notation "'do+' c1 'then' c2" := (rbind c1 (fun _ => c2))
  (at level 10, c1 at level 100, c2 at level 200).

(** The exceptions that derive from [Exception]. *)
Definition is_exception (e : exn) : bool :=
  match e with
  | SystemExit => false
  | _ => true
  end.

(** [try: c  except Exception as e: handler(e)] *)
Definition try_except (c : R unit) (handler : exn -> R unit) : R unit :=
  fun w out => match c w out with
               | (Err e, out') =>
                   if is_exception e then handler e w out' else (Err e, out')
               | done => done
               end.

(** [bool(y)] *)
Definition truthy_value (y : yaml) : bool :=
  match y with
  | YNull => false
  | YBool b => b
  | YInt z => negb (z =? 0)%Z
  | YStr s => negb (String.eqb s EmptyString)
  | YSeq l => match l with [] => false | _ => true end
  | YMap items => match items with [] => false | _ => true end
  end.

(** [y.get(key, dflt)] *)
Definition yget (y : yaml) (key : string) (dflt : yaml) : result yaml :=
  match y with
  | YMap items => Ok (default dflt (assoc key items))
  | _ => Err AttributeError
  end.

(** [y.items()] *)
Definition items_of (y : yaml) : result (list (string * yaml)) :=
  match y with
  | YMap items => Ok items
  | _ => Err AttributeError
  end.

(** What [for x in y] goes through. *)
Definition iterate (y : yaml) : result (list yaml) :=
  match y with
  | YSeq l => Ok l
  | YMap items => Ok ((fun kv => YStr kv.1) <$> items)
  | YStr s => Ok ((fun c => YStr (String c EmptyString)) <$> list_ascii_of_string s)
  | _ => Err TypeError
  end.

Definition and_then {A B} (r : result A) (f : A -> result B) : result B :=
  match r with
  | Ok a => f a
  | Err e => Err e
  end.

Fixpoint insert_sorted (x : string) (l : list string) : list string :=
  match l with
  | [] => [x]
  | y :: t => if String.leb x y then x :: l else y :: insert_sorted x t
  end.

(** [sorted(set(a) - set(b))] *)
Definition sorted_difference (a b : list string) : list string :=
  foldr insert_sorted [] (remove_dups (list_difference a b)).

Definition load_json (p : path) : M yaml :=
  let* text := read_text p in
  let* obj := lift (json_loads text) in
  ret (json_value obj).

(** The last loop of [check_files_exist]. *)
Fixpoint check_paths (paths_to_check : list (string * yaml)) : R unit :=
  match paths_to_check with
  | [] => rret tt
  | (label, rel_path) :: more =>
      if negb (truthy_value rel_path)
      then do+ print (PathAbsent label) then check_paths more
      else
        let+ p := rlift (resolve_path rel_path) in
        let+ found := reading (path_exists p) in
        do+ print (PathLine label p found) then
        check_paths more
  end.

(** The loop over the design keys. *)
Fixpoint design_paths (design_cfg : yaml) (dks : list string) : R (list (string * yaml)) :=
  match dks with
  | [] => rret []
  | dk :: more =>
      let+ present := rlift (contains design_cfg dk) in
      let+ here :=
        if present
        then let+ rel := rlift (getitem design_cfg dk) in
             rret [(("design." ++ dk)%string, rel)]
        else rret [] in
      let+ others := design_paths design_cfg more in
      rret (here ++ others)
  end.

Definition check_files_exist (feature_id : string) (cfg : yaml) : R unit :=
  do+ print (CheckHeader feature_id) then
  let+ api_spec := rlift (yget cfg "api_spec" YNull) in
  let+ validation := rlift (yget cfg "validation" YNull) in
  let+ rules := rlift (yget cfg "rules" YNull) in
  let+ testcases := rlift (yget cfg "testcases" YNull) in
  let+ db_schema := rlift (yget cfg "db_schema" YNull) in
  let paths_to_check :=
    [("api_spec", api_spec); ("validation", validation); ("rules", rules);
     ("testcases", testcases); ("db_schema", db_schema)] in
  let+ design_cfg := rlift (yget cfg "design" (YMap [])) in
  let+ design := design_paths design_cfg ["components"; "flow"; "tokens"] in
  let+ prompts_cfg := rlift (yget cfg "prompts" (YMap [])) in
  let+ prompts := rlift (items_of prompts_cfg) in
  check_paths (paths_to_check ++ design
               ++ ((fun kv => (("prompts." ++ kv.1)%string, kv.2)) <$> prompts)).

(** The lines that both comparisons share: the first path of the API
    specification and the fields of the request body of its [post]; [paths]
    is truthy. *)
Definition first_post_fields (paths : yaml) : result (string * list string) :=
  match paths with
  | YMap ((first_path, spec) :: _) =>
      and_then (yget spec "post" (YMap [])) (fun post_spec =>
      and_then (yget post_spec "requestBody" (YMap [])) (fun request_body =>
      and_then (yget request_body "content" (YMap [])) (fun content =>
      and_then (yget content "application/json" (YMap [])) (fun media =>
      and_then (yget media "schema" (YMap [])) (fun req_body =>
      and_then (yget req_body "properties" (YMap [])) (fun properties =>
      and_then (keys properties) (fun api_fields =>
      Ok (first_path, api_fields))))))))
  | _ => Err AttributeError
  end.

Definition lint_api_vs_validation (feature_id : string) (cfg : yaml) : R unit :=
  let+ api_rel := rlift (getitem cfg "api_spec") in
  let+ api_path := rlift (resolve_path api_rel) in
  let+ validation_rel := rlift (getitem cfg "validation") in
  let+ validation_path := rlift (resolve_path validation_rel) in
  let+ api_spec := reading (load_yaml api_path) in
  let+ validation := reading (load_json validation_path) in
  let+ paths := rlift (yget api_spec "paths" (YMap [])) in
  if negb (truthy_value paths) then print (WarnNoPaths feature_id)
  else
    let+ first := rlift (first_post_fields paths) in
    let+ properties := rlift (yget validation "properties" (YMap [])) in
    let+ validation_fields := rlift (keys properties) in
    do+ print (ValidationHeader feature_id) then
    do+ print (PathOf first.1) then
    do+ print (ApiOnly (sorted_difference first.2 validation_fields)) then
    print (SchemaOnly (sorted_difference validation_fields first.2)).

(** The loop over the test cases. *)
Fixpoint lint_testcases (api_fields : list string) (tcs : list yaml) : R unit :=
  match tcs with
  | [] => rret tt
  | tc :: more =>
      let+ tc_id := rlift (yget tc "id" YNull) in
      let+ input_obj := rlift (yget tc "input" (YMap [])) in
      let+ tc_fields := rlift (keys input_obj) in
      do+ print (TestcaseId tc_id) then
      do+ print (MissingInTestcase (sorted_difference api_fields tc_fields)) then
      do+ print (ExtraInTestcase (sorted_difference tc_fields api_fields)) then
      lint_testcases api_fields more
  end.

Definition lint_api_vs_testcases (feature_id : string) (cfg : yaml) : R unit :=
  let+ api_rel := rlift (getitem cfg "api_spec") in
  let+ api_path := rlift (resolve_path api_rel) in
  let+ tc_rel := rlift (getitem cfg "testcases") in
  let+ tc_path := rlift (resolve_path tc_rel) in
  let+ api_spec := reading (load_yaml api_path) in
  let+ testcases := reading (load_yaml tc_path) in
  let+ paths := rlift (yget api_spec "paths" (YMap [])) in
  if negb (truthy_value paths) then print (WarnNoPaths feature_id)
  else
    let+ first := rlift (first_post_fields paths) in
    do+ print (TestcasesHeader feature_id) then
    do+ print (PathOf first.1) then
    let+ tcs := rlift (yget testcases "testcases" (YSeq [])) in
    if negb (truthy_value tcs) then print NoTestcases
    else
      let+ cases := rlift (iterate tcs) in
      lint_testcases first.2 cases.

(** The loop of [lint_all] over the features. *)
Fixpoint lint_features (features : list (string * yaml)) : R unit :=
  match features with
  | [] => rret tt
  | (fid, cfg) :: more =>
      do+ print Rule then
      do+ print (FeatureTitle fid) then
      do+ print Rule then
      do+ check_files_exist fid cfg then
      let+ api_spec := rlift (yget cfg "api_spec" YNull) in
      let+ validation := rlift (yget cfg "validation" YNull) in
      do+ (if truthy_value api_spec && truthy_value validation
           then try_except (lint_api_vs_validation fid cfg)
                           (fun e => print (ValidationError e))
           else rret tt) then
      let+ testcases := rlift (yget cfg "testcases" YNull) in
      do+ (if truthy_value api_spec && truthy_value testcases
           then try_except (lint_api_vs_testcases fid cfg)
                           (fun e => print (TestcasesError e))
           else rret tt) then
      lint_features more
  end.

Definition lint_all : R unit :=
  let+ index := reading load_ssot_index in
  let+ features := rlift (yget index "features" (YMap [])) in
  if negb (truthy_value features) then print NoFeatures
  else
    let+ entries := rlift (items_of features) in
    lint_features entries.

(** ** Notions used to state the properties *)

(** A second fence follows the first fence of the text. *)
Definition has_closed_block (text : str) : bool :=
  match find fence text with
  | None => false
  | Some i => bool_decide (is_Some (find fence (drop (i + 3) text)))
  end.

(** The text has no fence, or a second fence follows its first one. *)
Definition first_fence_closed (text : str) : bool :=
  match find fence text with
  | None => true
  | Some _ => has_closed_block text
  end.

(** A computation that leaves the file system as it found it. *)
Definition readonly {A} (c : M A) : Prop := forall w, (c w).2 = w.

(** The file system with the directories [ps] in place. *)
Definition with_dirs (ps : list path) (w : world) : world :=
  foldl (fun w d => <[d := Dir]> w) w ps.

(** No file stands where one of the directories [ps] is needed. *)
Definition dirs_free (ps : list path) (w : world) : bool :=
  forallb (fun d => match w !! d with Some (File _) => false | _ => true end) ps.

(** The file [dir // name] can be created: no file stands where [dir] or
    one of its ancestors is needed, and no directory where the file goes. *)
Definition can_write (dir : path) (name : string) (w : world) : bool :=
  dirs_free (ancestors dir) w
  && match w !! (dir // name) with Some Dir => false | _ => true end.

(** The run [c] from [w] succeeds and leaves [content] in the file [p]. *)
Definition written (c : M unit) (w : world) (p : path) (content : str) : Prop :=
  exists w', c w = (Ok tt, w') /\ w' !! p = Some (File content).

Definition login_failed : JSONResponse := Response 401 (CErrorCode FAIL_ERROR_CODE).
Definition account_locked : JSONResponse := Response 401 (CErrorCode LOCK_ERROR_CODE).

(** A submission of password [pt.1] at time [pt.2] for the account [e]. *)
Definition submission (e : str) (pt : str * Z) : LoginRequest * Z :=
  (mkLoginRequest e pt.1, pt.2).

(** ** Sample data *)

Definition demo_cfg : yaml :=
  YMap [("api_spec", YStr "features/login/api.yaml");
        ("validation", YStr "features/login/validation_schema.json");
        ("rules", YStr "features/login/rules.yaml");
        ("testcases", YStr "features/login/testcases.yaml");
        ("db_schema", YStr "features/login/db_schema.yaml");
        ("prompts", YMap [("api", YStr "prompts/api.txt");
                          ("db", YStr "prompts/db.txt")])].

Definition demo_index : yaml := YMap [("features", YMap [("login", demo_cfg)])].

Definition demo_world : world :=
  list_to_map
    [(["base"; "ssot_index.yaml"], File (py "features: ..."));
     (["base"; "prompts"; "api.txt"], File (py "API for {feature_id}"));
     (["base"; "prompts"; "db.txt"], File (py "DDL for {feature_id}"));
     (["base"; "features"; "login"; "api.yaml"], File (py "openapi: 3.0.0"));
     (["base"; "features"; "login"; "validation_schema.json"], File (py "{}"));
     (["base"; "features"; "login"; "rules.yaml"], File (py "business_rules: {}"));
     (["base"; "features"; "login"; "testcases.yaml"], File (py "testcases: []"));
     (["base"; "features"; "login"; "db_schema.yaml"], File (py "tables: []"))].

Definition demo_sql : str :=
  py ("Here is the schema." ++ LF ++ "```sql" ++ LF
      ++ "CREATE TABLE t (id INT);" ++ LF ++ "```" ++ LF)%string.

Definition demo_client : service := fun _ _ => Ok demo_sql.

Definition demo_format (tpl : str) (args : list (string * str)) : result str := Ok tpl.

Definition demo_member : Member :=
  mkMember (py "u1") (py "user1@example.com") (py "hash-of-Pass@word1") 0 false None 0 0.

Definition demo_checkpw (password hash : str) : bool :=
  bool_decide (hash = py "hash-of-" ++ password).

Definition demo_jwt_decode (token : str) : jwt_result :=
  if bool_decide (token = py "good") then JwtPayload (Some (py "user123"))
  else if bool_decide (token = py "old") then JwtExpired
  else JwtInvalid.

(** ** Notions used to state further properties *)

Definition is_newline (c : N) : bool := (c =? 10)%N.

(** What the login API asks of a password: at least eight characters on
    one line, with an upper-case letter, a lower-case letter, a digit and
    one of the special characters. *)
Definition password_ok (v : str) : bool :=
  (8 <=? length v) && negb (existsb is_newline v)
  && existsb is_upper v && existsb is_lower v
  && existsb isdecimal v && existsb is_special v.

(** The keywords of the first of DANGEROUS_PATTERNS. *)
Definition SQL_KEYWORDS : list str :=
  [py "select"; py "insert"; py "update"; py "delete"; py "drop";
   py "truncate"; py "union"; py "exec"].

(** The characters of ; & | ` $, the second of DANGEROUS_PATTERNS. *)
Definition is_shell_char (c : N) : bool := elem c [59; 38; 124; 96; 36]%N.

Definition ascii_lower (c : N) : N := if between 65 90 c then (c + 32)%N else c.

(** The text ends, or begins, with a word character. *)
Definition ends_in_word (l : str) : bool := from_option is_word false (last l).
Definition begins_with_word (l : str) : bool := from_option is_word false (head l).

(** The states of a row that the login API reaches from a fresh one: not
    locked with fewer than MAX_FAIL_COUNT failures counted and no lock
    time, or locked with MAX_FAIL_COUNT failures and a lock time. *)
Definition row_consistent (member : Member) : bool :=
  if is_locked member
  then (fail_count member =? MAX_FAIL_COUNT)%Z
       && bool_decide (is_Some (locked_at member))
  else (0 <=? fail_count member)%Z && (fail_count member <? MAX_FAIL_COUNT)%Z
       && bool_decide (locked_at member = None).

(** The columns of a row that identify the account. *)
Definition same_account (a b : Member) : Prop :=
  user_id a = user_id b /\ email a = email b
  /\ password_hash a = password_hash b /\ created_at a = created_at b.

(** Bodies posted to /api/login_api one after the other, each at its
    time. *)
Fixpoint post_logins (bodies : list (login_body * Z)) (db : table)
    : list JSONResponse * table :=
  match bodies with
  | [] => ([], db)
  | (b, now) :: more =>
      let '(r, db') := post_login_api b now db in
      let '(rs, db'') := post_logins more db' in
      (r :: rs, db'')
  end.

(** What one answer does to a count of failures: 200 sets it back to zero,
    401 adds one, any other answer leaves it. *)
Definition count_answer (k : Z) (r : JSONResponse) : Z :=
  if (status_code r =? 200)%Z then 0%Z
  else if (status_code r =? 401)%Z then (k + 1)%Z
  else k.

(** The count after the answers [rs], from [start]. *)
Definition counted (start : Z) (rs : list JSONResponse) : Z :=
  foldl count_answer start rs.

(** The files that generate_all.py writes for a feature. *)
Definition api_file (feature_id : string) : path :=
  GENERATED_DIR // feature_id // "api" // (feature_id ++ "_api.py")%string.
Definition ui_file (feature_id : string) : path :=
  GENERATED_DIR // feature_id // "ui" // (feature_id ++ "_ui.py")%string.
Definition test_file (feature_id : string) : path :=
  GENERATED_DIR // feature_id // "test" // (feature_id ++ "_test.py")%string.
Definition db_file (feature_id : string) : path :=
  GENERATED_DIR // feature_id // "db" // (feature_id ++ "_schema.sql")%string.

(** The run [c] keeps every file and directory other than [outputs]. *)
Definition keeps_but (outputs : list path) {A} (c : M A) : Prop :=
  forall w q n, q ∉ outputs -> w !! q = Some n -> (c w).2 !! q = Some n.

(** The five artifacts of generate_ssot_from_feature_spec.py: the kind and
    the name of the file. *)
Definition SSOT_ARTIFACTS : list (string * string) :=
  [("api", "api.yaml"); ("db_schema", "db_schema.yaml"); ("rules", "rules.yaml");
   ("testcases", "testcases.yaml"); ("validation", "validation_schema.json")].

(** What [save_yaml] or [save_json] writes for an artifact. *)
Definition dumped (data : artifact) : str :=
  match data with
  | AYaml y => yaml_safe_dump y
  | AJson j => json_dumps j
  end.

(** The four generators of generate_all.py: how each renders its prompt,
    and the generator. *)
Definition generators (client : service) (feature_id : string) (cfg : yaml)
    : list (M str * M unit) :=
  [(api_prompt feature_id cfg, generate_api client feature_id cfg);
   (ui_prompt feature_id cfg, generate_ui client feature_id cfg);
   (test_prompt feature_id cfg, generate_test client feature_id cfg);
   (db_prompt feature_id cfg, generate_db client feature_id cfg)].

(** The file of an artifact of generate_ssot_from_feature_spec.py. *)
Definition ssot_file (feature_id name : string) : path :=
  AUTO_FEATURES_DIR // feature_id // name.

(** An entry of a configuration that lint_ssot.py can take for a path: a
    string, or a value that counts as absent. *)
Definition path_entry_ok (y : yaml) : bool :=
  match y with
  | YStr _ => true
  | _ => negb (truthy_value y)
  end.

(** A mapping of such entries. *)
Definition paths_ok (y : yaml) : bool :=
  match y with
  | YMap items => forallb (fun kv => path_entry_ok kv.2) items
  | _ => false
  end.

(** A configuration block of a feature as ssot_index.yaml is meant to hold
    it: a mapping whose five artifact entries, and the entries of whose
    [design] and [prompts] mappings, are paths or absent. *)
Definition cfg_ok (cfg : yaml) : bool :=
  match cfg with
  | YMap items =>
      forallb (fun key => path_entry_ok (default YNull (assoc key items)))
              ["api_spec"; "validation"; "rules"; "testcases"; "db_schema"]
      && paths_ok (default (YMap []) (assoc "design" items))
      && paths_ok (default (YMap []) (assoc "prompts" items))
  | _ => false
  end.

Definition is_mapping (y : yaml) : bool :=
  match y with
  | YMap _ => true
  | _ => false
  end.

(** A computation of the lint script that raises nothing but what
    [except Exception] catches. *)
Definition tame {A} (c : R A) : Prop :=
  forall w out e out', c w out = (Err e, out') -> is_exception e = true.

(** The same of a result. *)
Definition tame_result {A} (r : result A) : Prop :=
  forall e, r = Err e -> is_exception e = true.

(** ** More sample data *)

(** The account of [demo_member] after five failures. *)
Definition demo_locked : Member :=
  mkMember (py "u1") (py "user1@example.com") (py "hash-of-Pass@word1") 5 true
           (Some 3%Z) 0 3.

(** A service that is down. *)
Definition demo_down : service := fun _ _ => Err ServiceError.

(** An index with a feature whose block is empty. *)
Definition demo_broken_index : yaml :=
  YMap [("features", YMap [("login", demo_cfg); ("signup", YNull);
                           ("logout", demo_cfg)])].

(** A file system that holds the feature specification of login. *)
Definition demo_spec_world : world :=
  {[ ["ssot"; "feature_specs"; "login_feature_spec_add_lock.yaml"]
     := File (py "feature: login") ]}.


(** * Proofs *)

(** ** Facts about the matcher *)

Section MatcherFacts.

Implicit Types (k : K) (s : mstate) (l : str).

Lemma adv_0 s : adv 0 s = s.
Proof. destruct s as [sn rs g]. unfold adv. simpl. by rewrite drop_0. Qed.

Lemma adv_S n c t sn g :
  adv (S n) (MState sn (c :: t) g) = adv n (MState (c :: sn) t g).
Proof. unfold adv. simpl. by rewrite <- app_assoc. Qed.

Lemma rest_adv n s : rest (adv n s) = drop n (rest s).
Proof. reflexivity. Qed.

Lemma groups_adv n s : groups (adv n s) = groups s.
Proof. reflexivity. Qed.

Lemma m_lit l k s :
  m (lit l) k s = if startswith l (rest s) then k (adv (length l) s) else None.
Proof.
  revert s. induction l as [|c l IH]; intros [sn rs g]; simpl.
  - by rewrite adv_0.
  - destruct rs as [|c' t]; [done|].
    destruct (N.eqb c c') eqn:E; simpl; [|done].
    rewrite IH. simpl. by rewrite adv_S.
Qed.

(** Greedy [c*] for a one-character class [c]: when the continuation
    accepts after the longest run, that is the match. *)
Lemma star_greedy_chr p k fuel s x :
  length (rest s) < fuel ->
  k (adv (span_len p (rest s)) s) = Some x ->
  star_loop true (m (Chr p)) k fuel s = Some x.
Proof.
  revert s. induction fuel as [|f IH]; intros [sn rs g] Hf Hk; [simpl in Hf; lia|].
  simpl in *. destruct rs as [|c t]; simpl in *.
  - by rewrite adv_0 in Hk.
  - destruct (p c) eqn:Hp.
    + rewrite adv_S in Hk.
      assert ((length t <? S (length t)) = true) as -> by (apply Nat.ltb_lt; lia).
      rewrite (IH (MState (c :: sn) t g)); [done | simpl; lia | done].
    + by rewrite adv_0 in Hk.
Qed.

Lemma m_star_greedy_chr p k s x :
  k (adv (span_len p (rest s)) s) = Some x ->
  m (Star true (Chr p)) k s = Some x.
Proof.
  intros. change (m (Star true (Chr p)) k s)
    with (star_loop true (m (Chr p)) k (S (length (rest s))) s).
  apply star_greedy_chr; [lia | done].
Qed.

(** Greedy [c*] fails when the continuation rejects every split. *)
Lemma star_greedy_chr_none p k fuel s :
  (forall j, j <= span_len p (rest s) -> k (adv j s) = None) ->
  star_loop true (m (Chr p)) k fuel s = None.
Proof.
  revert s. induction fuel as [|f IH]; intros [sn rs g] Hk.
  - simpl. specialize (Hk 0). rewrite adv_0 in Hk. apply Hk. lia.
  - assert (k (MState sn rs g) = None) as H0.
    { specialize (Hk 0). rewrite adv_0 in Hk. apply Hk. lia. }
    simpl in *. destruct rs as [|c t]; simpl in *; [done|].
    destruct (p c) eqn:Hp; [|done].
    destruct (length t <? S (length t)); [|done].
    rewrite (IH (MState (c :: sn) t g)); [done|].
    intros j Hj. simpl in Hj. rewrite <- adv_S. apply Hk. lia.
Qed.

(** Lazy [.*?] under DOTALL tries the continuation at each position in
    turn. *)
Lemma star_lazy_any k fuel s :
  length (rest s) < fuel ->
  star_loop false (m any) k fuel s = scan k (seen s) (rest s) (groups s).
Proof.
  revert s. induction fuel as [|f IH]; intros [sn rs g] Hf; [simpl in Hf; lia|].
  simpl in *. destruct rs as [|c t]; simpl in *; [done|].
  assert ((length t <? S (length t)) = true) as -> by (apply Nat.ltb_lt; lia).
  rewrite (IH (MState (c :: sn) t g)); [done | simpl; lia].
Qed.

Lemma m_star_lazy_any k s :
  m (Star false any) k s = scan k (seen s) (rest s) (groups s).
Proof.
  change (m (Star false any) k s)
    with (star_loop false (m any) k (S (length (rest s))) s).
  apply star_lazy_any. lia.
Qed.

Lemma scan_first k n sn rs g x :
  (forall j, j < n -> k (adv j (MState sn rs g)) = None) ->
  k (adv n (MState sn rs g)) = Some x ->
  n <= length rs ->
  scan k sn rs g = Some x.
Proof.
  revert sn rs. induction n as [|n IH]; intros sn rs Hlt Hn Hlen.
  - rewrite adv_0 in Hn. destruct rs; simpl; by rewrite Hn.
  - destruct rs as [|c t]; simpl in Hlen; [lia|]. simpl.
    assert (k (MState sn (c :: t) g) = None) as ->.
    { specialize (Hlt 0). rewrite adv_0 in Hlt. apply Hlt. lia. }
    simpl. apply IH; [| by rewrite <- adv_S | lia].
    intros j Hj. rewrite <- adv_S. apply Hlt. lia.
Qed.

Lemma scan_none k sn rs g :
  (forall j, j <= length rs -> k (adv j (MState sn rs g)) = None) ->
  scan k sn rs g = None.
Proof.
  revert sn. induction rs as [|c t IH]; intros sn Hk; simpl.
  - specialize (Hk 0). rewrite adv_0 in Hk. rewrite Hk; [done | simpl; lia].
  - assert (k (MState sn (c :: t) g) = None) as ->.
    { specialize (Hk 0). rewrite adv_0 in Hk. apply Hk. lia. }
    simpl. apply IH. intros j Hj. rewrite <- adv_S. apply Hk. simpl. lia.
Qed.

(** [re.search] passes over the offsets at which the pattern fails. *)
Lemma search_at_skip r pre sn rs :
  (forall j, j < length pre ->
     m r Some (MState (rev (take j pre) ++ sn) (drop j pre ++ rs) ∅) = None) ->
  search_at r sn (pre ++ rs) = search_at r (rev pre ++ sn) rs.
Proof.
  revert sn. induction pre as [|c pre IH]; intros sn H; [done|].
  pose proof (H 0) as H0. simpl in H0. simpl. rewrite H0; [|lia].
  rewrite IH; [by rewrite <- app_assoc|].
  intros j Hj. specialize (H (S j)). simpl in H.
  rewrite <- app_assoc in H. apply H. lia.
Qed.

Lemma search_at_none r sn rs :
  (forall j, j <= length rs ->
     m r Some (MState (rev (take j rs) ++ sn) (drop j rs) ∅) = None) ->
  search_at r sn rs = None.
Proof.
  revert sn. induction rs as [|c t IH]; intros sn H.
  - simpl. specialize (H 0). simpl in H. rewrite H; [done | lia].
  - pose proof (H 0) as H0. simpl in H0. simpl. rewrite H0; [|lia]. apply IH.
    intros j Hj. specialize (H (S j)). simpl in H.
    rewrite <- app_assoc in H. apply H. lia.
Qed.

Lemma search_at_here r sn rs x :
  m r Some (MState sn rs ∅) = Some x -> search_at r sn rs = Some x.
Proof. intros H. destruct rs; simpl; by rewrite H. Qed.

End MatcherFacts.

(** ** Facts about [startswith], [find] and [strip] *)

Section StrFacts.

Implicit Types (p s a b : str).

Lemma startswith_app p a : startswith p (p ++ a) = true.
Proof. induction p as [|c p IH]; simpl; [done|]. by rewrite N.eqb_refl. Qed.

Lemma startswith_long p a b :
  length p <= length a -> startswith p (a ++ b) = startswith p a.
Proof.
  revert a. induction p as [|c p IH]; intros a H; [by destruct a|].
  destruct a as [|c' a]; simpl in *; [lia|].
  rewrite IH; [done | lia].
Qed.

Lemma startswith_split p q s :
  startswith (p ++ q) s = startswith p s && startswith q (drop (length p) s).
Proof.
  revert s. induction p as [|c p IH]; intros s; simpl; [by rewrite drop_0|].
  destruct s as [|c' s]; simpl; [done|].
  rewrite IH. by rewrite andb_assoc.
Qed.

Lemma startswith_short p s : length s < length p -> startswith p s = false.
Proof.
  revert s. induction p as [|c p IH]; intros s H; simpl in *; [lia|].
  destruct s as [|c' s]; simpl in *; [done|].
  rewrite IH; [apply andb_false_r | lia].
Qed.

Lemma find_Some p s n :
  find p s = Some n ->
  (forall j, j < n -> startswith p (drop j s) = false)
  /\ startswith p (drop n s) = true /\ n <= length s.
Proof.
  revert n. induction s as [|c s IH]; intros n H.
  - simpl in H. destruct (startswith p []) eqn:E; [|done].
    injection H as <-. repeat split; [intros; lia | done | simpl; lia].
  - cbn [find] in H. destruct (startswith p (c :: s)) eqn:E.
    + injection H as <-. repeat split; [intros; lia | done | simpl; lia].
    + destruct (find p s) as [n'|] eqn:F; [|done]. injection H as <-.
      destruct (IH n' eq_refl) as (H1 & H2 & H3).
      repeat split; [| done | simpl; lia].
      intros [|j] Hj; [done|]. simpl. apply H1. lia.
Qed.

Lemma find_None p s :
  find p s = None -> forall j, startswith p (drop j s) = false.
Proof.
  induction s as [|c s IH]; intros H j.
  - simpl in H. rewrite drop_nil. by destruct (startswith p []).
  - cbn [find] in H. destruct (startswith p (c :: s)) eqn:E; [done|].
    destruct (find p s) eqn:F; [done|].
    destruct j; [done|]. simpl. by apply IH.
Qed.

Lemma lstrip_drop s : lstrip s = drop (span_len isspace s) s.
Proof.
  induction s as [|c s IH]; simpl; [done|].
  by destruct (isspace c).
Qed.

Lemma lstrip_idem s : lstrip (lstrip s) = lstrip s.
Proof.
  induction s as [|c s IH]; simpl; [done|].
  destruct (isspace c) eqn:E; [done|]. simpl. by rewrite E.
Qed.

Lemma strip_lstrip s : strip (lstrip s) = strip s.
Proof. unfold strip. by rewrite lstrip_idem. Qed.

(** A run of [q]-characters stops where the next character is not one. *)
Lemma span_len_app q a c b :
  q c = false -> span_len q (a ++ c :: b) = span_len q a.
Proof.
  intros Hc. induction a as [|x a IH]; simpl; [by rewrite Hc|].
  destruct (q x); [by rewrite IH | done].
Qed.

Lemma span_len_le q a : span_len q a <= length a.
Proof. induction a as [|x a IH]; simpl; [lia|]. destruct (q x); simpl; lia. Qed.

End StrFacts.

(** ** The three extraction patterns *)

Section Patterns.

Implicit Types (k : K) (s st : mstate) (body post : str).

Lemma m_seq a b k s : m (Seq a b) k s = m a (m b k) s.
Proof. reflexivity. Qed.

Lemma m_alt a b k s : m (Alt a b) k s = orelse (m a k s) (m b k s).
Proof. reflexivity. Qed.

Lemma m_group n a k s : m (Group n a) k s = m a (fun s' => k (set_group n s s')) s.
Proof. reflexivity. Qed.

Lemma rest_set_group n s0 s1 : rest (set_group n s0 s1) = rest s1.
Proof. reflexivity. Qed.

Lemma fence_length : length fence = 3.
Proof. reflexivity. Qed.

Lemma fence_head post : fence ++ post = 96%N :: 96%N :: 96%N :: post.
Proof. reflexivity. Qed.

(** A suffix that starts inside [body], seen through the closing fence. *)
Lemma startswith_fence_inside body post j :
  j <= length body ->
  startswith fence (drop j (body ++ fence ++ post))
  = startswith fence (drop j (body ++ fence)).
Proof.
  intros Hj. rewrite (app_assoc body fence post).
  rewrite drop_app_le by (rewrite length_app; lia).
  apply startswith_long.
  rewrite length_drop, length_app, fence_length. lia.
Qed.

(** What both closers, [(```|$)] and [```], have in common. *)
Section Closer.

Variable K2 : K.
Hypothesis K2_miss : forall st,
  startswith fence (rest st) = false -> 2 <= length (rest st) -> K2 st = None.
Hypothesis K2_hit : forall st,
  startswith fence (rest st) = true ->
  exists x, K2 st = Some x /\ group 1 x = group 1 st.

(** [(.*?)] followed by the closer takes the text up to the first fence. *)
Lemma lazy_body s body post :
  rest s = body ++ fence ++ post ->
  (forall j, j < length body -> startswith fence (drop j (body ++ fence)) = false) ->
  exists x, m (Group 1 (Star false any)) K2 s = Some x /\ group 1 x = body.
Proof.
  intros Hrest Hbody. destruct s as [sn rs g]. cbn [rest] in Hrest. subst rs.
  set (s := MState sn (body ++ fence ++ post) g).
  destruct (K2_hit (set_group 1 s (adv (length body) s))) as (x & Hx & Hg).
  { rewrite rest_set_group, rest_adv. cbn [rest s].
    rewrite drop_app_length. apply startswith_app. }
  exists x. split.
  - rewrite m_group, m_star_lazy_any. cbn [seen rest groups s].
    apply scan_first with (n := length body).
    + intros j Hj. apply K2_miss; rewrite rest_set_group, rest_adv; cbn [rest].
      * rewrite startswith_fence_inside by lia. by apply Hbody.
      * rewrite length_drop, !length_app, fence_length. lia.
    + exact Hx.
    + rewrite length_app. lia.
  - rewrite Hg. unfold group, set_group. cbn [groups].
    rewrite lookup_insert_eq. cbn [default from_option id]. rewrite rest_adv. cbn [rest s].
    rewrite length_drop, !length_app.
    replace (_ - _) with (length body) by lia.
    by rewrite take_app_length.
Qed.

(** [\s*] before it skips the blank start of the body. *)
Lemma blank_then_body s body post :
  rest s = body ++ fence ++ post ->
  (forall j, j < length body -> startswith fence (drop j (body ++ fence)) = false) ->
  exists x, m (Star true (Chr isspace)) (m (Group 1 (Star false any)) K2) s = Some x
            /\ group 1 x = lstrip body.
Proof.
  intros Hrest Hbody.
  assert (span_len isspace (rest s) = span_len isspace body) as Hspan.
  { rewrite Hrest, fence_head. by apply span_len_app. }
  pose proof (span_len_le isspace body) as Hle.
  destruct (lazy_body (adv (span_len isspace body) s) (lstrip body) post) as (x & Hx & Hg).
  - rewrite rest_adv, Hrest, lstrip_drop. by rewrite drop_app_le.
  - intros j Hj. rewrite lstrip_drop in *. rewrite length_drop in Hj.
    rewrite <- drop_app_le by done. rewrite drop_drop. apply Hbody. lia.
  - exists x. split; [|done].
    apply m_star_greedy_chr. by rewrite Hspan.
Qed.

End Closer.

Lemma closer_alt_miss st :
  startswith fence (rest st) = false -> 2 <= length (rest st) ->
  m (Group 2 (Alt (lit fence) Eol)) Some st = None.
Proof.
  intros Hf Hlen. rewrite m_group, m_alt, m_lit, Hf. cbn [orelse m].
  destruct (rest st) as [|a [|b t]]; simpl in Hlen; [lia | lia | done].
Qed.

Lemma closer_alt_hit st :
  startswith fence (rest st) = true ->
  exists x, m (Group 2 (Alt (lit fence) Eol)) Some st = Some x
            /\ group 1 x = group 1 st.
Proof.
  intros Hf. rewrite m_group, m_alt, m_lit, Hf. cbn [orelse].
  eexists. split; [reflexivity|].
  unfold group. cbn [groups set_group adv]. by rewrite lookup_insert_ne.
Qed.

Lemma closer_fence_miss st :
  startswith fence (rest st) = false -> 2 <= length (rest st) ->
  m (lit fence) Some st = None.
Proof. intros Hf _. by rewrite m_lit, Hf. Qed.

Lemma closer_fence_hit st :
  startswith fence (rest st) = true ->
  exists x, m (lit fence) Some st = Some x /\ group 1 x = group 1 st.
Proof. intros Hf. rewrite m_lit, Hf. eexists. split; reflexivity. Qed.

(** A pattern that opens with the fence fails where no fence starts. *)
Lemma fence_first_miss a s :
  startswith fence (rest s) = false -> m (Seq (lit fence) a) Some s = None.
Proof. intros H. by rewrite m_seq, m_lit, H. Qed.

Lemma search_no_fence a text :
  find fence text = None -> search (Seq (lit fence) a) text = None.
Proof.
  intros H. apply search_at_none. intros j _.
  apply fence_first_miss. cbn [rest]. by apply find_None.
Qed.

End Patterns.

(** ** extract_code_block and extract_block *)

Section Extraction.

Implicit Types (s : mstate) (text pre body post lang : str).

Lemma startswith_eq (p t : str) :
  startswith p t = true -> t = p ++ drop (length p) t.
Proof.
  revert t. induction p as [|c p IH]; intros t H; simpl in *.
  - by rewrite drop_0.
  - destruct t as [|c' t]; [done|].
    apply andb_true_iff in H as [Hc Hp]. apply N.eqb_eq in Hc as <-.
    simpl. f_equal. by apply IH.
Qed.

Lemma find_first_body body :
  find fence (body ++ fence) = Some (length body) ->
  forall j, j < length body -> startswith fence (drop j (body ++ fence)) = false.
Proof. intros H. by destruct (find_Some _ _ _ H) as (H1 & _ & _). Qed.

Lemma pattern_lang_miss lang s :
  startswith (fence ++ lang) (rest s) = false ->
  m (pattern_lang lang) Some s = None.
Proof.
  intros H. unfold pattern_lang. rewrite m_seq, m_lit.
  rewrite startswith_split in H.
  destruct (startswith fence (rest s)); [|done].
  rewrite andb_true_l in H. by rewrite m_seq, m_lit, rest_adv, H.
Qed.

Lemma pattern_lang_at lang s body post :
  rest s = fence ++ lang ++ body ++ fence ++ post ->
  (forall j, j < length body -> startswith fence (drop j (body ++ fence)) = false) ->
  exists x, m (pattern_lang lang) Some s = Some x /\ group 1 x = lstrip body.
Proof.
  intros Hrest Hbody. unfold pattern_lang.
  rewrite m_seq, m_lit, Hrest, startswith_app.
  rewrite m_seq, m_lit, rest_adv, Hrest.
  rewrite drop_app_length, startswith_app.
  rewrite m_seq.
  apply blank_then_body with (post := post);
    [apply closer_alt_miss | apply closer_alt_hit | | done].
  rewrite !rest_adv, Hrest. by rewrite !drop_app_length.
Qed.

(** A run of tag characters or blanks holds no fence. *)
Lemma span_no_fence (q : N -> bool) (l : str) j :
  q 96%N = false -> j < span_len q l -> startswith fence (drop j l) = false.
Proof.
  intros Hq. revert j. induction l as [|c l IH]; intros j Hj; simpl in Hj; [lia|].
  destruct (q c) eqn:Hc; [|lia].
  destruct j as [|j]; [|apply IH; lia].
  rewrite drop_0. change fence with [96; 96; 96]%N. cbn [startswith].
  destruct (N.eqb_spec 96 c) as [<-|]; [congruence | done].
Qed.

(** The untagged patterns, whatever their closer [C]. *)
Lemma untagged_at (C : regex) s r1 body post :
  (forall st, startswith fence (rest st) = false -> 2 <= length (rest st) ->
     m C Some st = None) ->
  (forall st, startswith fence (rest st) = true ->
     exists x, m C Some st = Some x /\ group 1 x = group 1 st) ->
  rest s = fence ++ r1 ->
  drop (span_len tagchar r1) r1 = body ++ fence ++ post ->
  (forall j, j < length body -> startswith fence (drop j (body ++ fence)) = false) ->
  exists x,
    m (Seq (lit fence) (Seq (Star true (Chr tagchar)) (Seq (Star true (Chr isspace))
         (Seq (Group 1 (Star false any)) C)))) Some s = Some x
    /\ group 1 x = lstrip body.
Proof.
  intros Hmiss Hhit Hrest Hr1 Hbody.
  rewrite m_seq, m_lit, Hrest, startswith_app.
  rewrite m_seq.
  destruct (blank_then_body (m C Some) Hmiss Hhit
              (adv (span_len tagchar r1) (adv (length fence) s)) body post)
    as (x & Hx & Hg); [|done|].
  - rewrite !rest_adv, Hrest, drop_app_length. exact Hr1.
  - exists x. split; [|done].
    apply m_star_greedy_chr. rewrite rest_adv, Hrest, drop_app_length.
    exact Hx.
Qed.

Lemma untagged_miss (a : regex) pre rs :
  (forall j, j < length pre -> startswith fence (drop j (pre ++ rs)) = false) ->
  search (Seq (lit fence) a) (pre ++ rs) = search_at (Seq (lit fence) a) (rev pre) rs.
Proof.
  intros H. unfold search. rewrite search_at_skip; [by rewrite app_nil_r|].
  intros j Hj. apply fence_first_miss. cbn [rest].
  rewrite <- drop_app_le by lia. by apply H.
Qed.

Lemma search_untagged (C : regex) text i j :
  (forall st, startswith fence (rest st) = false -> 2 <= length (rest st) ->
     m C Some st = None) ->
  (forall st, startswith fence (rest st) = true ->
     exists x, m C Some st = Some x /\ group 1 x = group 1 st) ->
  find fence text = Some i ->
  find fence (drop (i + 3) text) = Some j ->
  exists x body,
    search (Seq (lit fence) (Seq (Star true (Chr tagchar)) (Seq (Star true (Chr isspace))
              (Seq (Group 1 (Star false any)) C)))) text = Some x
    /\ group 1 x = lstrip body
    /\ body = take (j - span_len tagchar (drop (i + 3) text))
                   (drop (span_len tagchar (drop (i + 3) text)) (drop (i + 3) text)).
Proof.
  intros Hmiss Hhit Hi Hj.
  destruct (find_Some _ _ _ Hi) as (Hpre & Hat & Hle).
  destruct (find_Some _ _ _ Hj) as (Hj1 & Hj2 & Hjle).
  set (r1 := drop (i + 3) text) in *.
  set (t := span_len tagchar r1).
  assert (drop i text = fence ++ r1) as Hsplit.
  { rewrite (startswith_eq _ _ Hat) at 1. by rewrite fence_length, drop_drop. }
  assert (t <= j) as Htj.
  { destruct (le_lt_dec t j) as [|Hlt]; [done|].
    rewrite (span_no_fence tagchar r1 j) in Hj2; [done | done | done]. }
  set (body := take (j - t) (drop t r1)).
  set (post := drop 3 (drop j r1)).
  assert (drop t r1 = body ++ fence ++ post) as Hr1.
  { unfold body, post. rewrite <- (take_drop (j - t) (drop t r1)) at 1.
    f_equal. rewrite drop_drop. replace (t + (j - t)) with j by lia.
    by rewrite (startswith_eq _ _ Hj2) at 1. }
  assert (length body = j - t) as Hlen.
  { unfold body. rewrite length_take, length_drop. lia. }
  assert (forall j', j' < length body ->
            startswith fence (drop j' (body ++ fence)) = false) as Hbody.
  { intros j' Hj'. rewrite <- (startswith_fence_inside body post) by lia.
    rewrite <- Hr1, drop_drop. apply Hj1. lia. }
  destruct (untagged_at C (MState (rev (take i text)) (fence ++ r1) ∅) r1 body post
              Hmiss Hhit eq_refl Hr1 Hbody) as (x & Hx & Hg).
  exists x, body. split; [|done].
  rewrite <- (take_drop i text) at 1. rewrite Hsplit.
  rewrite untagged_miss.
  - by apply search_at_here.
  - intros j' Hj'. rewrite <- Hsplit, take_drop. apply Hpre.
    rewrite length_take in Hj'. lia.
Qed.

Lemma fallback_code_block text (language : option str) :
  find fence text = None -> extract_code_block text language = strip text.
Proof.
  intros H. unfold extract_code_block.
  destruct language as [[|c l]|]; unfold pattern_lang, pattern_any;
    by rewrite search_no_fence.
Qed.

Lemma fallback_other_language text lang :
  0 < length lang -> find (fence ++ lang) text = None ->
  extract_code_block text (Some lang) = strip text.
Proof.
  intros Hl H. unfold extract_code_block.
  destruct lang as [|c l]; [simpl in Hl; lia|].
  assert (search (pattern_lang (c :: l)) text = None) as ->; [|done].
  apply search_at_none. intros j _. apply pattern_lang_miss. cbn [rest].
  by apply find_None.
Qed.

Lemma fallback_block text :
  find fence text = None -> extract_block text = strip text.
Proof.
  intros H. unfold extract_block, pattern_block. by rewrite search_no_fence.
Qed.

Lemma m_star_greedy_chr_none (q : N -> bool) (k : K) s :
  (forall j, j <= span_len q (rest s) -> k (adv j s) = None) ->
  m (Star true (Chr q)) k s = None.
Proof.
  intros H. change (m (Star true (Chr q)) k s)
    with (star_loop true (m (Chr q)) k (S (length (rest s))) s).
  by apply star_greedy_chr_none.
Qed.

(** [extract_block]'s pattern fails where no fence follows the opening one. *)
Lemma pattern_block_miss s :
  (forall j, startswith fence (drop j (drop (length fence) (rest s))) = false) ->
  m pattern_block Some s = None.
Proof.
  intros H. unfold pattern_block. rewrite m_seq, m_lit.
  destruct (startswith fence (rest s)); [|done].
  rewrite m_seq. apply m_star_greedy_chr_none. intros j1 _.
  rewrite m_seq. apply m_star_greedy_chr_none. intros j2 _.
  rewrite m_seq, m_group, m_star_lazy_any. apply scan_none. intros j3 _.
  cbn beta. rewrite m_lit, rest_set_group, rest_adv. cbn [rest].
  rewrite !rest_adv. set (X := drop (length fence) (rest s)) in *.
  by rewrite !drop_drop, H.
Qed.

Lemma search_block_unclosed text i :
  find fence text = Some i ->
  find fence (drop (i + 3) text) = None ->
  search pattern_block text = None.
Proof.
  intros Hi Hnone. destruct (find_Some _ _ _ Hi) as (Hpre & _ & _).
  apply search_at_none. intros o _.
  destruct (le_lt_dec i o) as [Hio|Hoi].
  - apply pattern_block_miss. intros j. cbn [rest].
    rewrite !drop_drop, fence_length.
    replace (o + (3 + j)) with (i + 3 + (o - i + j)) by lia.
    rewrite <- drop_drop. by apply find_None.
  - unfold pattern_block. apply fence_first_miss. cbn [rest]. by apply Hpre.
Qed.

Lemma fallback_block_unclosed text :
  has_closed_block text = false -> extract_block text = strip text.
Proof.
  unfold has_closed_block. intros H.
  destruct (find fence text) as [i|] eqn:Hi; [|by apply fallback_block].
  apply bool_decide_eq_false in H.
  destruct (find fence (drop (i + 3) text)) eqn:Hj; [by destruct H; eexists|].
  unfold extract_block. by rewrite (search_block_unclosed text i Hi Hj).
Qed.

(** Where the extractor with a language finds its block.  When the text
    is [pre], then the fence and the language, then [body], then a fence,
    then [post], and the fence before the language is the first place of
    the text where a fence followed by the language starts, and the closing
    fence is the first fence after the language, then [extract_code_block]
    with that language returns [body] trimmed, whatever [pre] and [post]
    are. *)
Lemma extract_code_block_first_tagged lang pre body post :
  0 < length lang ->
  find (fence ++ lang) (pre ++ fence ++ lang ++ body ++ fence ++ post)
    = Some (length pre) ->
  find fence (body ++ fence) = Some (length body) ->
  extract_code_block (pre ++ fence ++ lang ++ body ++ fence ++ post) (Some lang)
    = strip body.
Proof.
  intros Hl Hfirst Hbody.
  destruct (find_Some _ _ _ Hfirst) as (Hpre & _ & _).
  unfold extract_code_block.
  destruct lang as [|c l]; [simpl in Hl; lia|].
  set (lang := c :: l) in *.
  unfold search. rewrite search_at_skip.
  - destruct (pattern_lang_at lang
                (MState (rev pre ++ []) (fence ++ lang ++ body ++ fence ++ post) ∅)
                body post eq_refl (find_first_body _ Hbody)) as (x & Hx & Hg).
    rewrite (search_at_here _ _ _ _ Hx), Hg. apply strip_lstrip.
  - intros j Hj. apply pattern_lang_miss. cbn [rest].
    rewrite <- drop_app_le by lia. by apply Hpre.
Qed.

Lemma tagchar_not_blank c : tagchar c = true -> isspace c = false.
Proof.
  intros H. destruct (isspace c) eqn:E; [exfalso|done].
  unfold tagchar, isspace, between in *.
  repeat (rewrite orb_true_iff in H || rewrite andb_true_iff in H
          || rewrite N.leb_le in H || rewrite N.eqb_eq in H).
  repeat (rewrite orb_true_iff in E || rewrite andb_true_iff in E
          || rewrite N.leb_le in E || rewrite N.eqb_eq in E).
  lia.
Qed.

Lemma lstrip_snoc_word (a : str) c :
  isspace c = false -> lstrip (a ++ [c]) = lstrip a ++ [c].
Proof.
  intros Hc. induction a as [|x a IH]; cbn [app lstrip]; [by rewrite Hc|].
  by destruct (isspace x).
Qed.

(** Trimming keeps a first character that is no blank. *)
Lemma strip_cons_word c (l : str) :
  isspace c = false -> exists t, strip (c :: l) = c :: t.
Proof.
  intros Hc. unfold strip, rstrip. cbn [lstrip]. rewrite Hc. cbn [rev].
  rewrite lstrip_snoc_word by done. rewrite rev_app_distr. cbn [rev app].
  by eexists.
Qed.

(** C4, where the code misses it.  The pattern puts no boundary after the
    language: where the fence and the language are followed at once by a
    further tag character [c], the opening tag is longer than the language,
    python3 for python, and the block is not one tagged with the language.
    The extractor stops at it all the same, when it is the first place
    where a fence followed by the language starts: it returns what follows
    the language up to the next fence, trimmed, which begins with [c], the
    rest of the tag, whatever [post] holds, a block tagged with the
    language itself for one. *)
Theorem longer_tag_taken_for_language lang c body pre post :
  0 < length lang -> tagchar c = true ->
  find (fence ++ lang) (pre ++ fence ++ lang ++ (c :: body) ++ fence ++ post)
    = Some (length pre) ->
  find fence ((c :: body) ++ fence) = Some (length (c :: body)) ->
  extract_code_block (pre ++ fence ++ lang ++ (c :: body) ++ fence ++ post) (Some lang)
    = strip (c :: body)
  /\ exists t, strip (c :: body) = c :: t.
Proof.
  intros Hl Hc Hfirst Hbody. split.
  - by apply extract_code_block_first_tagged.
  - by apply strip_cons_word, tagchar_not_blank.
Qed.

(** *** Where the first fence is never closed *)

Lemma scan_total (k : K) sn rs g :
  is_Some (k (adv (length rs) (MState sn rs g))) ->
  exists n x, n <= length rs /\ scan k sn rs g = Some x
              /\ k (adv n (MState sn rs g)) = Some x.
Proof.
  revert sn. induction rs as [|c t IH]; intros sn [x Hx].
  - exists 0, x. rewrite adv_0 in *. cbn [scan]. rewrite Hx. by repeat split.
  - cbn [scan]. destruct (k (MState sn (c :: t) g)) as [y|] eqn:Hy.
    + exists 0, y. rewrite adv_0. repeat split; [simpl; lia | done].
    + destruct (IH (c :: sn)) as (n & z & Hn & Hscan & Hz).
      { exists x. by rewrite <- adv_S. }
      exists (S n), z. rewrite adv_S. repeat split; [simpl; lia | done | done].
Qed.

Lemma closer_alt_group st x :
  m (Group 2 (Alt (lit fence) Eol)) Some st = Some x -> group 1 x = group 1 st.
Proof.
  rewrite m_group, m_alt, m_lit. unfold group.
  destruct (startswith fence (rest st)); cbn [orelse m].
  - intros [= <-]. cbn [groups set_group adv]. by rewrite lookup_insert_ne.
  - destruct (rest st) as [|c [|c' t]]; [| |done].
    + intros [= <-]. cbn [groups set_group]. by rewrite lookup_insert_ne.
    + destruct (c =? 10)%N; [|done].
      intros [= <-]. cbn [groups set_group]. by rewrite lookup_insert_ne.
Qed.

Lemma closer_alt_end st :
  rest st = [] -> is_Some (m (Group 2 (Alt (lit fence) Eol)) Some st).
Proof.
  intros H. rewrite m_group, m_alt, m_lit. cbn [m]. rewrite H.
  change (startswith fence []) with false. by eexists.
Qed.

(** With [(```|$)] the lazy group always ends, at the latest at the end of
    the text, and holds a prefix of what is ahead. *)
Lemma lazy_body_total s :
  exists x n,
    m (Group 1 (Star false any)) (m (Group 2 (Alt (lit fence) Eol)) Some) s = Some x
    /\ group 1 x = take n (rest s).
Proof.
  destruct s as [sn rs g]. rewrite m_group, m_star_lazy_any. cbn [seen rest groups].
  destruct (scan_total
              (fun s' => m (Group 2 (Alt (lit fence) Eol)) Some
                           (set_group 1 (MState sn rs g) s')) sn rs g)
    as (n & x & Hn & Hscan & Hx).
  { apply closer_alt_end. rewrite rest_set_group, rest_adv. cbn [rest].
    by rewrite drop_all. }
  exists x, n. split; [done|].
  rewrite (closer_alt_group _ _ Hx). unfold group, set_group. cbn [groups].
  rewrite lookup_insert_eq. cbn [default from_option id]. rewrite rest_adv. cbn [rest].
  rewrite length_drop. by replace (length rs - (length rs - n)) with n by lia.
Qed.

Lemma pattern_any_total s r1 :
  rest s = fence ++ r1 ->
  exists x n a,
    m pattern_any Some s = Some x /\ group 1 x = take n (drop a r1).
Proof.
  intros Hrest. unfold pattern_any.
  rewrite m_seq, m_lit, Hrest, startswith_app, m_seq.
  set (s1 := adv (length fence) s).
  set (s2 := adv (span_len tagchar (rest s1)) s1).
  set (s3 := adv (span_len isspace (rest s2)) s2).
  destruct (lazy_body_total s3) as (x & n & Hx & Hg).
  exists x, n, (span_len tagchar (rest s1) + span_len isspace (rest s2)).
  split.
  - apply m_star_greedy_chr. rewrite m_seq. apply m_star_greedy_chr.
    rewrite m_seq. exact Hx.
  - rewrite Hg. unfold s3, s2. rewrite !rest_adv, drop_drop.
    unfold s1. by rewrite rest_adv, Hrest, drop_app_length.
Qed.

Lemma search_any_unclosed text i :
  find fence text = Some i ->
  exists x n a,
    search pattern_any text = Some x /\ group 1 x = take n (drop a (drop (i + 3) text)).
Proof.
  intros Hi. destruct (find_Some _ _ _ Hi) as (Hpre & Hat & Hle).
  assert (drop i text = fence ++ drop (i + 3) text) as Hsplit.
  { rewrite (startswith_eq _ _ Hat) at 1. by rewrite fence_length, drop_drop. }
  destruct (pattern_any_total (MState (rev (take i text)) (fence ++ drop (i + 3) text) ∅)
              (drop (i + 3) text) eq_refl) as (x & n & a & Hx & Hg).
  exists x, n, a. split; [|done].
  rewrite <- (take_drop i text) at 1. rewrite Hsplit.
  unfold pattern_any in *. rewrite untagged_miss; [by apply search_at_here|].
  intros j Hj. rewrite <- Hsplit, take_drop. apply Hpre.
  rewrite length_take in Hj. lia.
Qed.

(** Pieces of a text without a fence have none. *)
Lemma nofence_drop (l : str) a :
  (forall j, startswith fence (drop j l) = false) ->
  forall j, startswith fence (drop j (drop a l)) = false.
Proof. intros H j. by rewrite drop_drop. Qed.

Lemma startswith_take (q l : str) n :
  startswith q (take n l) = true -> startswith q l = true.
Proof.
  revert l n. induction q as [|c q IH]; intros l n H; [done|].
  destruct l as [|x l], n as [|n]; try done. cbn [take startswith] in *.
  apply andb_true_iff in H as [-> H]. by apply IH in H.
Qed.

Lemma nofence_take (l : str) b :
  (forall j, startswith fence (drop j l) = false) ->
  forall j, startswith fence (drop j (take b l)) = false.
Proof.
  intros H j. destruct (startswith fence (drop j (take b l))) eqn:E; [|done].
  rewrite skipn_firstn_comm in E. apply startswith_take in E. by rewrite H in E.
Qed.

Lemma rstrip_take (l : str) : exists n, rstrip l = take n l.
Proof.
  unfold rstrip. rewrite lstrip_drop.
  exists (length l - span_len isspace (rev l)).
  by rewrite skipn_rev, rev_involutive.
Qed.

Lemma nofence_strip (l : str) :
  (forall j, startswith fence (drop j l) = false) ->
  forall j, startswith fence (drop j (strip l)) = false.
Proof.
  intros H. unfold strip. destruct (rstrip_take (lstrip l)) as [n ->].
  apply nofence_take. rewrite lstrip_drop. by apply nofence_drop.
Qed.

(** Trimming keeps a fence. *)
Lemma lstrip_keeps (a b : str) : exists a', lstrip (a ++ fence ++ b) = a' ++ fence ++ b.
Proof.
  induction a as [|c a [a' IH]]; [by exists []|].
  cbn [app lstrip]. destruct (isspace c); [by exists a' | by exists (c :: a)].
Qed.

Lemma strip_keeps (a b : str) : exists a' b', strip (a ++ fence ++ b) = a' ++ fence ++ b'.
Proof.
  unfold strip, rstrip. destruct (lstrip_keeps a b) as [a' ->].
  rewrite !rev_app_distr, <- app_assoc. change (rev fence) with fence.
  destruct (lstrip_keeps (rev b) (rev a')) as [b' ->].
  exists a', (rev b'). by rewrite !rev_app_distr, rev_involutive, <- app_assoc.
Qed.

Lemma differ_unclosed text i :
  find fence text = Some i ->
  find fence (drop (i + 3) text) = None ->
  extract_code_block text None <> extract_block text.
Proof.
  intros Hi Hnone.
  destruct (search_any_unclosed text i Hi) as (x & n & a & Hx & Hg).
  unfold extract_code_block, extract_block.
  rewrite Hx, (search_block_unclosed text i Hi Hnone), Hg.
  destruct (find_Some _ _ _ Hi) as (_ & Hat & _).
  rewrite <- (take_drop i text) at 2. rewrite (startswith_eq _ _ Hat).
  destruct (strip_keeps (take i text) (drop (length fence) (drop i text)))
    as (a' & b' & ->).
  intros E. apply (f_equal (fun l => startswith fence (drop (length a') l))) in E.
  rewrite drop_app_length, startswith_app in E.
  rewrite nofence_strip in E; [done|].
  apply nofence_take, nofence_drop. by apply find_None.
Qed.

(** With [(```|$)] the pattern with a language matches wherever a fence
    followed by the language starts. *)
Lemma pattern_lang_total lang s r1 :
  rest s = fence ++ lang ++ r1 ->
  exists x n a,
    m (pattern_lang lang) Some s = Some x /\ group 1 x = take n (drop a r1).
Proof.
  intros Hrest. unfold pattern_lang.
  rewrite m_seq, m_lit, Hrest, startswith_app.
  rewrite m_seq, m_lit, rest_adv, Hrest.
  rewrite drop_app_length, startswith_app, m_seq.
  set (s1 := adv (length lang) (adv (length fence) s)).
  set (s3 := adv (span_len isspace (rest s1)) s1).
  destruct (lazy_body_total s3) as (x & n & Hx & Hg).
  exists x, n, (span_len isspace (rest s1)). split.
  - apply m_star_greedy_chr. rewrite m_seq. exact Hx.
  - rewrite Hg. unfold s3. rewrite rest_adv. f_equal. f_equal.
    unfold s1. by rewrite !rest_adv, Hrest, !drop_app_length.
Qed.

Lemma search_lang_found lang text j :
  find (fence ++ lang) text = Some j ->
  exists x n a,
    search (pattern_lang lang) text = Some x
    /\ group 1 x = take n (drop a (drop (j + 3) text)).
Proof.
  intros Hj. destruct (find_Some _ _ _ Hj) as (Hpre & Hat & Hle).
  assert (drop j text = fence ++ lang ++ drop (length (fence ++ lang)) (drop j text))
    as Hsplit.
  { rewrite (startswith_eq _ _ Hat) at 1. by rewrite <- app_assoc. }
  destruct (pattern_lang_total lang
              (MState (rev (take j text)) (drop j text) ∅)
              (drop (length (fence ++ lang)) (drop j text)) Hsplit)
    as (x & n & a & Hx & Hg).
  exists x, n, (a + length lang). split.
  - rewrite <- (take_drop j text) at 1. unfold search.
    rewrite search_at_skip.
    + rewrite app_nil_r. by apply search_at_here.
    + intros i Hi. apply pattern_lang_miss. cbn [rest].
      rewrite length_take in Hi. rewrite <- drop_app_le by (rewrite length_take; lia).
      rewrite take_drop. apply Hpre. lia.
  - rewrite Hg, !drop_drop, length_app, fence_length. f_equal. f_equal. lia.
Qed.

(** Where no second fence follows the first, what [extract_code_block]
    returns once its pattern matched holds no fence, and the trimmed text
    holds one. *)
Lemma no_fence_after text i n a :
  find fence text = Some i ->
  find fence (drop (i + 3) text) = None ->
  strip (take n (drop a (drop (i + 3) text))) <> strip text.
Proof.
  intros Hi Hnone. destruct (find_Some _ _ _ Hi) as (_ & Hat & _).
  rewrite <- (take_drop i text) at 2. rewrite (startswith_eq _ _ Hat).
  destruct (strip_keeps (take i text) (drop (length fence) (drop i text)))
    as (a' & b' & ->).
  intros E. apply (f_equal (fun l => startswith fence (drop (length a') l))) in E.
  rewrite drop_app_length, startswith_app in E.
  rewrite nofence_strip in E; [done|].
  apply nofence_take, nofence_drop. by apply find_None.
Qed.

Lemma find_prefix (p q text : str) j :
  find (p ++ q) text = Some j -> exists i, find p text = Some i /\ i <= j.
Proof.
  revert j. induction text as [|c t IH]; intros j H.
  - cbn [find] in *. destruct (startswith (p ++ q) []) eqn:E; [|done].
    injection H as <-. rewrite startswith_split in E.
    apply andb_true_iff in E as [-> _]. by exists 0.
  - cbn [find] in *. destruct (startswith p (c :: t)) eqn:Ep; [exists 0; split; [done|lia]|].
    rewrite startswith_split, Ep in H. cbn [andb] in H.
    destruct (find (p ++ q) t) as [j'|] eqn:F; [|done]. injection H as <-.
    destruct (IH j' eq_refl) as (i & -> & Hi). exists (S i). split; [done|lia].
Qed.

(** C5, as amended.  On a text that holds no fenced block, that is no
    fence or a first fence that no other fence follows, [extract_block]
    returns the whole text trimmed; [extract_code_block] without a language
    does so exactly when the text holds no fence at all, and with a
    language exactly when no fence followed by the language occurs. *)
Theorem fallback_exactly_without_fence text :
  has_closed_block text = false ->
  extract_block text = strip text
  /\ (extract_code_block text None = strip text <-> find fence text = None)
  /\ (forall lang, 0 < length lang ->
        (extract_code_block text (Some lang) = strip text
         <-> find (fence ++ lang) text = None)).
Proof.
  intros Hno. pose proof (fallback_block_unclosed text Hno) as Hb.
  split; [done|]. split; [split|].
  - intros E. destruct (find fence text) as [i|] eqn:Hi; [exfalso|done].
    unfold has_closed_block in Hno. rewrite Hi in Hno.
    apply bool_decide_eq_false in Hno.
    destruct (find fence (drop (i + 3) text)) eqn:Hj; [by destruct Hno; eexists|].
    apply (differ_unclosed text i Hi Hj). by rewrite Hb.
  - by apply fallback_code_block.
  - intros lang Hl. split; [|by apply fallback_other_language].
    intros E. destruct (find (fence ++ lang) text) as [j|] eqn:Hj; [exfalso|done].
    destruct (find_prefix _ _ _ _ Hj) as (i & Hi & Hij).
    unfold has_closed_block in Hno. rewrite Hi in Hno.
    apply bool_decide_eq_false in Hno.
    destruct (find fence (drop (i + 3) text)) eqn:Hc; [by destruct Hno; eexists|].
    destruct (search_lang_found lang text j Hj) as (x & n & a & Hx & Hg).
    revert E. unfold extract_code_block.
    destruct lang as [|c l]; [simpl in Hl; lia|].
    rewrite Hx, Hg.
    replace (drop a (drop (j + 3) text))
      with (drop (a + (j - i)) (drop (i + 3) text))
      by (rewrite !drop_drop; f_equal; lia).
    by apply no_fence_after.
Qed.

(** C6, as amended.  [extract_code_block] without a language and
    [extract_block] return the same string exactly on the texts that have
    no fence or whose first fence is followed by a second one. *)
Theorem extractors_agree_iff_closed text :
  first_fence_closed text = true <->
  extract_code_block text None = extract_block text.
Proof.
  unfold first_fence_closed, has_closed_block.
  destruct (find fence text) as [i|] eqn:Hi.
  - split.
    + intros [j Hj]%bool_decide_eq_true.
      destruct (search_untagged (Group 2 (Alt (lit fence) Eol)) text i j
                  closer_alt_miss closer_alt_hit Hi Hj) as (x & b1 & Hx & Hg1 & ->).
      destruct (search_untagged (lit fence) text i j
                  closer_fence_miss closer_fence_hit Hi Hj) as (y & b2 & Hy & Hg2 & ->).
      unfold extract_code_block, extract_block, pattern_any, pattern_block.
      by rewrite Hx, Hy, Hg1, Hg2.
    + intros E. apply bool_decide_eq_true.
      destruct (find fence (drop (i + 3) text)) eqn:Hj; [by eexists|].
      by destruct (differ_unclosed text i Hi Hj).
  - split; [|done]. intros _. by rewrite fallback_code_block, fallback_block.
Qed.

End Extraction.

(** ** The question validator and sanitizer *)

Section Question.

Implicit Types (k : K) (s : mstate) (q raw : str).

Lemma m_chr_cons p k sn c t g :
  m (Chr p) k (MState sn (c :: t) g)
  = if p c then k (MState (c :: sn) t g) else None.
Proof. reflexivity. Qed.

Lemma m_chr_nil p k sn g : m (Chr p) k (MState sn [] g) = None.
Proof. reflexivity. Qed.

(** Greedy [c*] only ever hands the continuation a split of the run. *)
Lemma star_greedy_chr_some p k fuel s x :
  star_loop true (m (Chr p)) k fuel s = Some x ->
  exists j, j <= span_len p (rest s) /\ k (adv j s) = Some x.
Proof.
  revert s. induction fuel as [|f IH]; intros [sn rs g] H.
  - exists 0. rewrite adv_0. split; [lia | done].
  - cbn [star_loop] in H.
    assert (orelse None (k (MState sn rs g)) = Some x ->
            exists j, j <= span_len p rs /\ k (adv j (MState sn rs g)) = Some x) as H0.
    { intros H'. exists 0. rewrite adv_0. split; [lia | done]. }
    destruct rs as [|c t]; [by apply H0|].
    rewrite m_chr_cons in H. cbn [rest span_len] in *.
    destruct (p c) eqn:Hp; [|by apply H0].
    destruct (length t <? length (c :: t)); [|by apply H0].
    destruct (star_loop true (m (Chr p)) k f (MState (c :: sn) t g)) eqn:E;
      [|by apply H0].
    cbn [orelse] in H. injection H as ->. destruct (IH _ E) as (j & Hj & Hk).
    exists (S j). rewrite adv_S. split; [cbn [rest] in Hj; lia | done].
Qed.

Lemma span_prefix (p : N -> bool) (l : str) j :
  j <= span_len p l -> forallb p (take j l) = true.
Proof.
  revert j. induction l as [|c l IH]; intros j Hj; simpl in Hj.
  - by rewrite take_nil.
  - destruct j as [|j]; [done|]. simpl.
    destruct (p c); [|lia]. simpl. apply IH. lia.
Qed.

Lemma eol_some s x : m Eol Some s = Some x -> rest s = [] \/ rest s = [10%N].
Proof.
  simpl. destruct (rest s) as [|c [|c' t]]; [by left | | done].
  destruct (N.eqb_spec c 10) as [->|]; [by right | done].
Qed.

Lemma safe_match_unfold c t :
  match_ SAFE_QUESTION_REGEX (c :: t)
  = if safe_char c
    then star_loop true (m (Chr safe_char)) (m Eol Some) (S (length t))
                   (MState [c] t ∅)
    else None.
Proof. reflexivity. Qed.

(** A question that matches SAFE_QUESTION_REGEX is made of safe characters. *)
Lemma safe_match_chars q x :
  match_ SAFE_QUESTION_REGEX q = Some x -> forallb safe_char q = true.
Proof.
  destruct q as [|c t]; [done|]. rewrite safe_match_unfold.
  destruct (safe_char c) eqn:Hc; [|done].
  intros H. apply star_greedy_chr_some in H as (j & Hj & Hk).
  apply eol_some in Hk. rewrite rest_adv in Hk. cbn [rest] in *.
  cbn [forallb]. rewrite Hc. cbn [andb].
  rewrite <- (take_drop j t), forallb_app, (span_prefix _ _ _ Hj).
  destruct Hk as [-> | ->]; reflexivity.
Qed.

(** A single character matches it exactly when it is a safe character. *)
Lemma safe_match_one c :
  is_Some (match_ SAFE_QUESTION_REGEX [c]) <-> safe_char c = true.
Proof.
  rewrite safe_match_unfold.
  destruct (safe_char c); cbn [star_loop length m rest orelse].
  - split; [done | by eexists].
  - split; [by intros [? ?] | done].
Qed.

Lemma sanitize_safe q : forallb safe_char q = true -> sanitize_question q = q.
Proof.
  unfold sanitize_question. induction q as [|c q IH]; intros H; [done|].
  cbn [forallb] in H. apply andb_true_iff in H as [Hc Hq].
  rewrite filter_cons_True by (by apply safe_match_one).
  by rewrite IH.
Qed.

Lemma parse_question_accepts raw q :
  parse_QuestionRequest (Some raw) = inr q ->
  q = trim raw /\ 1 <= length q <= 300 /\ forallb safe_char q = true.
Proof.
  unfold parse_QuestionRequest, validate_question.
  destruct (length (trim raw) <? 1) eqn:H1; [done|].
  destruct (300 <? length (trim raw)) eqn:H2; [done|].
  destruct (match_ SAFE_QUESTION_REGEX (trim raw)) as [x|] eqn:Hm; [|done].
  intros [= <-]. apply Nat.ltb_ge in H1, H2.
  split; [done|]. split; [lia|]. by apply safe_match_chars in Hm.
Qed.

Lemma recommend_returns q mbr_id c :
  recommend q mbr_id = Return c ->
  c = CRecommend mbr_id (sanitize_question q)
        (json_dumps_question (sanitize_question q))
        (dummy_answer mbr_id (sanitize_question q)).
Proof.
  unfold recommend. destruct (detect_dangerous_pattern q); [|done|done].
  by intros [= <-].
Qed.

Lemma get_current_user_raises header status d :
  get_current_user header = RaiseHTTP status d -> status = 401%Z.
Proof.
  unfold get_current_user.
  destruct (negb (startswith (py "Bearer ") header)); [by intros [= <- _]|].
  destruct (split_space [] header !! 1) as [part|]; [|done].
  destruct (jwt_decode (strip part)) as [[[|c t]|]| |]; by intros [= <- _].
Qed.

Lemma detect_in_raises patterns q status d :
  detect_in patterns q = RaiseHTTP status d -> status = 400%Z.
Proof.
  induction patterns as [|p ps IH]; simpl; [done|].
  destruct (search p q); [by intros [= <- _] | done].
Qed.

Lemma recommend_raises q mbr_id status d :
  recommend q mbr_id = RaiseHTTP status d -> status = 400%Z.
Proof.
  unfold recommend, detect_dangerous_pattern.
  destruct (detect_in DANGEROUS_PATTERNS q) eqn:E; [done | | done].
  intros [= <- _]. by apply detect_in_raises in E.
Qed.

(** C10. A question that [QuestionRequest] accepts is its input trimmed
    as pydantic trims it, of 1 to 300 characters, all of them safe; [sanitize_question] returns it
    unchanged; and a 200 response of POST /recommend carries it, unchanged,
    as its [question]. *)
Theorem validated_question_echoed raw q :
  parse_QuestionRequest (Some raw) = inr q ->
  (q = trim raw /\ 1 <= length q <= 300 /\ forallb safe_char q = true)
  /\ sanitize_question q = q
  /\ (forall header c,
        post_recommend (mkRequest header (Some raw)) = Response 200 c ->
        exists mbr_id w a, c = CRecommend mbr_id q w a).
Proof.
  intros Hparse. pose proof (parse_question_accepts _ _ Hparse) as (Hq & Hlen & Hsafe).
  split; [done|]. split; [by apply sanitize_safe|].
  intros header c. unfold post_recommend. cbn [authorization question].
  destruct header as [h|]; [|done].
  destruct (get_current_user h) as [mbr_id|st d|e] eqn:Hu.
  - rewrite Hparse. unfold answer_of.
    destruct (recommend q mbr_id) as [c'|st d|e] eqn:Hr.
    + intros [= <-]. apply recommend_returns in Hr as ->.
      rewrite sanitize_safe by done. by eexists _, _, _.
    + apply recommend_raises in Hr as ->. done.
    + done.
  - apply get_current_user_raises in Hu as ->. done.
  - done.
Qed.

End Question.

(** ** The file system and the generators *)

Section FileSystem.

Implicit Types (w : world) (p d : path) (ps : list path).

Lemma pair_fst {A B} (x : A * B) (a : A) : x.1 = a -> x = (a, x.2).
Proof. destruct x. by intros <-. Qed.

Lemma lookup_node_div w p name : lookup_node w (p // name) = w !! (p // name).
Proof. unfold path_div. by destruct p. Qed.

Lemma removelast_div p name : removelast (p // name) = p.
Proof. unfold path_div. apply removelast_last. Qed.

Lemma ancestors_div p name : ancestors (p // name) = ancestors p ++ [p // name].
Proof.
  unfold ancestors, path_div. rewrite length_app. simpl.
  rewrite Nat.add_1_r, seq_S, fmap_app. simpl. f_equal.
  - apply list_fmap_ext. intros i n Hn.
    apply lookup_seq in Hn as [-> Hi]. simpl in *.
    by rewrite take_app_le by lia.
  - by rewrite firstn_all2 by (rewrite length_app; simpl; lia).
Qed.

Lemma ancestors_length p d : d ∈ ancestors p -> 1 <= length d <= length p.
Proof.
  unfold ancestors. intros H. apply list_elem_of_fmap in H as (n & -> & Hn).
  apply elem_of_seq in Hn. rewrite length_take. lia.
Qed.

Lemma lookup_node_ancestor w p d : d ∈ ancestors p -> lookup_node w d = w !! d.
Proof. intros H. apply ancestors_length in H. by destruct d; [simpl in H; lia|]. Qed.

Lemma self_ancestor p name : p // name ∈ ancestors (p // name).
Proof. rewrite ancestors_div. apply elem_of_app. right. apply list_elem_of_here. Qed.

Lemma file_not_ancestor p name : p // name ∉ ancestors p.
Proof.
  intros H. apply ancestors_length in H. unfold path_div in H.
  rewrite length_app in H. simpl in H. lia.
Qed.

Lemma with_dirs_lookup ps w p :
  with_dirs ps w !! p = if decide (p ∈ ps) then Some Dir else w !! p.
Proof.
  unfold with_dirs. revert w. induction ps as [|d ps IH]; intros w.
  - destruct (decide (p ∈ [])) as [H|_]; [by apply not_elem_of_nil in H | done].
  - cbn [foldl]. rewrite IH.
    destruct (decide (p ∈ ps)) as [Hin|Hnin], (decide (p ∈ d :: ps)) as [Hin'|Hnin'].
    + done.
    + exfalso. apply Hnin'. by apply list_elem_of_further.
    + apply elem_of_cons in Hin' as [->|?]; [|done]. by rewrite lookup_insert_eq.
    + rewrite lookup_insert_ne; [done|]. intros ->. apply Hnin', list_elem_of_here.
Qed.

Lemma with_dirs_id ps w : (forall d, d ∈ ps -> w !! d = Some Dir) -> with_dirs ps w = w.
Proof.
  intros H. apply map_eq. intros p. rewrite with_dirs_lookup.
  destruct (decide (p ∈ ps)); [symmetry; by apply H | done].
Qed.

Lemma dirs_free_spec ps w :
  dirs_free ps w = true <-> forall d c, d ∈ ps -> w !! d <> Some (File c).
Proof.
  unfold dirs_free. rewrite forallb_forall. split.
  - intros H d c Hd E. apply list_elem_of_In in Hd. specialize (H d Hd).
    by rewrite E in H.
  - intros H d Hd. apply list_elem_of_In in Hd.
    destruct (w !! d) as [[c|]|] eqn:E; [|done|done].
    by destruct (H d c Hd).
Qed.

Lemma make_dirs_ok ps w :
  (forall d, d ∈ ps -> d <> []) ->
  dirs_free ps w = true -> make_dirs ps w = (Ok tt, with_dirs ps w).
Proof.
  rewrite dirs_free_spec. unfold with_dirs. revert w. induction ps as [|d ps IH]; intros w Hne Hfree; [done|].
  simpl. assert (lookup_node w d = w !! d) as ->.
  { destruct d; [|done]. exfalso. apply (Hne []); [apply list_elem_of_here | done]. }
  destruct (w !! d) as [[c|]|] eqn:E.
  - exfalso. eapply Hfree; [apply list_elem_of_here | done].
  - apply IH.
    + intros d' Hd'. apply Hne. by apply list_elem_of_further.
    + intros d' c Hd'. destruct (decide (d' = d)) as [->|Hn].
      * by rewrite lookup_insert_eq.
      * rewrite lookup_insert_ne by done. apply Hfree. by apply list_elem_of_further.
  - apply IH.
    + intros d' Hd'. apply Hne. by apply list_elem_of_further.
    + intros d' c Hd'. destruct (decide (d' = d)) as [->|Hn].
      * by rewrite lookup_insert_eq.
      * rewrite lookup_insert_ne by done. apply Hfree. by apply list_elem_of_further.
Qed.

Lemma make_dirs_inv ps w u w' :
  (forall d, d ∈ ps -> d <> []) ->
  make_dirs ps w = (Ok u, w') -> dirs_free ps w = true /\ w' = with_dirs ps w.
Proof.
  rewrite dirs_free_spec. unfold with_dirs. revert w. induction ps as [|d ps IH]; intros w Hne H.
  - simpl in H. injection H as _ <-. split; [|done].
    intros d c Hd. by apply not_elem_of_nil in Hd.
  - simpl in H. assert (lookup_node w d = w !! d) as Hl.
    { destruct d; [|done]. exfalso. apply (Hne []); [apply list_elem_of_here | done]. }
    rewrite Hl in H.
    assert (make_dirs ps (<[d:=Dir]> w) = (Ok u, w')
            /\ forall c, w !! d <> Some (File c)) as [H' Hd].
    { destruct (w !! d) as [[c|]|]; [done | by split | by split]. }
    apply IH in H' as [Hfree ->];
      [|intros d' Hd'; apply Hne; by apply list_elem_of_further].
    split; [|done]. intros d' c Hd'.
    apply elem_of_cons in Hd' as [->|Hd']; [apply Hd|].
    destruct (decide (d' = d)) as [->|Hn]; [apply Hd|].
    specialize (Hfree d' c Hd'). by rewrite lookup_insert_ne in Hfree.
Qed.

Lemma ancestors_not_root p d : d ∈ ancestors p -> d <> [].
Proof. intros H ->. apply ancestors_length in H. simpl in H. lia. Qed.

Lemma mkdir_parents_ok p w :
  dirs_free (ancestors p) w = true ->
  mkdir_parents p w = (Ok tt, with_dirs (ancestors p) w).
Proof. intros H. apply make_dirs_ok; [apply ancestors_not_root | done]. Qed.

Lemma mkdir_parents_inv p w u w' :
  mkdir_parents p w = (Ok u, w') ->
  dirs_free (ancestors p) w = true /\ w' = with_dirs (ancestors p) w.
Proof. apply make_dirs_inv, ancestors_not_root. Qed.

End FileSystem.

(** ** Reading, rendering and writing *)

Section Generators.

Implicit Types (w : world) (p dir : path).

Lemma readonly_ret {A} (a : A) : readonly (ret a).
Proof. by intros w. Qed.

Lemma readonly_raise {A} e : readonly (@raise A e).
Proof. by intros w. Qed.

Lemma readonly_lift {A} (r : result A) : readonly (lift r).
Proof. by intros w. Qed.

Lemma readonly_path_exists p : readonly (path_exists p).
Proof. by intros w. Qed.

Lemma readonly_read_text p : readonly (read_text p).
Proof. intros w. unfold read_text. by destruct (lookup_node w p) as [[c|]|]. Qed.

Lemma readonly_bind {A B} (c : M A) (f : A -> M B) :
  readonly c -> (forall a, readonly (f a)) -> readonly (bind c f).
Proof.
  intros Hc Hf w. unfold bind. specialize (Hc w).
  destruct (c w) as [[a|e] w']; simpl in Hc; subst w'; [apply Hf | done].
Qed.

Lemma readonly_if {A} (b : bool) (c1 c2 : M A) :
  readonly c1 -> readonly c2 -> readonly (if b then c1 else c2).
Proof. by destruct b. Qed.

Lemma readonly_run {A} (c : M A) w : readonly c -> c w = ((c w).1, w).
Proof. intros H. specialize (H w). by destruct (c w) as [r w']; simpl in *; subst. Qed.

Ltac readonly_tac :=
  repeat first
    [ apply readonly_ret | apply readonly_raise | apply readonly_lift
    | apply readonly_path_exists | apply readonly_read_text
    | apply readonly_if
    | apply readonly_bind; [|intros ?] ].

Lemma readonly_load_json_str p : readonly (load_json_str p).
Proof. unfold load_json_str. readonly_tac. Qed.

Lemma readonly_load_cfg load cfg key :
  (forall p, readonly (load p)) -> readonly (load_cfg load cfg key).
Proof. intros H. unfold load_cfg. readonly_tac; try apply H. Qed.

Lemma readonly_load_yaml cfg key : readonly (load_cfg load_yaml_str cfg key).
Proof. apply readonly_load_cfg, readonly_read_text. Qed.

Lemma readonly_load_json cfg key : readonly (load_cfg load_json_str cfg key).
Proof. apply readonly_load_cfg, readonly_load_json_str. Qed.

Lemma readonly_load_prompt cfg mode : readonly (load_prompt cfg mode).
Proof.
  unfold load_prompt. readonly_tac; try apply readonly_load_cfg, readonly_read_text.
Qed.

Lemma readonly_load_design cfg key : readonly (load_design cfg key).
Proof. unfold load_design. readonly_tac; try apply readonly_load_json. Qed.

Ltac prompt_tac :=
  repeat first
    [ apply readonly_load_prompt | apply readonly_load_yaml
    | apply readonly_load_json | apply readonly_load_design
    | apply readonly_lift
    | apply readonly_bind; [|intros ?] ].

Lemma readonly_api_prompt fid cfg : readonly (api_prompt fid cfg).
Proof. unfold api_prompt. prompt_tac. Qed.

Lemma readonly_ui_prompt fid cfg : readonly (ui_prompt fid cfg).
Proof. unfold ui_prompt. prompt_tac. Qed.

Lemma readonly_test_prompt fid cfg : readonly (test_prompt fid cfg).
Proof. unfold test_prompt. prompt_tac. Qed.

Lemma readonly_db_prompt fid cfg : readonly (db_prompt fid cfg).
Proof. unfold db_prompt. prompt_tac. Qed.

Lemma readonly_load_ssot_index : readonly load_ssot_index.
Proof. unfold load_ssot_index. readonly_tac. Qed.

Lemma readonly_get_feature_config fid : readonly (get_feature_config fid).
Proof.
  unfold get_feature_config. readonly_tac; try apply readonly_load_ssot_index.
Qed.

Lemma self_in_ancestors p : p <> [] -> p ∈ ancestors p.
Proof.
  intros H. destruct (exists_last H) as (p' & name & ->).
  apply (self_ancestor p' name).
Qed.

Lemma lookup_dir_made dir w : lookup_node (with_dirs (ancestors dir) w) dir = Some Dir.
Proof.
  destruct dir as [|a dir']; [done|]. cbn [lookup_node].
  rewrite with_dirs_lookup. by rewrite decide_True by (by apply self_in_ancestors).
Qed.

Lemma lookup_file_kept dir name w :
  with_dirs (ancestors dir) w !! (dir // name) = w !! (dir // name).
Proof.
  rewrite with_dirs_lookup. by rewrite decide_False by apply file_not_ancestor.
Qed.

(** Make the directory, write the file. *)
Lemma save_ok dir name content w :
  can_write dir name w = true ->
  bind (mkdir_parents dir) (fun _ => write_text (dir // name) content) w
  = (Ok tt, <[dir // name := File content]> (with_dirs (ancestors dir) w)).
Proof.
  intros [Hfree Hout]%andb_true_iff. unfold bind. rewrite mkdir_parents_ok by done.
  unfold write_text. rewrite removelast_div, lookup_dir_made, lookup_node_div.
  rewrite lookup_file_kept. by destruct (w !! (dir // name)) as [[c|]|].
Qed.

Lemma save_inv dir name content w w1 :
  bind (mkdir_parents dir) (fun _ => write_text (dir // name) content) w = (Ok tt, w1) ->
  can_write dir name w = true
  /\ w1 = <[dir // name := File content]> (with_dirs (ancestors dir) w).
Proof.
  unfold bind. destruct (mkdir_parents dir w) as [[u|e] w'] eqn:E; [|done].
  apply mkdir_parents_inv in E as [Hfree ->].
  unfold write_text. rewrite removelast_div, lookup_dir_made, lookup_node_div.
  rewrite lookup_file_kept. intros H. unfold can_write. rewrite Hfree.
  destruct (w !! (dir // name)) as [[c|]|]; [| done |];
    injection H as <-; by repeat split.
Qed.

(** Saving the same content again changes nothing. *)
Lemma save_again dir name content w w1 :
  bind (mkdir_parents dir) (fun _ => write_text (dir // name) content) w = (Ok tt, w1) ->
  bind (mkdir_parents dir) (fun _ => write_text (dir // name) content) w1 = (Ok tt, w1)
  /\ w1 !! (dir // name) = Some (File content).
Proof.
  intros H. apply save_inv in H as [_ ->].
  set (w1 := <[dir // name := File content]> (with_dirs (ancestors dir) w)).
  assert (forall d, d ∈ ancestors dir -> w1 !! d = Some Dir) as Hdirs.
  { intros d Hd. unfold w1. rewrite lookup_insert_ne.
    - rewrite with_dirs_lookup. by rewrite decide_True.
    - intros <-. by apply file_not_ancestor in Hd. }
  assert (w1 !! (dir // name) = Some (File content)) as Hfile.
  { unfold w1. by rewrite lookup_insert_eq. }
  split; [|done]. rewrite save_ok.
  - f_equal. rewrite (with_dirs_id _ w1) by done. by apply insert_id.
  - unfold can_write. rewrite Hfile, andb_true_r.
    apply dirs_free_spec. intros d c Hd. by rewrite (Hdirs d Hd).
Qed.

Lemma emit_unfold client prompt language dir name w :
  emit client prompt language dir name w
  = match client default_system prompt with
    | Ok raw =>
        bind (mkdir_parents dir)
             (fun _ => write_text (dir // name)
                         (extract_code_block raw (Some (py language)))) w
    | Err e => (Err e, w)
    end.
Proof.
  unfold emit, call_llm, lift, ensure_dir, bind at 1.
  by destruct (client default_system prompt).
Qed.

(** A generator: render the prompt, then emit. *)
Lemma generate_writes (pc : M str) client language dir name w prompt raw :
  readonly pc ->
  (pc w).1 = Ok prompt ->
  client default_system prompt = Ok raw ->
  can_write dir name w = true ->
  written (bind pc (fun prompt => emit client prompt language dir name)) w
          (dir // name) (extract_code_block raw (Some (py language))).
Proof.
  intros Hro Hp Hraw Hcan. unfold written, bind at 1.
  rewrite (readonly_run pc w Hro), Hp, emit_unfold, Hraw, save_ok by done.
  eexists. split; [done|]. by rewrite lookup_insert_eq.
Qed.

Lemma generate_again (pc : M str) client1 client2 language dir name w w1 :
  readonly pc ->
  bind pc (fun prompt => emit client1 prompt language dir name) w = (Ok tt, w1) ->
  (pc w1).1 = (pc w).1 ->
  (forall prompt, (pc w).1 = Ok prompt ->
     client2 default_system prompt = client1 default_system prompt) ->
  bind pc (fun prompt => emit client2 prompt language dir name) w1 = (Ok tt, w1)
  /\ exists content, w1 !! (dir // name) = Some (File content).
Proof.
  intros Hro H Hsame Hclient. unfold bind at 1 in H. unfold bind at 1.
  rewrite (readonly_run pc w Hro) in H.
  rewrite (readonly_run pc w1 Hro), Hsame.
  destruct ((pc w).1) as [prompt|e] eqn:Hp; [|done].
  rewrite emit_unfold in *. rewrite (Hclient prompt eq_refl).
  destruct (client1 default_system prompt) as [raw|e]; [|done].
  apply save_again in H as [H1 H2]. split; [done | by eexists].
Qed.

Lemma load_ssot_index_ok w text :
  w !! SSOT_INDEX_PATH = Some (File text) ->
  load_ssot_index w = (yaml_safe_load text, w).
Proof.
  intros H. unfold load_ssot_index, path_exists, read_text, bind, lift, raise.
  unfold SSOT_INDEX_PATH in *. rewrite !lookup_node_div, !H.
  rewrite bool_decide_eq_true_2 by by eexists.
  cbn [negb]. by rewrite lookup_node_div, H.
Qed.

Lemma load_ssot_index_missing w :
  w !! SSOT_INDEX_PATH = None ->
  load_ssot_index w = (Err FileNotFoundError, w).
Proof.
  intros H. unfold load_ssot_index, path_exists, bind, raise.
  unfold SSOT_INDEX_PATH in *. rewrite !lookup_node_div, !H.
  by rewrite bool_decide_eq_false_2 by by intros [? ?].
Qed.

(** C7. When the index document is there and parses to a mapping whose
    [features] entry is a mapping without the identifier, the lookup raises
    [KeyError] and the file system is as before, also for the whole
    generation of that feature; when the index document is not there, it
    raises [FileNotFoundError]. *)
Theorem unknown_feature_or_missing_index (feature_id : string) w :
  (forall text items fitems,
     w !! SSOT_INDEX_PATH = Some (File text) ->
     yaml_safe_load text = Ok (YMap items) ->
     default (YMap []) (assoc "features" items) = YMap fitems ->
     assoc feature_id fitems = None ->
     get_feature_config feature_id w = (Err (KeyError feature_id), w)
     /\ forall client modes,
          generate_for_feature client feature_id modes w
          = (Err (KeyError feature_id), w))
  /\ (w !! SSOT_INDEX_PATH = None ->
      get_feature_config feature_id w = (Err FileNotFoundError, w)
      /\ forall client modes,
           generate_for_feature client feature_id modes w
           = (Err FileNotFoundError, w)).
Proof.
  split.
  - intros text items fitems Hfile Hload Hfeatures Hnone.
    assert (get_feature_config feature_id w = (Err (KeyError feature_id), w)) as H.
    { unfold get_feature_config, bind at 1.
      rewrite (load_ssot_index_ok w text Hfile), Hload.
      unfold bind, lift, raise. cbn [get_or_empty]. rewrite Hfeatures.
      cbn [contains]. rewrite Hnone.
      by rewrite bool_decide_eq_false_2 by by intros [? ?]. }
    split; [done|]. intros client modes.
    unfold generate_for_feature, bind at 1. by rewrite H.
  - intros Hnone.
    assert (get_feature_config feature_id w = (Err FileNotFoundError, w)) as H.
    { unfold get_feature_config, bind at 1.
      by rewrite (load_ssot_index_missing w Hnone). }
    split; [done|]. intros client modes.
    unfold generate_for_feature, bind at 1. by rewrite H.
Qed.

(** C8, as amended.  With the prompt rendered, the service answering and
    the path free to write, each generator leaves the block it extracts in
    one file, whatever was in that file before: generated/<feature>/<mode>/
    <feature>_<mode>.py for api, ui and test, and generated/<feature>/db/
    <feature>_schema.sql for db. *)
Theorem artifacts_written_at_fixed_paths client (feature_id : string) cfg w prompt raw :
  client default_system prompt = Ok raw ->
  ((api_prompt feature_id cfg w).1 = Ok prompt ->
   can_write (GENERATED_DIR // feature_id // "api") (feature_id ++ "_api.py") w = true ->
   written (generate_api client feature_id cfg) w
     (GENERATED_DIR // feature_id // "api" // (feature_id ++ "_api.py"))
     (extract_code_block raw (Some (py "python"))))
  /\ ((ui_prompt feature_id cfg w).1 = Ok prompt ->
      can_write (GENERATED_DIR // feature_id // "ui") (feature_id ++ "_ui.py") w = true ->
      written (generate_ui client feature_id cfg) w
        (GENERATED_DIR // feature_id // "ui" // (feature_id ++ "_ui.py"))
        (extract_code_block raw (Some (py "python"))))
  /\ ((test_prompt feature_id cfg w).1 = Ok prompt ->
      can_write (GENERATED_DIR // feature_id // "test") (feature_id ++ "_test.py") w = true ->
      written (generate_test client feature_id cfg) w
        (GENERATED_DIR // feature_id // "test" // (feature_id ++ "_test.py"))
        (extract_code_block raw (Some (py "python"))))
  /\ ((db_prompt feature_id cfg w).1 = Ok prompt ->
      can_write (GENERATED_DIR // feature_id // "db") (feature_id ++ "_schema.sql") w = true ->
      written (generate_db client feature_id cfg) w
        (GENERATED_DIR // feature_id // "db" // (feature_id ++ "_schema.sql"))
        (extract_code_block raw (Some (py "sql")))).
Proof.
  intros Hraw. repeat split; intros Hp Hcan.
  - by apply generate_writes with (prompt := prompt);
      [apply readonly_api_prompt | | |].
  - by apply generate_writes with (prompt := prompt);
      [apply readonly_ui_prompt | | |].
  - by apply generate_writes with (prompt := prompt);
      [apply readonly_test_prompt | | |].
  - by apply generate_writes with (prompt := prompt);
      [apply readonly_db_prompt | | |].
Qed.

Lemma save_artifact_unfold dir name data :
  save_artifact (dir // name) data
  = bind (mkdir_parents dir)
         (fun _ => write_text (dir // name)
                     match data with
                     | AYaml y => yaml_safe_dump y
                     | AJson j => json_dumps j
                     end).
Proof.
  destruct data; unfold save_artifact, save_yaml, save_json;
    by rewrite removelast_div.
Qed.

(** What [generate_artifact] returns is decided by the service's answer. *)
Lemma generate_artifact_result client1 client2 fid spec kind w w1 :
  (forall system prompt, client2 system prompt = client1 system prompt) ->
  generate_artifact client2 fid spec kind w1
  = ((generate_artifact client1 fid spec kind w).1, w1).
Proof.
  intros H. unfold generate_artifact.
  destruct (system_messages kind) as [system|]; [|done].
  unfold bind, ssot_call_llm, lift, ret. rewrite H.
  destruct (client1 _ _) as [raw|e]; [|done].
  destruct (String.eqb kind "validation").
  - by destruct (json_loads (extract_block raw)).
  - by destruct (yaml_safe_load (extract_block raw)).
Qed.

Lemma ssot_step_again client1 client2 fid spec kind name w w1 :
  ssot_step client1 fid spec kind name w = (Ok tt, w1) ->
  (forall system prompt, client2 system prompt = client1 system prompt) ->
  ssot_step client2 fid spec kind name w1 = (Ok tt, w1)
  /\ exists content, w1 !! (AUTO_FEATURES_DIR // fid // name) = Some (File content).
Proof.
  intros H Hclient. unfold ssot_step, bind at 1 in H. unfold ssot_step, bind at 1.
  rewrite (generate_artifact_result client1 client1 fid spec kind w w) in H by done.
  rewrite (generate_artifact_result client1 client2 fid spec kind w w1) by done.
  destruct ((generate_artifact client1 fid spec kind w).1) as [data|e]; [|done].
  rewrite save_artifact_unfold in *.
  apply save_again in H as [H1 H2]. split; [done | by eexists].
Qed.

(** C9. A generator that ran to the end, run again on the file system it
    left, with the prompt rendered from its inputs the same as before and
    the service giving the same answer to it, ends well and leaves the file
    system exactly as it was, the artifact's content included.  The same
    holds for a step of the SSOT generator, given the same specification. *)
Theorem regeneration_is_idempotent client1 client2 (feature_id : string) cfg w w1 :
  (generate_api client1 feature_id cfg w = (Ok tt, w1) ->
   (api_prompt feature_id cfg w1).1 = (api_prompt feature_id cfg w).1 ->
   (forall prompt, (api_prompt feature_id cfg w).1 = Ok prompt ->
      client2 default_system prompt = client1 default_system prompt) ->
   generate_api client2 feature_id cfg w1 = (Ok tt, w1)
   /\ exists content,
        w1 !! (GENERATED_DIR // feature_id // "api" // (feature_id ++ "_api.py"))
        = Some (File content))
  /\ (generate_ui client1 feature_id cfg w = (Ok tt, w1) ->
      (ui_prompt feature_id cfg w1).1 = (ui_prompt feature_id cfg w).1 ->
      (forall prompt, (ui_prompt feature_id cfg w).1 = Ok prompt ->
         client2 default_system prompt = client1 default_system prompt) ->
      generate_ui client2 feature_id cfg w1 = (Ok tt, w1)
      /\ exists content,
           w1 !! (GENERATED_DIR // feature_id // "ui" // (feature_id ++ "_ui.py"))
           = Some (File content))
  /\ (generate_test client1 feature_id cfg w = (Ok tt, w1) ->
      (test_prompt feature_id cfg w1).1 = (test_prompt feature_id cfg w).1 ->
      (forall prompt, (test_prompt feature_id cfg w).1 = Ok prompt ->
         client2 default_system prompt = client1 default_system prompt) ->
      generate_test client2 feature_id cfg w1 = (Ok tt, w1)
      /\ exists content,
           w1 !! (GENERATED_DIR // feature_id // "test" // (feature_id ++ "_test.py"))
           = Some (File content))
  /\ (generate_db client1 feature_id cfg w = (Ok tt, w1) ->
      (db_prompt feature_id cfg w1).1 = (db_prompt feature_id cfg w).1 ->
      (forall prompt, (db_prompt feature_id cfg w).1 = Ok prompt ->
         client2 default_system prompt = client1 default_system prompt) ->
      generate_db client2 feature_id cfg w1 = (Ok tt, w1)
      /\ exists content,
           w1 !! (GENERATED_DIR // feature_id // "db" // (feature_id ++ "_schema.sql"))
           = Some (File content))
  /\ (forall spec kind name,
        ssot_step client1 feature_id spec kind name w = (Ok tt, w1) ->
        (forall system prompt, client2 system prompt = client1 system prompt) ->
        ssot_step client2 feature_id spec kind name w1 = (Ok tt, w1)
        /\ exists content,
             w1 !! (AUTO_FEATURES_DIR // feature_id // name) = Some (File content)).
Proof.
  split; [|split; [|split; [|split]]].
  - intros H Hsame Hclient.
    by apply (generate_again _ client1 client2 _ _ _ w w1 (readonly_api_prompt _ _)).
  - intros H Hsame Hclient.
    by apply (generate_again _ client1 client2 _ _ _ w w1 (readonly_ui_prompt _ _)).
  - intros H Hsame Hclient.
    by apply (generate_again _ client1 client2 _ _ _ w w1 (readonly_test_prompt _ _)).
  - intros H Hsame Hclient.
    by apply (generate_again _ client1 client2 _ _ _ w w1 (readonly_db_prompt _ _)).
  - intros spec kind name. apply ssot_step_again.
Qed.

End Generators.

(** ** The login route *)

Section Login.

Implicit Types (db : table) (member : Member) (e p : str) (now : Z).

Lemma serve_unknown e p now db :
  db !! e = None ->
  serve_login (mkLoginRequest e p) now db = (login_failed, db).
Proof. intros H. unfold serve_login, login_api. cbn [req_email]. by rewrite H. Qed.

Lemma serve_locked e p now db member :
  db !! e = Some member -> is_locked member = true ->
  serve_login (mkLoginRequest e p) now db = (account_locked, db).
Proof.
  intros H Hl. unfold serve_login, login_api. cbn [req_email]. by rewrite H, Hl.
Qed.

Lemma serve_wrong_below e p now db member :
  db !! e = Some member -> is_locked member = false ->
  checkpw p (password_hash member) = false ->
  (fail_count member + 1 < MAX_FAIL_COUNT)%Z ->
  serve_login (mkLoginRequest e p) now db
  = (login_failed, <[e := set_failed member (fail_count member + 1)]> db).
Proof.
  intros H Hl Hp Hc. unfold serve_login, login_api.
  cbn [req_email req_password]. rewrite H, Hl, Hp. cbn [negb set_failed fail_count].
  by rewrite (proj2 (Z.leb_gt _ _) Hc).
Qed.

Lemma serve_wrong_reach e p now db member :
  db !! e = Some member -> is_locked member = false ->
  checkpw p (password_hash member) = false ->
  (MAX_FAIL_COUNT <= fail_count member + 1)%Z ->
  serve_login (mkLoginRequest e p) now db
  = (account_locked,
     <[e := set_locked (set_failed member (fail_count member + 1)) now]> db).
Proof.
  intros H Hl Hp Hc. unfold serve_login, login_api.
  cbn [req_email req_password]. rewrite H, Hl, Hp. cbn [negb set_failed fail_count].
  by rewrite (proj2 (Z.leb_le _ _) Hc).
Qed.

Lemma serve_correct e p now db member :
  db !! e = Some member -> is_locked member = false ->
  checkpw p (password_hash member) = true ->
  exists db1 m1,
    serve_login (mkLoginRequest e p) now db
    = (Response 200 (CLogin (create_access_token (user_id member) now) (user_id member)),
       db1)
    /\ db1 !! e = Some m1 /\ fail_count m1 = 0%Z /\ is_locked m1 = false.
Proof.
  intros H Hl Hp. unfold serve_login, login_api.
  cbn [req_email req_password]. rewrite H, Hl, Hp. cbn [negb].
  destruct (fail_count member =? 0)%Z eqn:E; cbn [negb orb].
  - exists db, member. apply Z.eqb_eq in E. by repeat split.
  - exists (<[e := reset_member member now]> db), (reset_member member now).
    rewrite lookup_insert_eq. by repeat split.
Qed.

Lemma serve_logins_app l1 l2 db :
  serve_logins (l1 ++ l2) db
  = let '(r1, db1) := serve_logins l1 db in
    let '(r2, db2) := serve_logins l2 db1 in
    (r1 ++ r2, db2).
Proof.
  revert db. induction l1 as [|[req now] l1 IH]; intros db; cbn [serve_logins app].
  - by destruct (serve_logins l2 db).
  - destruct (serve_login req now db) as [r db']. rewrite IH.
    destruct (serve_logins l1 db') as [r1 db1].
    by destruct (serve_logins l2 db1).
Qed.

(** Wrong passwords below the threshold: each is answered LOGIN_FAILED and
    counted. *)
Lemma serve_wrongs_below e wrongs db member :
  db !! e = Some member -> is_locked member = false ->
  forallb (fun pt => negb (checkpw pt.1 (password_hash member))) wrongs = true ->
  (fail_count member + Z.of_nat (length wrongs) < MAX_FAIL_COUNT)%Z ->
  exists db' m',
    serve_logins (submission e <$> wrongs) db
    = (replicate (length wrongs) login_failed, db')
    /\ db' !! e = Some m' /\ is_locked m' = false
    /\ password_hash m' = password_hash member
    /\ fail_count m' = (fail_count member + Z.of_nat (length wrongs))%Z.
Proof.
  revert db member. induction wrongs as [|[p t] wrongs IH]; intros db member H Hl Hw Hc.
  - exists db, member. cbn. rewrite Z.add_0_r. by repeat split.
  - cbn [forallb fst] in Hw. apply andb_true_iff in Hw as [Hp Hw].
    apply negb_true_iff in Hp. cbn [length] in Hc.
    cbn [fmap list_fmap serve_logins submission fst snd].
    change (list_fmap _ _ (submission e) wrongs) with (submission e <$> wrongs).
    unfold MAX_FAIL_COUNT in Hc.
    rewrite (serve_wrong_below e p t db member H Hl Hp)
      by (unfold MAX_FAIL_COUNT; lia).
    destruct (IH (<[e := set_failed member (fail_count member + 1)]> db)
                 (set_failed member (fail_count member + 1)))
      as (db' & m' & Hrun & Hm' & Hl' & Hh & Hf);
      [by rewrite lookup_insert_eq | done | done
      | unfold MAX_FAIL_COUNT; simpl; lia |].
    exists db', m'. rewrite Hrun. simpl in Hh, Hf. simpl length.
    repeat split; [done | done | done | lia].
Qed.

Lemma serve_logins_locked e later db member :
  db !! e = Some member -> is_locked member = true ->
  serve_logins (submission e <$> later) db
  = (replicate (length later) account_locked, db).
Proof.
  intros H Hl. induction later as [|[p t] later IH]; [done|].
  cbn [fmap list_fmap serve_logins submission fst snd].
  change (list_fmap _ _ (submission e) later) with (submission e <$> later).
  by rewrite (serve_locked e p t db member H Hl), IH.
Qed.

(** What the route function does with requests that passed validation.
    For an account that exists, is not locked and has no failures counted:
    five requests with wrong passwords are answered 401 LOGIN_FAILED four
    times and then 401 ACCOUNT_LOCKED; every later request for the account,
    whatever its password, is answered 401 ACCOUNT_LOCKED, and the account
    stays locked; and a request with the right password for an account that
    is not locked is answered 200 and leaves its failure count at zero. *)
Lemma lockout_after_five_failures e member db wrongs later :
  db !! e = Some member ->
  fail_count member = 0%Z ->
  is_locked member = false ->
  length wrongs = 5 ->
  forallb (fun pt => negb (checkpw pt.1 (password_hash member))) wrongs = true ->
  (exists db' m',
     serve_logins (submission e <$> (wrongs ++ later)) db
     = (replicate 4 login_failed ++ [account_locked]
          ++ replicate (length later) account_locked, db')
     /\ db' !! e = Some m' /\ is_locked m' = true)
  /\ (forall db0 member0 p now,
        db0 !! e = Some member0 -> is_locked member0 = false ->
        checkpw p (password_hash member0) = true ->
        exists db1 m1,
          serve_login (mkLoginRequest e p) now db0
          = (Response 200 (CLogin (create_access_token (user_id member0) now)
                                  (user_id member0)), db1)
          /\ db1 !! e = Some m1 /\ fail_count m1 = 0%Z).
Proof.
  intros H Hf Hl Hlen Hw. split.
  - rewrite <- (take_drop 4 wrongs) in Hw |- *.
    rewrite forallb_app in Hw. apply andb_true_iff in Hw as [Hw4 Hw5].
    destruct (drop 4 wrongs) as [|[p5 t5] [|? ?]] eqn:Hd;
      try (apply (f_equal length) in Hd; rewrite length_drop in Hd; simpl in Hd; lia).
    cbn [forallb fst] in Hw5. rewrite andb_true_r in Hw5. apply negb_true_iff in Hw5.
    destruct (serve_wrongs_below e (take 4 wrongs) db member H Hl Hw4)
      as (db4 & m4 & Hrun & Hm4 & Hl4 & Hh4 & Hf4).
    { rewrite length_take, Hlen, Hf. unfold MAX_FAIL_COUNT. lia. }
    rewrite length_take, Hlen in Hrun, Hf4. change (4 `min` 5) with 4 in *.
    rewrite <- !app_assoc, !fmap_app, !serve_logins_app, Hrun.
    cbn [app fmap list_fmap serve_logins submission fst snd].
    rewrite <- Hh4 in Hw5.
    rewrite (serve_wrong_reach e p5 t5 db4 m4 Hm4 Hl4 Hw5)
      by (rewrite Hf4, Hf; unfold MAX_FAIL_COUNT; lia).
    set (m5 := set_locked _ _). set (db5 := <[e := m5]> db4).
    change (list_fmap _ _ (submission e) later) with (submission e <$> later).
    rewrite (serve_logins_locked e later db5 m5);
      [| by unfold db5; rewrite lookup_insert_eq | done].
    exists db5, m5. split; [done|]. split; [|done].
    unfold db5. by rewrite lookup_insert_eq.
  - intros db0 member0 p now H0 Hl0 Hp0.
    destruct (serve_correct e p now db0 member0 H0 Hl0 Hp0)
      as (db1 & m1 & Hrun & Hm1 & Hf1 & _).
    by exists db1, m1.
Qed.

End Login.

(** ** The question endpoint and the login endpoint under FastAPI *)

Section Endpoints.

Implicit Types (r : recommend_request) (h q : str).

Lemma bearer_token h :
  startswith (py "Bearer ") h = true -> split_space [] h !! 1 = Some (drop 7 h).
Proof. intros H. rewrite (startswith_eq _ _ H) at 1. reflexivity. Qed.

Lemma get_current_user_bearer h :
  startswith (py "Bearer ") h = true ->
  get_current_user h
  = match jwt_decode (strip (drop 7 h)) with
    | JwtExpired => RaiseHTTP 401 (DetailText (py "Token expired"))
    | JwtInvalid => RaiseHTTP 401 (DetailText (py "Invalid token"))
    | JwtPayload None | JwtPayload (Some []) =>
        RaiseHTTP 401 (DetailText (py "Invalid token payload"))
    | JwtPayload (Some mbr_id) => Return mbr_id
    end.
Proof.
  intros H. unfold get_current_user. rewrite H, (bearer_token h H). reflexivity.
Qed.


(** A continuation that never accepts makes the match fail. *)
Lemma m_none a : forall k s, (forall s', k s' = None) -> m a k s = None.
Proof.
  induction a as [|p|a IHa b IHb|a IHa b IHb|g a IHa|n a IHa| | |w|a IHa];
    intros k s Hk; cbn [m].
  - apply Hk.
  - destruct (rest s) as [|c t]; [done|]. by destruct (p c).
  - apply IHa. intros s'. by apply IHb.
  - by rewrite IHa, IHb.
  - generalize (S (length (rest s))). intros fuel. revert s.
    induction fuel as [|f IHf]; intros s; cbn [star_loop]; [apply Hk|].
    rewrite IHa, Hk; [by destruct g|].
    intros s'. by destruct (length (rest s') <? length (rest s)).
  - apply IHa. intros s'. apply Hk.
  - destruct (seen s); [apply Hk | done].
  - destruct (rest s) as [|c [|c' t]]; [apply Hk | | done].
    destruct (c =? 10)%N; [apply Hk | done].
  - destruct (xorb _ _); [apply Hk | done].
  - apply IHa. intros _. apply Hk.
Qed.

Lemma existsb_drop (c : N -> bool) (l : str) j :
  existsb c l = false -> existsb c (drop j l) = false.
Proof.
  revert j. induction l as [|x l IH]; intros j H; [by rewrite drop_nil|].
  destruct j as [|j]; [done|]. cbn [existsb] in H.
  apply orb_false_iff in H as [_ H]. by apply IH.
Qed.

(** [(?=.*c)] fails where no character ahead is in the class. *)
Lemma lookahead_miss (c : N -> bool) k s :
  existsb c (rest s) = false -> m (lookahead_has c) k s = None.
Proof.
  intros H.
  change (m (lookahead_has c) k s)
    with (star_loop true (m (Chr (fun x => negb (x =? 10)%N)))
            (m (Chr c) (fun _ => k s)) (S (length (rest s))) s).
  apply star_greedy_chr_none.
  intros j _. pose proof (existsb_drop c (rest s) j H) as Hd. unfold adv.
  destruct (drop j (rest s)) as [|x t]; [apply m_chr_nil|].
  cbn [existsb] in Hd. apply orb_false_iff in Hd as [Hx _].
  by rewrite m_chr_cons, Hx.
Qed.

Lemma lookahead_then_none (c : N -> bool) b k s :
  m b k s = None -> m (Seq (lookahead_has c) b) k s = None.
Proof.
  intros H. rewrite m_seq.
  change (m (lookahead_has c) (m b k) s)
    with (m (Seq (Star true dot) (Chr c)) (fun _ => m b k s) s).
  apply m_none. by intros _.
Qed.

(** What the validators raise: a password shorter than 8 characters, or
    without an upper-case letter, a lower-case letter, a digit or one of
    the special characters, raises INVALID_PASSWORD_FORMAT; an email longer
    than 255 characters or refused by [EmailStr] raises INVALID_EMAIL_FORMAT;
    [None] raises MISSING_REQUIRED_FIELD; and [value_error_handler] answers
    each of the three codes with 400 and the code. *)
Lemma validators_raise_codes :
  (forall v, length v < 8 \/ existsb is_upper v = false \/ existsb is_lower v = false
             \/ existsb isdecimal v = false \/ existsb is_special v = false ->
             validate_password (Some v) = inl INVALID_PASSWORD_FORMAT)
  /\ (forall v, 255 < length v \/ EmailStr_validate v = false ->
                validate_email (Some v) = inl INVALID_EMAIL_FORMAT)
  /\ validate_email None = inl MISSING_REQUIRED_FIELD
  /\ validate_password None = inl MISSING_REQUIRED_FIELD
  /\ (forall code, code = MISSING_REQUIRED_FIELD \/ code = INVALID_EMAIL_FORMAT
                   \/ code = INVALID_PASSWORD_FORMAT ->
                   value_error_handler code = Response 400 (CErrorCode code)).
Proof.
  split; [|split; [|split; [|split]]]; try reflexivity.
  - intros v H. unfold validate_password.
    destruct (length v <? 8) eqn:Hlen; [done|].
    apply Nat.ltb_ge in Hlen. destruct H as [H|H]; [lia|].
    assert (fullmatch password_pattern v = None) as ->; [|done].
    unfold fullmatch, password_pattern.
    destruct H as [H|[H|[H|H]]].
    + rewrite m_seq. by apply lookahead_miss.
    + apply lookahead_then_none. rewrite m_seq. by apply lookahead_miss.
    + do 2 apply lookahead_then_none. rewrite m_seq. by apply lookahead_miss.
    + do 3 apply lookahead_then_none. rewrite m_seq. by apply lookahead_miss.
  - intros v [H|H]; unfold validate_email.
    + by rewrite (proj2 (Nat.ltb_lt _ _) H).
    + rewrite H. by destruct (255 <? length v).
  - intros code [-> | [-> | ->]]; reflexivity.
Qed.

Lemma rejected_body_422 b now db errors :
  parse_LoginRequest b = inl errors ->
  post_login_api b now db = (Response 422 (CValidation errors), db).
Proof. intros H. unfold post_login_api. by rewrite H. Qed.

Lemma post_logins_cons b now bodies db :
  post_logins ((b, now) :: bodies) db
  = ((post_login_api b now db).1
       :: (post_logins bodies (post_login_api b now db).2).1,
     (post_logins bodies (post_login_api b now db).2).2).
Proof.
  cbn [post_logins]. destruct (post_login_api b now db) as [r db']. cbn [fst snd].
  by destruct (post_logins bodies db').
Qed.

(** Where [EmailStr.validate] raises whatever it is given, no body passes
    the validation. *)
Lemma no_email_passes b :
  (forall v, EmailStr_validate v = false) ->
  exists errors, parse_LoginRequest b = inl errors.
Proof.
  intros H. unfold parse_LoginRequest.
  assert (exists x, validate_field "email" validate_email (body_email b) = inl x)
    as [x ->].
  { destruct (body_email b) as [v|]; cbn [validate_field validate_email]; [|by eexists].
    rewrite H. destruct (255 <? length v); by eexists. }
  destruct (validate_field "password" validate_password (body_password b)); by eexists.
Qed.

(** C1, where the code misses it.  The validator of the email calls
    [EmailStr.validate] inside [try ... except Exception]; pydantic 2, which
    the module needs for [field_validator], has no such method, so the call
    raises for every value and the validator refuses every email.  Then
    every body posted to /api/login_api fails validation and is answered 422
    by the framework, and the table is never touched: no submission is
    answered 401 LOGIN_FAILED, 401 ACCOUNT_LOCKED or 200, no failure is
    counted and no account is locked. *)
Theorem lockout_never_reached bodies db :
  (forall v, EmailStr_validate v = false) ->
  (post_logins bodies db).2 = db
  /\ length (post_logins bodies db).1 = length bodies
  /\ (forall resp, resp ∈ (post_logins bodies db).1 -> status_code resp = 422%Z).
Proof.
  intros H. induction bodies as [|[b now] bodies (IH1 & IH2 & IH3)].
  { repeat split. intros resp Hr. by apply elem_of_nil in Hr. }
  destruct (no_email_passes b H) as [errors He].
  rewrite post_logins_cons, (rejected_body_422 b now db errors He). cbn [fst snd].
  split; [done|]. split; [cbn [length]; by rewrite IH2|].
  intros resp [->|Hr]%elem_of_cons; [done | by apply IH3].
Qed.

(** C3, the code at its failing inputs.  The validator raises
    INVALID_PASSWORD_FORMAT for the password "short", and the ValueError
    handler would answer that code with 400; but a body that fails
    validation is answered by the framework, with 422 and without storage
    access: so for a short password, a missing email, a missing password
    and an email of 256 characters. *)
Theorem invalid_login_body_answered_422 now db :
  validate_password (Some (py "short")) = inl INVALID_PASSWORD_FORMAT
  /\ value_error_handler INVALID_PASSWORD_FORMAT
     = Response 400 (CErrorCode INVALID_PASSWORD_FORMAT)
  /\ (exists errors,
        post_login_api (mkLoginBody (Some (py "user1@example.com")) (Some (py "short")))
                       now db
        = (Response 422 (CValidation errors), db))
  /\ (exists errors,
        post_login_api (mkLoginBody None (Some (py "Pass@word1"))) now db
        = (Response 422 (CValidation errors), db))
  /\ (exists errors,
        post_login_api (mkLoginBody (Some (py "user1@example.com")) None) now db
        = (Response 422 (CValidation errors), db))
  /\ (exists errors,
        post_login_api (mkLoginBody (Some (replicate 256 97%N)) (Some (py "Pass@word1")))
                       now db
        = (Response 422 (CValidation errors), db)).
Proof.
  split; [reflexivity|]. split; [reflexivity|].
  repeat split.
  - unfold post_login_api, parse_LoginRequest. cbn [body_email body_password].
    assert (validate_field "password" validate_password (Some (py "short"))
            = inl (FieldValueError "password" INVALID_PASSWORD_FORMAT)) as -> by reflexivity.
    destruct (validate_field "email" validate_email _); by eexists.
  - unfold post_login_api, parse_LoginRequest. cbn [body_email body_password validate_field].
    destruct (validate_password _); by eexists.
  - unfold post_login_api, parse_LoginRequest. cbn [body_email body_password validate_field].
    destruct (validate_email _); by eexists.
  - unfold post_login_api, parse_LoginRequest. cbn [body_email body_password].
    assert (validate_field "email" validate_email (Some (replicate 256 97%N))
            = inl (FieldValueError "email" INVALID_EMAIL_FORMAT)) as -> by reflexivity.
    destruct (validate_field "password" validate_password _); by eexists.
Qed.

(** The handler that generated_ori registers answers the same failure with
    400 and the code. *)
Lemma sibling_handler_answers_400 :
  validation_exception_handler [FieldValueError "password" INVALID_PASSWORD_FORMAT]
  = Response 400 (CErrorCode INVALID_PASSWORD_FORMAT).
Proof. reflexivity. Qed.

End Endpoints.

(** ** More on the extractors *)

Section ExtractionMore.

Implicit Types (s : mstate) (text l a b : str).

Lemma lstrip_blank a : forallb isspace a = true -> lstrip a = [].
Proof.
  induction a as [|c a IH]; simpl; [done|].
  intros [-> H]%andb_true_iff. by apply IH.
Qed.

Lemma lstrip_app_blank a b : forallb isspace a = true -> lstrip (a ++ b) = lstrip b.
Proof.
  induction a as [|c a IH]; simpl; [done|].
  intros [-> H]%andb_true_iff. by apply IH.
Qed.

Lemma lstrip_app_word a b : forallb isspace a = false -> lstrip (a ++ b) = lstrip a ++ b.
Proof.
  induction a as [|c a IH]; simpl; [done|].
  destruct (isspace c); simpl; [apply IH | done].
Qed.

Lemma rstrip_snoc l c : isspace c = true -> rstrip (l ++ [c]) = rstrip l.
Proof. intros H. unfold rstrip. rewrite rev_app_distr. simpl. by rewrite H. Qed.

(** A blank at the end does not change what [strip] returns. *)
Lemma strip_snoc l c : isspace c = true -> strip (l ++ [c]) = strip l.
Proof.
  intros H. unfold strip. destruct (forallb isspace l) eqn:E.
  - rewrite lstrip_app_blank, (lstrip_blank l) by done. simpl. by rewrite H.
  - rewrite lstrip_app_word by done. by apply rstrip_snoc.
Qed.

Lemma lstrip_head l c t : lstrip l = c :: t -> isspace c = false.
Proof.
  induction l as [|x l IH]; simpl; [done|].
  destruct (isspace x) eqn:E; [done|]. by intros [= <- _].
Qed.

Lemma lstrip_fixed l : match l with c :: _ => isspace c = false | [] => True end ->
  lstrip l = l.
Proof. destruct l as [|c t]; simpl; [done|]. by intros ->. Qed.

Lemma strip_idem l : strip (strip l) = strip l.
Proof.
  unfold strip. set (a := lstrip l).
  assert (lstrip (rstrip a) = rstrip a) as ->.
  { apply lstrip_fixed. destruct (rstrip_take a) as [n Hn]. rewrite Hn.
    destruct a as [|c t] eqn:Ha; [by rewrite take_nil|].
    destruct n; simpl; [done|]. by apply (lstrip_head l c t). }
  unfold rstrip. by rewrite rev_involutive, lstrip_idem.
Qed.

(** X1. What [extract_code_block], with any language or none, and
    [extract_block] return is trimmed: trimming it again changes
    nothing. *)
Theorem extracted_text_is_trimmed text (language : option str) :
  strip (extract_code_block text language) = extract_code_block text language
  /\ strip (extract_block text) = extract_block text.
Proof.
  unfold extract_code_block, extract_block. split.
  - destruct (search _ text); apply strip_idem.
  - destruct (search _ text); apply strip_idem.
Qed.

(** X2. Where another fence follows the first fence of the text, the
    two extractors without a language return the text between the tag of
    the first fence, its longest run of tag characters, and the next fence,
    trimmed. *)
Theorem closed_block_extracted text i j :
  find fence text = Some i ->
  find fence (drop (i + 3) text) = Some j ->
  extract_block text
  = strip (take (j - span_len tagchar (drop (i + 3) text))
                (drop (span_len tagchar (drop (i + 3) text)) (drop (i + 3) text)))
  /\ extract_code_block text None
     = strip (take (j - span_len tagchar (drop (i + 3) text))
                   (drop (span_len tagchar (drop (i + 3) text)) (drop (i + 3) text))).
Proof.
  intros Hi Hj. split.
  - destruct (search_untagged (lit fence) text i j
                closer_fence_miss closer_fence_hit Hi Hj) as (y & b & Hy & Hg & ->).
    unfold extract_block, pattern_block. rewrite Hy, Hg. apply strip_lstrip.
  - destruct (search_untagged (Group 2 (Alt (lit fence) Eol)) text i j
                closer_alt_miss closer_alt_hit Hi Hj) as (x & b & Hx & Hg & ->).
    unfold extract_code_block, pattern_any. rewrite Hx, Hg. apply strip_lstrip.
Qed.

(** The closer [(```|$)] where no fence starts: the text ends there, or
    ends after one line feed. *)
Lemma closer_alt_eol st x :
  startswith fence (rest st) = false ->
  m (Group 2 (Alt (lit fence) Eol)) Some st = Some x ->
  rest st = [] \/ rest st = [10%N].
Proof.
  intros Hf. rewrite m_group, m_alt, m_lit, Hf. cbn [orelse m].
  destruct (rest st) as [|c [|c' t]]; [by left | | done].
  destruct (N.eqb_spec c 10) as [->|]; [by right | done].
Qed.

(** After the tag of a fence that is never closed, [\s*(.*?)(```|$)] takes
    everything, up to the blanks at either end. *)
Lemma unclosed_tail s :
  (forall j, startswith fence (drop j (rest s)) = false) ->
  exists x,
    m (Star true (Chr isspace))
      (m (Seq (Group 1 (Star false any)) (Group 2 (Alt (lit fence) Eol))) Some) s
    = Some x
    /\ strip (group 1 x) = strip (rest s).
Proof.
  intros Hno.
  set (s3 := adv (span_len isspace (rest s)) s).
  assert (rest s3 = lstrip (rest s)) as Hr3.
  { unfold s3. by rewrite rest_adv, lstrip_drop. }
  destruct s3 as [sn rs g] eqn:Hs3. cbn [rest] in Hr3.
  destruct (scan_total
              (fun s' => m (Group 2 (Alt (lit fence) Eol)) Some
                           (set_group 1 (MState sn rs g) s')) sn rs g)
    as (n & x & Hn & Hscan & Hx).
  { apply closer_alt_end. rewrite rest_set_group, rest_adv. cbn [rest].
    by rewrite drop_all. }
  exists x. split.
  - apply m_star_greedy_chr. fold s3. rewrite Hs3, m_seq, m_group, m_star_lazy_any.
    exact Hscan.
  - rewrite (closer_alt_group _ _ Hx). unfold group, set_group. cbn [groups].
    rewrite lookup_insert_eq. cbn [default from_option id]. rewrite rest_adv. cbn [rest].
    rewrite length_drop. replace (length rs - (length rs - n)) with n by lia.
    apply closer_alt_eol in Hx.
    + rewrite rest_set_group, rest_adv in Hx. cbn [rest] in Hx.
      rewrite <- (strip_lstrip (rest s)), <- Hr3.
      rewrite <- (take_drop n rs) at 2.
      destruct Hx as [-> | ->]; [by rewrite app_nil_r | by rewrite strip_snoc].
    + rewrite rest_set_group, rest_adv. cbn [rest].
      rewrite Hr3, lstrip_drop, drop_drop. apply Hno.
Qed.

(** X3. Where no fence follows the first fence of the text,
    [extract_code_block] without a language returns everything after the
    tag of that fence, trimmed; and with a language, where nothing but the
    text [tail], which holds no fence, follows the first fence that carries
    the language, it returns [tail], trimmed. *)
Theorem unclosed_fence_extracted text i lang pre tail :
  (find fence text = Some i ->
   find fence (drop (i + 3) text) = None ->
   extract_code_block text None
   = strip (drop (span_len tagchar (drop (i + 3) text)) (drop (i + 3) text)))
  /\ (0 < length lang ->
      find (fence ++ lang) (pre ++ fence ++ lang ++ tail) = Some (length pre) ->
      find fence tail = None ->
      extract_code_block (pre ++ fence ++ lang ++ tail) (Some lang) = strip tail).
Proof.
  split.
  - intros Hi Hnone. destruct (find_Some _ _ _ Hi) as (Hpre & Hat & Hle).
    set (r1 := drop (i + 3) text) in *.
    assert (drop i text = fence ++ r1) as Hsplit.
    { rewrite (startswith_eq _ _ Hat) at 1. by rewrite fence_length, drop_drop. }
    set (s0 := MState (rev (take i text)) (fence ++ r1) ∅).
    destruct (unclosed_tail (adv (span_len tagchar r1) (adv (length fence) s0)))
      as (x & Hx & Hg).
    { intros j. rewrite !rest_adv. cbn [rest s0].
      rewrite drop_app_length, drop_drop. by apply find_None. }
    assert (search pattern_any text = Some x) as Hs.
    { rewrite <- (take_drop i text) at 1. rewrite Hsplit.
      unfold pattern_any. rewrite untagged_miss.
      - apply search_at_here. fold s0. rewrite m_seq, m_lit.
        cbn [rest s0]. rewrite startswith_app, m_seq.
        apply m_star_greedy_chr. rewrite rest_adv. cbn [rest s0].
        rewrite drop_app_length, m_seq. exact Hx.
      - intros j' Hj'. rewrite <- Hsplit, take_drop. apply Hpre.
        rewrite length_take in Hj'. lia. }
    unfold extract_code_block. rewrite Hs, Hg, !rest_adv. cbn [rest s0].
    by rewrite drop_app_length.
  - intros Hl Hfirst Hnone. destruct (find_Some _ _ _ Hfirst) as (Hpre & _ & _).
    destruct lang as [|c lg]; [simpl in Hl; lia|].
    unfold extract_code_block. set (lang := c :: lg) in *.
    set (s0 := MState (rev pre ++ []) (fence ++ lang ++ tail) ∅).
    destruct (unclosed_tail (adv (length lang) (adv (length fence) s0)))
      as (x & Hx & Hg).
    { intros j. rewrite !rest_adv. cbn [rest s0].
      rewrite !drop_app_length. by apply find_None. }
    assert (search (pattern_lang lang) (pre ++ fence ++ lang ++ tail) = Some x) as Hs.
    { unfold search. rewrite search_at_skip.
      - apply search_at_here. fold s0. unfold pattern_lang.
        rewrite m_seq, m_lit. cbn [rest s0]. rewrite startswith_app.
        rewrite m_seq, m_lit, rest_adv. cbn [rest s0].
        rewrite drop_app_length, startswith_app, m_seq. exact Hx.
      - intros j Hj. apply pattern_lang_miss. cbn [rest].
        rewrite <- drop_app_le by lia. by apply Hpre. }
    rewrite Hs, Hg, !rest_adv. cbn [rest s0].
    by rewrite !drop_app_length.
Qed.

End ExtractionMore.

(** ** More on the question endpoint *)

Section QuestionMore.

Implicit Types (k : K) (s : mstate) (q raw w pre post : str).

Lemma span_len_all (p : N -> bool) (l : str) :
  forallb p l = true -> span_len p l = length l.
Proof.
  induction l as [|c l IH]; simpl; [done|].
  intros [-> H]%andb_true_iff. by rewrite IH.
Qed.

(** A non-empty question made of safe characters matches
    SAFE_QUESTION_REGEX. *)
Lemma safe_chars_match q :
  q <> [] -> forallb safe_char q = true ->
  exists x, match_ SAFE_QUESTION_REGEX q = Some x.
Proof.
  destruct q as [|c t]; [done|]. intros _ [Hc Ht]%andb_true_iff.
  rewrite safe_match_unfold, Hc. eexists.
  apply star_greedy_chr; [simpl; lia|].
  cbn [rest]. rewrite span_len_all by done.
  cbn [m]. rewrite rest_adv. cbn [rest]. by rewrite drop_all.
Qed.

(** X4. [QuestionRequest] accepts a body exactly when its question,
    trimmed as pydantic trims it, has 1 to 300 characters, all of them from
    the allowed class; what it accepts is the trimmed question.  The
    trimming removes the characters of the Unicode property White_Space
    from both ends, so U+001C to U+001F stay and count: a question that is
    one U+001F is accepted, and U+001F before 300 letters is refused. *)
Theorem question_request_accepts_exactly raw q :
  parse_QuestionRequest (Some raw) = inr q
  <-> q = trim raw /\ 1 <= length q <= 300 /\ forallb safe_char q = true.
Proof.
  split; [apply parse_question_accepts|].
  intros (-> & Hlen & Hsafe). unfold parse_QuestionRequest, validate_question.
  rewrite (proj2 (Nat.ltb_ge (length (trim raw)) 1)) by lia.
  rewrite (proj2 (Nat.ltb_ge 300 (length (trim raw)))) by lia.
  destruct (safe_chars_match (trim raw)) as [x ->]; [|done|done].
  intros E. rewrite E in Hlen. simpl in Hlen. lia.
Qed.

Lemma sanitize_filter q : sanitize_question q = List.filter safe_char q.
Proof.
  unfold sanitize_question. induction q as [|c q IH]; [done|].
  cbn [List.filter]. destruct (safe_char c) eqn:Hc.
  - rewrite filter_cons_True by (by apply safe_match_one). by rewrite IH.
  - rewrite filter_cons_False; [done|].
    intros H. apply safe_match_one in H. congruence.
Qed.

Lemma filter_all (p : N -> bool) (l : str) : forallb p (List.filter p l) = true.
Proof.
  induction l as [|c l IH]; [done|]. cbn [List.filter].
  destruct (p c) eqn:Hc; [|done]. cbn [forallb]. by rewrite Hc, IH.
Qed.

(** X5. [sanitize_question] keeps exactly the characters of the allowed
    class, in their order; so what it returns is made of allowed
    characters, sanitizing it again changes nothing, and unless it is empty
    it passes the validator of [QuestionRequest]. *)
Theorem sanitize_question_keeps_safe q :
  sanitize_question q = List.filter safe_char q
  /\ forallb safe_char (sanitize_question q) = true
  /\ sanitize_question (sanitize_question q) = sanitize_question q
  /\ (sanitize_question q <> [] ->
      validate_question (sanitize_question q) = inr (sanitize_question q)).
Proof.
  assert (forallb safe_char (sanitize_question q) = true) as Hsafe.
  { rewrite sanitize_filter. apply filter_all. }
  split; [apply sanitize_filter|]. split; [done|].
  split; [by apply sanitize_safe|].
  intros Hne. unfold validate_question.
  by destruct (safe_chars_match _ Hne Hsafe) as [x ->].
Qed.




(** [re.search] finds a match when the pattern matches at some offset. *)
Lemma search_at_found r j : forall sn rs,
  j <= length rs ->
  is_Some (m r Some (MState (rev (take j rs) ++ sn) (drop j rs) ∅)) ->
  is_Some (search_at r sn rs).
Proof.
  induction j as [|j IH]; intros sn rs Hj H.
  - destruct H as [x H]. exists x. by apply search_at_here.
  - destruct rs as [|c t]; [simpl in Hj; lia|]. cbn [search_at].
    destruct (m r Some (MState sn (c :: t) ∅)); [by eexists|].
    apply IH; [simpl in Hj; lia|]. simpl in H. by rewrite <- app_assoc in H.
Qed.

Lemma search_chr_found (p : N -> bool) q :
  existsb p q = true -> is_Some (search (Chr p) q).
Proof.
  unfold search. generalize (@nil N). induction q as [|c t IH]; intros sn; [done|].
  cbn [existsb search_at m rest]. destruct (p c); [by eexists|].
  simpl. apply IH.
Qed.

Lemma detect_first q :
  is_Some (search (Seq (WordB is_word)
      (Seq (Group 1
              (Alt (lit_i (py "select")) (Alt (lit_i (py "insert"))
              (Alt (lit_i (py "update")) (Alt (lit_i (py "delete"))
              (Alt (lit_i (py "drop")) (Alt (lit_i (py "truncate"))
              (Alt (lit_i (py "union")) (lit_i (py "exec"))))))))))
           (WordB is_word))) q) ->
  detect_dangerous_pattern q = RaiseHTTP 400 (DetailText dangerous_message).
Proof.
  intros [x H]. unfold detect_dangerous_pattern, DANGEROUS_PATTERNS.
  cbn [detect_in]. by rewrite H.
Qed.

Lemma detect_second q :
  is_Some (search (Chr is_shell_char) q) ->
  detect_dangerous_pattern q = RaiseHTTP 400 (DetailText dangerous_message).
Proof.
  intros [x H]. unfold detect_dangerous_pattern, DANGEROUS_PATTERNS.
  cbn [detect_in].
  change (Chr (fun c => elem c [59; 38; 124; 96; 36]%N)) with (Chr is_shell_char).
  rewrite H. by destruct (search (Seq _ _) q).
Qed.

(** X7. A question that holds one of the characters ; & | ` $ makes
    [detect_dangerous_pattern] raise the HTTPException 400, and so
    [recommend]. *)
Theorem shell_characters_rejected q mbr_id :
  existsb is_shell_char q = true ->
  detect_dangerous_pattern q = RaiseHTTP 400 (DetailText dangerous_message)
  /\ recommend q mbr_id = RaiseHTTP 400 (DetailText dangerous_message).
Proof.
  intros H. apply search_chr_found, detect_second in H.
  split; [done|]. unfold recommend. by rewrite H.
Qed.

Lemma orelse_some_l (a b : option mstate) : is_Some a -> is_Some (orelse a b).
Proof. by intros [x ->]. Qed.

Lemma orelse_some_r (a b : option mstate) : is_Some b -> is_Some (orelse a b).
Proof. intros [x ->]. destruct a; by eexists. Qed.

(** An ASCII letter in either case matches its lower-case form under
    [(?i)], and is a word character. *)
Lemma letter_caseless x :
  between 97 122 (ascii_lower x) = true ->
  ignorecase (ascii_lower x) x = true /\ is_word x = true.
Proof.
  unfold ascii_lower, between. intros H.
  assert ((65 <= x <= 90)%N \/ (97 <= x <= 122)%N) as Hx.
  { destruct ((65 <=? x)%N && (x <=? 90)%N) eqn:E.
    - left. apply andb_true_iff in E as [?%N.leb_le ?%N.leb_le]. lia.
    - right. apply andb_true_iff in H as [?%N.leb_le ?%N.leb_le]. lia. }
  clear H. unfold ignorecase, is_word, between.
  destruct Hx as [[H1 H2]|[H1 H2]].
  - rewrite (proj2 (N.leb_le 65 x)), (proj2 (N.leb_le x 90)) by lia. cbn [andb].
    replace (x + 32 - 32)%N with x by lia.
    rewrite N.eqb_refl, (proj2 (N.ltb_lt x 128)) by lia.
    by rewrite !orb_true_r.
  - assert ((x <=? 90)%N = false) as -> by (apply N.leb_gt; lia).
    rewrite andb_false_r, N.eqb_refl, (proj2 (N.ltb_lt x 128)) by lia.
    by rewrite (proj2 (N.leb_le 97 x)), (proj2 (N.leb_le x 122)) by lia.
Qed.

(** A keyword under [(?i)] matches its spelling in any ASCII case. *)
Lemma lit_i_caseless w : forall k s post,
  forallb (between 97 122) (ascii_lower <$> w) = true ->
  rest s = w ++ post ->
  m (lit_i (ascii_lower <$> w)) k s = k (adv (length w) s).
Proof.
  induction w as [|x w IH]; intros k [sn rs g] post Hl Hr; cbn [rest] in Hr; subst rs.
  - by rewrite adv_0.
  - cbn [fmap list_fmap forallb] in Hl. apply andb_true_iff in Hl as [Hx Hl].
    destruct (letter_caseless x Hx) as [Hi _].
    cbn [fmap list_fmap lit_i app length]. rewrite m_seq, m_chr_cons, Hi.
    change (list_fmap N N ascii_lower w) with (ascii_lower <$> w).
    rewrite (IH _ _ post) by done. by rewrite adv_S.
Qed.

Lemma ends_in_word_rev pre : is_word_at is_word (rev pre) = ends_in_word pre.
Proof.
  unfold ends_in_word. destruct pre as [|c pre] using rev_ind; [done|].
  by rewrite rev_app_distr, last_snoc.
Qed.

Lemma last_word w :
  w <> [] -> forallb (between 97 122) (ascii_lower <$> w) = true ->
  ends_in_word w = true /\ begins_with_word w = true.
Proof.
  intros Hne Hl. unfold ends_in_word, begins_with_word.
  assert (forall x, x ∈ w -> is_word x = true) as Hw.
  { intros x Hx. apply letter_caseless.
    rewrite forallb_forall in Hl. apply Hl, list_elem_of_In, list_elem_of_fmap.
    by exists x. }
  split.
  - destruct w as [|c w] using rev_ind; [done|]. rewrite last_snoc. simpl.
    apply Hw, elem_of_app. right. apply list_elem_of_here.
  - destruct w as [|c w]; [done|]. simpl. apply Hw, list_elem_of_here.
Qed.

(** Where the keyword stands as a word, the first pattern matches. *)
Lemma keyword_at (alts : regex) pre w post :
  w <> [] -> forallb (between 97 122) (ascii_lower <$> w) = true ->
  ends_in_word pre = false -> begins_with_word post = false ->
  (forall k s, is_Some (m (lit_i (ascii_lower <$> w)) k s) -> is_Some (m alts k s)) ->
  is_Some (search (Seq (WordB is_word) (Seq (Group 1 alts) (WordB is_word)))
                  (pre ++ w ++ post)).
Proof.
  intros Hne Hl Hpre Hpost Halts.
  destruct (last_word w Hne Hl) as [Hlast Hhead].
  apply search_at_found with (j := length pre); [rewrite length_app; lia|].
  rewrite take_app_length, drop_app_length, app_nil_r.
  set (s0 := MState (rev pre) (w ++ post) ∅).
  cbn [m]. cbn [seen rest s0]. rewrite ends_in_word_rev, Hpre.
  assert (is_word_at is_word (w ++ post) = true) as ->.
  { destruct w as [|c w]; [done|]. exact Hhead. }
  cbn [xorb]. apply Halts. rewrite (lit_i_caseless w _ s0 post) by done.
  cbn [m]. cbn [seen rest set_group adv s0].
  rewrite take_app_length, drop_app_length, <- rev_app_distr.
  rewrite ends_in_word_rev.
  assert (ends_in_word (pre ++ w) = true) as ->.
  { unfold ends_in_word in *. destruct w as [|c w] using rev_ind; [done|].
    by rewrite app_assoc, last_snoc in *. }
  unfold begins_with_word in Hpost.
  assert (is_word_at is_word post = false) as -> by (by destruct post).
  by eexists.
Qed.

Lemma alt_some a b k s :
  is_Some (m a k s) \/ is_Some (m b k s) -> is_Some (m (Alt a b) k s).
Proof. rewrite m_alt. intros [H|H]; [by apply orelse_some_l | by apply orelse_some_r]. Qed.

(** X8. A question in which one of the eight SQL keywords, in any
    ASCII letter case, stands as a word of its own (no word character
    before it or after it) makes [detect_dangerous_pattern] raise the
    HTTPException 400. *)
Theorem sql_keyword_rejected pre w post :
  ascii_lower <$> w ∈ SQL_KEYWORDS ->
  ends_in_word pre = false -> begins_with_word post = false ->
  detect_dangerous_pattern (pre ++ w ++ post)
  = RaiseHTTP 400 (DetailText dangerous_message).
Proof.
  intros Hkw Hpre Hpost. apply detect_first.
  assert (w <> []) as Hne.
  { intros ->. unfold SQL_KEYWORDS in Hkw.
    repeat (apply elem_of_cons in Hkw as [Hkw|Hkw]; [done|]).
    by apply elem_of_nil in Hkw. }
  apply keyword_at; [done | | done | done |].
  - unfold SQL_KEYWORDS in Hkw.
    repeat (apply elem_of_cons in Hkw as [->|Hkw]; [reflexivity|]).
    by apply elem_of_nil in Hkw.
  - intros k s H. unfold SQL_KEYWORDS in Hkw.
    repeat (apply elem_of_cons in Hkw as [Hkw|Hkw];
            [rewrite Hkw in H;
             repeat first [exact H | apply alt_some; first [left; exact H | right]]|]).
    by apply elem_of_nil in Hkw.
Qed.

End QuestionMore.

(** ** More on the login API *)

Section LoginMore.

Implicit Types (k : K) (s : mstate) (v : str) (db : table) (member : Member)
  (e : str) (now : Z).

(** *** The password pattern *)

Lemma star_chr_miss (p c : N -> bool) k fuel s :
  existsb c (rest s) = false ->
  star_loop true (m (Chr p)) (m (Chr c) k) fuel s = None.
Proof.
  intros H. apply star_greedy_chr_none.
  intros j _. pose proof (existsb_drop c (rest s) j H) as Hd. unfold adv.
  destruct (drop j (rest s)) as [|x t]; [apply m_chr_nil|].
  cbn [existsb] in Hd. apply orb_false_iff in Hd as [Hx _].
  by rewrite m_chr_cons, Hx.
Qed.

(** [p*c] in front of a continuation that does not look at the position:
    it is reached as soon as a [c] stands among the [p]s ahead. *)
Lemma star_loop_find (p c : N -> bool) (r : option mstate) fuel s :
  length (rest s) < fuel ->
  forallb p (rest s) = true -> existsb c (rest s) = true ->
  star_loop true (m (Chr p)) (m (Chr c) (fun _ => r)) fuel s = r.
Proof.
  revert s. induction fuel as [|f IH]; intros [sn rs g] Hf Hp Hc; [simpl in Hf; lia|].
  cbn [rest] in *. destruct rs as [|x t]; [done|].
  cbn [forallb existsb length] in *. apply andb_true_iff in Hp as [Hx Hp].
  cbn [star_loop]. rewrite !m_chr_cons, Hx. cbn [rest length].
  assert ((length t <? S (length t)) = true) as -> by (apply Nat.ltb_lt; lia).
  destruct (existsb c t) eqn:Ht.
  - rewrite (IH (MState (x :: sn) t g)); [| simpl; lia | done | done].
    destruct r; [done|]. by destruct (c x).
  - rewrite star_chr_miss by done. rewrite orb_false_r in Hc. by rewrite Hc.
Qed.

Lemma no_newline_dots (l : str) :
  existsb is_newline l = false -> forallb (fun x => negb (x =? 10)%N) l = true.
Proof.
  induction l as [|x l IH]; [done|]. cbn [existsb forallb]. unfold is_newline at 1.
  intros [-> H]%orb_false_iff. by rewrite IH.
Qed.

(** [(?=.*c)] on a text of one line that holds a [c]. *)
Lemma lookahead_hit (c : N -> bool) k s :
  existsb is_newline (rest s) = false -> existsb c (rest s) = true ->
  m (lookahead_has c) k s = k s.
Proof.
  intros Hnl Hc.
  change (m (lookahead_has c) k s)
    with (star_loop true (m (Chr (fun x => negb (x =? 10)%N)))
            (m (Chr c) (fun _ => k s)) (S (length (rest s))) s).
  apply star_loop_find; [lia | by apply no_newline_dots | done].
Qed.

(** [.{n}] where [n] characters of one line are ahead. *)
Lemma times_dot n : forall k s,
  n <= length (rest s) -> existsb is_newline (rest s) = false ->
  m (times n dot) k s = k (adv n s).
Proof.
  induction n as [|n IH]; intros k [sn rs g] Hn Hnl; cbn [rest] in *.
  - by rewrite adv_0.
  - destruct rs as [|x t]; [simpl in Hn; lia|].
    cbn [existsb] in Hnl. apply orb_false_iff in Hnl as [Hx Hnl].
    cbn [times]. rewrite m_seq. unfold dot at 1. rewrite m_chr_cons.
    unfold is_newline in Hx. rewrite Hx. cbn [negb].
    rewrite IH; [by rewrite adv_S | simpl in *; lia | done].
Qed.

Lemma span_before_newline (l : str) :
  existsb is_newline l = true ->
  span_len (fun x => negb (x =? 10)%N) l < length l.
Proof.
  induction l as [|x l IH]; [done|]. cbn [existsb span_len length].
  unfold is_newline at 1. destruct (x =? 10)%N; cbn [negb orb]; [lia|].
  intros H. apply IH in H. lia.
Qed.

(** [.{n,}] cannot reach the end of a text that holds a line feed. *)
Lemma dots_stop_at_newline n : forall s,
  existsb is_newline (rest s) = true ->
  m (Seq (times n dot) (Star true dot))
    (fun s' => match rest s' with [] => Some s' | _ => None end) s = None.
Proof.
  induction n as [|n IH]; intros [sn rs g] Hnl; cbn [rest] in *.
  - rewrite m_seq. cbn [times m]. apply m_star_greedy_chr_none.
    intros j Hj. cbn [rest] in *. rewrite rest_adv. cbn [rest].
    pose proof (span_before_newline rs Hnl) as Hlt.
    destruct (drop j rs) eqn:E; [|done].
    apply (f_equal length) in E. rewrite length_drop in E. simpl in E. lia.
  - rewrite m_seq. cbn [times]. rewrite m_seq. unfold dot at 1.
    destruct rs as [|x t]; [done|]. rewrite m_chr_cons.
    cbn [existsb] in Hnl. unfold is_newline at 1 in Hnl.
    destruct (x =? 10)%N; [done|]. cbn [negb orb] in *.
    rewrite <- m_seq. by apply IH.
Qed.

Lemma newline_password_rejected v :
  existsb is_newline v = true ->
  validate_password (Some v) = inl INVALID_PASSWORD_FORMAT.
Proof.
  intros Hnl. unfold validate_password. destruct (length v <? 8); [done|].
  assert (fullmatch password_pattern v = None) as ->; [|done].
  unfold fullmatch, password_pattern. do 4 apply lookahead_then_none.
  by apply dots_stop_at_newline.
Qed.

Lemma good_password_accepted v :
  8 <= length v -> existsb is_newline v = false ->
  existsb is_upper v = true -> existsb is_lower v = true ->
  existsb isdecimal v = true -> existsb is_special v = true ->
  validate_password (Some v) = inr v.
Proof.
  intros Hlen Hnl H1 H2 H3 H4. unfold validate_password.
  rewrite (proj2 (Nat.ltb_ge (length v) 8)) by lia.
  assert (exists x, fullmatch password_pattern v = Some x) as [x ->]; [|done].
  unfold fullmatch, password_pattern, init.
  rewrite m_seq, lookahead_hit by done.
  rewrite m_seq, lookahead_hit by done.
  rewrite m_seq, lookahead_hit by done.
  rewrite m_seq, lookahead_hit by done.
  rewrite m_seq, times_dot by done.
  eexists. apply m_star_greedy_chr. rewrite !rest_adv. cbn [rest].
  rewrite span_len_all.
  - by rewrite drop_all.
  - apply no_newline_dots. by apply existsb_drop.
Qed.

Lemma missing_class_rejected v :
  existsb is_upper v = false \/ existsb is_lower v = false
  \/ existsb isdecimal v = false \/ existsb is_special v = false ->
  validate_password (Some v) = inl INVALID_PASSWORD_FORMAT.
Proof.
  intros H. unfold validate_password. destruct (length v <? 8); [done|].
  assert (fullmatch password_pattern v = None) as ->; [|done].
  unfold fullmatch, password_pattern.
  destruct H as [H|[H|[H|H]]].
  - rewrite m_seq. by apply lookahead_miss.
  - apply lookahead_then_none. rewrite m_seq. by apply lookahead_miss.
  - do 2 apply lookahead_then_none. rewrite m_seq. by apply lookahead_miss.
  - do 3 apply lookahead_then_none. rewrite m_seq. by apply lookahead_miss.
Qed.

Lemma short_password_rejected v :
  length v < 8 -> validate_password (Some v) = inl INVALID_PASSWORD_FORMAT.
Proof.
  intros H. unfold validate_password.
  by rewrite (proj2 (Nat.ltb_lt (length v) 8) H).
Qed.

Ltac missing_class :=
  first [ by left | by right; left | by right; right; left | by right; right; right ].

(** X9. The validator of the password field accepts exactly the
    passwords of at least eight characters, on one line, that hold an
    upper-case letter, a lower-case letter, a digit and one of !@#$%^&*;
    every other password raises INVALID_PASSWORD_FORMAT. *)
Theorem password_policy v :
  validate_password (Some v)
  = if password_ok v then inr v else inl INVALID_PASSWORD_FORMAT.
Proof.
  unfold password_ok.
  destruct (8 <=? length v) eqn:Hlen; cbn [andb].
  2: { apply Nat.leb_gt in Hlen. by apply short_password_rejected. }
  apply Nat.leb_le in Hlen.
  destruct (existsb is_newline v) eqn:Hnl; cbn [negb andb];
    [by apply newline_password_rejected|].
  destruct (existsb is_upper v) eqn:H1, (existsb is_lower v) eqn:H2,
           (existsb isdecimal v) eqn:H3, (existsb is_special v) eqn:H4;
    cbn [andb]; try (by apply missing_class_rejected; missing_class).
  by apply good_password_accepted.
Qed.

(** What a password that the validator accepts is like. *)
Lemma accepted_password v :
  validate_password (Some v) = inr v ->
  8 <= length v /\ existsb is_newline v = false
  /\ existsb is_upper v = true /\ existsb is_lower v = true
  /\ existsb isdecimal v = true /\ existsb is_special v = true.
Proof.
  intros H.
  assert (forall P : Prop,
            (P -> validate_password (Some v) = inl INVALID_PASSWORD_FORMAT) -> ~ P) as Hno.
  { intros P HP HPp. by rewrite (HP HPp) in H. }
  assert (forall b : bool, b <> false -> b = true) as Hb by (by intros []).
  split; [|split; [|repeat split]].
  - destruct (le_lt_dec 8 (length v)) as [|Hlt]; [done|]. exfalso. revert Hlt.
    apply Hno. apply short_password_rejected.
  - destruct (existsb is_newline v) eqn:E; [|done]. exfalso. revert E.
    apply Hno. apply newline_password_rejected.
  - apply Hb, Hno. intros E. apply missing_class_rejected. missing_class.
  - apply Hb, Hno. intros E. apply missing_class_rejected. missing_class.
  - apply Hb, Hno. intros E. apply missing_class_rejected. missing_class.
  - apply Hb, Hno. intros E. apply missing_class_rejected. missing_class.
Qed.

(** *** The table *)

Lemma same_account_refl member : same_account member member.
Proof. by repeat split. Qed.

Lemma same_account_trans (a b c : Member) :
  same_account a b -> same_account b c -> same_account a c.
Proof.
  intros (?&?&?&?) (?&?&?&?). repeat split; congruence.
Qed.

Lemma serve_login_table req now db :
  (serve_login req now db).2 = (login_api req now db).2.
Proof.
  unfold serve_login. destruct (login_api req now db) as [[[token uid]|st d|ex] db']; done.
Qed.

(** One call of [login_api] on the row of [e]. *)
Lemma login_api_row req now db e :
  match db !! e, (login_api req now db).2 !! e with
  | Some a, Some b =>
      same_account a b /\ (e <> req_email req -> b = a)
      /\ (is_locked a = true -> b = a)
      /\ (row_consistent a = true -> row_consistent b = true)
  | None, None => True
  | _, _ => False
  end.
Proof.
  assert (forall a : Member, same_account a a /\ (e <> req_email req -> a = a)
            /\ (is_locked a = true -> a = a)
            /\ (row_consistent a = true -> row_consistent a = true)) as Hsame.
  { intros a. by repeat split. }
  assert (match db !! e, db !! e with
          | Some a, Some b =>
              same_account a b /\ (e <> req_email req -> b = a)
              /\ (is_locked a = true -> b = a)
              /\ (row_consistent a = true -> row_consistent b = true)
          | None, None => True
          | _, _ => False
          end) as Hid.
  { destruct (db !! e); [apply Hsame | done]. }
  unfold login_api. destruct (db !! req_email req) as [member|] eqn:Hm; [|exact Hid].
  destruct (is_locked member) eqn:Hl; [exact Hid|].
  destruct (decide (e = req_email req)) as [->|Hne].
  2: { destruct (negb (checkpw _ _)); [destruct (_ <=? _)%Z|
                                         destruct (negb _ || _)];
         cbn [snd]; rewrite ?lookup_insert_ne by done; exact Hid. }
  rewrite Hm.
  destruct (negb (checkpw _ _)).
  - cbn [fail_count set_failed].
    destruct (MAX_FAIL_COUNT <=? fail_count member + 1)%Z eqn:Hc;
      cbn [snd]; rewrite lookup_insert_eq.
    + split; [by repeat split|]. split; [done|]. split; [by rewrite Hl|].
      unfold row_consistent. rewrite Hl. cbn [is_locked set_locked set_failed
        fail_count locked_at]. unfold MAX_FAIL_COUNT in *.
      intros [[H0 H1]%andb_true_iff _]%andb_true_iff.
      apply Z.leb_le in Hc, H0. apply Z.ltb_lt in H1.
      rewrite (proj2 (Z.eqb_eq _ _)) by lia. cbn [andb].
      apply bool_decide_eq_true. by eexists.
    + split; [by repeat split|]. split; [done|]. split; [by rewrite Hl|].
      unfold row_consistent. rewrite Hl. cbn [is_locked set_failed fail_count locked_at].
      rewrite Hl. unfold MAX_FAIL_COUNT in *.
      intros [[H0 H1]%andb_true_iff H2]%andb_true_iff.
      apply Z.leb_gt in Hc. apply Z.leb_le in H0. apply Z.ltb_lt in H1.
      rewrite (proj2 (Z.leb_le _ _)), (proj2 (Z.ltb_lt _ _)) by lia. done.
  - destruct (negb (fail_count member =? 0)%Z || false); cbn [snd].
    + rewrite lookup_insert_eq. split; [by repeat split|]. split; [done|].
      split; [by rewrite Hl|]. intros _. reflexivity.
    + rewrite Hm. apply Hsame.
Qed.

Lemma serve_login_row req now db e :
  match db !! e, (serve_login req now db).2 !! e with
  | Some a, Some b =>
      same_account a b /\ (e <> req_email req -> b = a)
      /\ (is_locked a = true -> b = a)
      /\ (row_consistent a = true -> row_consistent b = true)
  | None, None => True
  | _, _ => False
  end.
Proof. rewrite serve_login_table. apply login_api_row. Qed.

Lemma serve_logins_cons req now reqs db :
  serve_logins ((req, now) :: reqs) db
  = ((serve_login req now db).1 :: (serve_logins reqs (serve_login req now db).2).1,
     (serve_logins reqs (serve_login req now db).2).2).
Proof.
  cbn [serve_logins]. destruct (serve_login req now db) as [r db']. cbn [fst snd].
  by destruct (serve_logins reqs db').
Qed.

Lemma serve_logins_same reqs db e :
  match db !! e, (serve_logins reqs db).2 !! e with
  | Some a, Some b => same_account a b
  | None, None => True
  | _, _ => False
  end.
Proof.
  revert db. induction reqs as [|[req now] reqs IH]; intros db.
  - cbn. destruct (db !! e); [apply same_account_refl | done].
  - rewrite serve_logins_cons. cbn [snd].
    pose proof (serve_login_row req now db e) as H1.
    specialize (IH (serve_login req now db).2).
    destruct (db !! e) as [a|], ((serve_login req now db).2 !! e) as [b|];
      try done.
    destruct (_ !! e) as [c|]; [|done].
    destruct H1 as (H1 & _). by apply (same_account_trans a b c).
Qed.

(** X10. No sequence of login requests creates or deletes a row, or
    changes the user_id, email, password_hash or created_at of one; and the
    row of an email that no request of the sequence names is left as it
    was. *)
Theorem logins_keep_accounts reqs db e :
  match db !! e, (serve_logins reqs db).2 !! e with
  | Some a, Some b => same_account a b
  | None, None => True
  | _, _ => False
  end
  /\ ((forall req now, (req, now) ∈ reqs -> req_email req <> e) ->
      (serve_logins reqs db).2 !! e = db !! e).
Proof.
  split; [apply serve_logins_same|].
  revert db. induction reqs as [|[req now] reqs IH]; intros db Hno; [done|].
  rewrite serve_logins_cons. cbn [snd]. rewrite IH.
  - assert (e <> req_email req) as Hne.
    { intros He. by apply (Hno req now); [apply list_elem_of_here|]. }
    pose proof (serve_login_row req now db e) as H1.
    destruct (db !! e) as [a|], ((serve_login req now db).2 !! e) as [b|];
      try done.
    destruct H1 as (_ & H1 & _). by rewrite H1.
  - intros req' now' Hin. apply (Hno req' now'). by apply list_elem_of_further.
Qed.

(** A body that passes the validation gives a request for its email. *)
Lemma parsed_body b req :
  parse_LoginRequest b = inr req -> body_email b = Some (req_email req).
Proof.
  unfold parse_LoginRequest.
  destruct (body_email b) as [v|]; cbn [validate_field]; [|by destruct (validate_field _ _ _)].
  unfold validate_email. destruct (255 <? length v); cbn.
  { by destruct (validate_field _ _ _). }
  destruct (negb (EmailStr_validate v)); cbn; destruct (validate_field _ _ _); try done.
  by intros [= <-].
Qed.

(** A body is refused with 422 and nothing stored, or served as a request
    for its email. *)
Lemma post_login_cases b now db :
  (exists errors, post_login_api b now db = (Response 422 (CValidation errors), db))
  \/ (exists req, body_email b = Some (req_email req)
                  /\ post_login_api b now db = serve_login req now db).
Proof.
  unfold post_login_api. destruct (parse_LoginRequest b) as [errors|req] eqn:E.
  - left. by exists errors.
  - right. exists req. split; [by apply parsed_body | done].
Qed.

(** One body on a locked row. *)
Lemma post_login_locked b now db e member :
  db !! e = Some member -> is_locked member = true ->
  (post_login_api b now db).2 !! e = Some member
  /\ (body_email b = Some e ->
      status_code (post_login_api b now db).1 = 422%Z
      \/ (post_login_api b now db).1 = account_locked).
Proof.
  intros Hm Hl. destruct (post_login_cases b now db) as [[errors ->]|(req & Hb & ->)].
  - split; [done|]. intros _. by left.
  - split.
    + pose proof (serve_login_row req now db e) as H1. rewrite Hm in H1.
      cbv beta iota in H1.
      destruct ((serve_login req now db).2 !! e) as [m'|]; [|done].
      destruct H1 as (_ & _ & H1 & _). by rewrite H1.
    + rewrite Hb. intros [= He]. right. destruct req as [e' p]. cbn in He. subst e'.
      by rewrite (serve_locked e p now db member Hm Hl).
Qed.

Lemma post_logins_locked bodies db e member :
  db !! e = Some member -> is_locked member = true ->
  (post_logins bodies db).2 !! e = Some member.
Proof.
  revert db. induction bodies as [|[b now] bodies IH]; intros db Hm Hl; [done|].
  rewrite post_logins_cons. cbn [snd]. apply IH; [|done].
  by apply post_login_locked.
Qed.

(** X11. A locked row is never changed again: after any sequence of
    bodies posted to /api/login_api, for whatever emails and with whatever
    passwords, the row is as it was, and each body of the sequence for its
    email was refused with 422 or answered 401 ACCOUNT_LOCKED, never 200 and
    never LOGIN_FAILED.  The API has no way to unlock. *)
Theorem locked_account_stays_locked bodies db e member :
  db !! e = Some member -> is_locked member = true ->
  (post_logins bodies db).2 !! e = Some member
  /\ (forall i b now, bodies !! i = Some (b, now) -> body_email b = Some e ->
        exists resp, (post_logins bodies db).1 !! i = Some resp
                     /\ (status_code resp = 422%Z \/ resp = account_locked)).
Proof.
  intros Hm Hl. split; [by apply post_logins_locked|].
  revert db Hm. induction bodies as [|[b now] bodies IH]; intros db Hm i b' now' Hi He.
  - by rewrite lookup_nil in Hi.
  - rewrite post_logins_cons. cbn [fst].
    destruct (post_login_locked b now db e member Hm Hl) as [Hm' Hr].
    destruct i as [|i].
    + injection Hi as <- <-. eexists. split; [reflexivity|]. by apply Hr.
    + cbn. by apply (IH _ Hm' i b' now').
Qed.

(** X12. A row in one of the states the API reaches from a fresh row
    stays in one: after any sequence of login requests it is either not
    locked, with fewer than MAX_FAIL_COUNT failures counted and no lock
    time, or locked, with MAX_FAIL_COUNT failures and a lock time. *)
Theorem rows_stay_consistent reqs db e member :
  db !! e = Some member -> row_consistent member = true ->
  exists member',
    (serve_logins reqs db).2 !! e = Some member'
    /\ row_consistent member' = true.
Proof.
  revert db member. induction reqs as [|[req now] reqs IH]; intros db member Hm Hc.
  - by exists member.
  - rewrite serve_logins_cons. cbn [snd].
    pose proof (serve_login_row req now db e) as H1. rewrite Hm in H1.
    cbv beta iota in H1.
    destruct ((serve_login req now db).2 !! e) as [b|] eqn:Hb; [|done].
    destruct H1 as (_ & _ & _ & H1). by apply (IH _ b); [|apply H1].
Qed.

(** One body for the email of a row that is not locked: the row after it,
    by the answer. *)
Lemma post_login_counts b now db e member :
  db !! e = Some member -> is_locked member = false -> body_email b = Some e ->
  exists m',
    (post_login_api b now db).2 !! e = Some m'
    /\ (is_locked m' = false ->
        fail_count m' = count_answer (fail_count member) (post_login_api b now db).1).
Proof.
  intros Hm Hl Hb.
  destruct (post_login_cases b now db) as [[errors ->]|(req & Hb' & ->)].
  - by exists member.
  - rewrite Hb in Hb'. injection Hb' as ->.
    unfold serve_login, login_api. rewrite Hm, Hl.
    destruct (negb (checkpw _ _)).
    + cbn [fail_count set_failed].
      destruct (MAX_FAIL_COUNT <=? fail_count member + 1)%Z; cbn [fst snd];
        rewrite lookup_insert_eq; eexists; (split; [reflexivity|]).
      * by cbn.
      * intros _. reflexivity.
    + destruct (fail_count member =? 0)%Z eqn:E; cbn [negb orb fst snd].
      * exists member. split; [done|]. intros _. by apply Z.eqb_eq in E.
      * rewrite lookup_insert_eq. eexists. split; [reflexivity|]. intros _. reflexivity.
Qed.

(** X13. The stored count is the count of the answers.  For a row that
    is not locked, after any sequence of bodies posted for its email: if
    the row is still not locked, its fail_count is what the answers give,
    each 401 adding one, each 200 setting it back to zero and each 422
    leaving it.  So only the failures after the last success count, and a
    refused body counts for nothing. *)
Theorem count_follows_answers bodies db e member :
  db !! e = Some member -> is_locked member = false ->
  Forall (fun bn => body_email bn.1 = Some e) bodies ->
  exists m',
    (post_logins bodies db).2 !! e = Some m'
    /\ (is_locked m' = false ->
        fail_count m' = counted (fail_count member) (post_logins bodies db).1).
Proof.
  revert db member. induction bodies as [|[b now] bodies IH]; intros db member Hm Hl Hall.
  - by exists member.
  - apply Forall_cons in Hall as [Hb Hall]. cbn [fst] in Hb.
    rewrite post_logins_cons. cbn [fst snd].
    destruct (post_login_counts b now db e member Hm Hl Hb) as (m1 & Hm1 & Hc1).
    destruct (is_locked m1) eqn:Hl1.
    + exists m1. rewrite (post_logins_locked bodies _ e m1 Hm1 Hl1).
      split; [done|]. intros Hl'. congruence.
    + destruct (IH _ m1 Hm1 Hl1 Hall) as (m' & Hm' & Hc').
      exists m'. split; [done|]. intros Hl'.
      unfold counted. cbn [foldl]. rewrite <- Hc1 by done. by apply Hc'.
Qed.

(** One body for an email that has no row. *)
Lemma post_login_unknown b now db e :
  db !! e = None -> body_email b = Some e ->
  (post_login_api b now db).2 = db
  /\ (status_code (post_login_api b now db).1 = 422%Z
      \/ (post_login_api b now db).1 = login_failed).
Proof.
  intros Hm Hb. destruct (post_login_cases b now db) as [[errors ->]|(req & Hb' & ->)].
  - split; [done | by left].
  - rewrite Hb in Hb'. injection Hb' as ->. destruct req as [e' p]. cbn [req_email] in *.
    rewrite (serve_unknown e' p now db Hm). split; [done | by right].
Qed.

(** X14. Bodies posted for an email that has no row are refused with
    422 or answered 401 LOGIN_FAILED, however many they are, never 200 and
    never ACCOUNT_LOCKED, and store nothing. *)
Theorem unknown_email_attempts e bodies db :
  db !! e = None ->
  Forall (fun bn => body_email bn.1 = Some e) bodies ->
  (post_logins bodies db).2 = db
  /\ Forall (fun resp => status_code resp = 422%Z \/ resp = login_failed)
            (post_logins bodies db).1.
Proof.
  intros Hm Hall. induction bodies as [|[b now] bodies IH]; [done|].
  apply Forall_cons in Hall as [Hb Hall]. cbn [fst] in Hb.
  destruct (post_login_unknown b now db e Hm Hb) as [Hdb Hr].
  rewrite post_logins_cons, Hdb. cbn [fst snd].
  destruct (IH Hall) as [IH1 IH2]. split; [done|]. by apply Forall_cons.
Qed.


End LoginMore.

(** ** More on the generator scripts *)

Section GeneratorsMore.

Implicit Types (w : world) (p dir q : path) (outs : list path).

Lemma keeps_readonly {A} outs (c : M A) : readonly c -> keeps_but outs c.
Proof. intros H w q n _ Hq. by rewrite H. Qed.

Lemma keeps_bind {A B} outs (c : M A) (f : A -> M B) :
  keeps_but outs c -> (forall a, keeps_but outs (f a)) -> keeps_but outs (bind c f).
Proof.
  intros Hc Hf w q n Hq Hn. unfold bind. specialize (Hc w q n Hq Hn).
  destruct (c w) as [[a|e] w1]; cbn [snd] in *; [by apply Hf | done].
Qed.

Lemma keeps_if {A} outs (b : bool) (c1 c2 : M A) :
  keeps_but outs c1 -> keeps_but outs c2 -> keeps_but outs (if b then c1 else c2).
Proof. by destruct b. Qed.

(** Making directories replaces nothing: it fails where a file stands. *)
Lemma keeps_make_dirs outs ps :
  (forall d, d ∈ ps -> d <> []) -> keeps_but outs (make_dirs ps).
Proof.
  intros Hne w q n _. revert w. induction ps as [|d ps IH]; intros w Hn; [done|].
  cbn [make_dirs]. assert (lookup_node w d = w !! d) as ->.
  { destruct d; [|done]. exfalso. apply (Hne []); [apply list_elem_of_here | done]. }
  assert (forall d', d' ∈ ps -> d' <> []) as Hne'.
  { intros d' Hd'. apply Hne. by apply list_elem_of_further. }
  destruct (w !! d) as [[c|]|] eqn:E; [done| |]; apply IH; try done.
  - destruct (decide (q = d)) as [->|Hqd]; [|by rewrite lookup_insert_ne].
    rewrite lookup_insert_eq. congruence.
  - rewrite lookup_insert_ne; [done|]. intros ->. congruence.
Qed.

Lemma keeps_mkdir_parents outs p : keeps_but outs (mkdir_parents p).
Proof. apply keeps_make_dirs, ancestors_not_root. Qed.

(** Writing a file replaces that file only. *)
Lemma keeps_write_text outs p content : p ∈ outs -> keeps_but outs (write_text p content).
Proof.
  intros Hp w q n Hq Hn. unfold write_text.
  destruct (lookup_node w (removelast p)) as [[c|]|]; [done| |done].
  destruct (lookup_node w p) as [[c|]|]; cbn [snd]; [|done|];
    (rewrite lookup_insert_ne; [done|]); by intros ->.
Qed.

Lemma keeps_emit outs client prompt language dir name :
  dir // name ∈ outs -> keeps_but outs (emit client prompt language dir name).
Proof.
  intros H. unfold emit. apply keeps_bind; [by apply keeps_readonly, readonly_lift|].
  intros raw. apply keeps_bind; [apply keeps_mkdir_parents|].
  intros _. by apply keeps_write_text.
Qed.

Lemma keeps_generate_api outs client fid cfg :
  api_file fid ∈ outs -> keeps_but outs (generate_api client fid cfg).
Proof.
  intros H. apply keeps_bind; [apply keeps_readonly, readonly_api_prompt|].
  intros prompt. by apply keeps_emit.
Qed.

Lemma keeps_generate_ui outs client fid cfg :
  ui_file fid ∈ outs -> keeps_but outs (generate_ui client fid cfg).
Proof.
  intros H. apply keeps_bind; [apply keeps_readonly, readonly_ui_prompt|].
  intros prompt. by apply keeps_emit.
Qed.

Lemma keeps_generate_test outs client fid cfg :
  test_file fid ∈ outs -> keeps_but outs (generate_test client fid cfg).
Proof.
  intros H. apply keeps_bind; [apply keeps_readonly, readonly_test_prompt|].
  intros prompt. by apply keeps_emit.
Qed.

Lemma keeps_generate_db outs client fid cfg :
  db_file fid ∈ outs -> keeps_but outs (generate_db client fid cfg).
Proof.
  intros H. apply keeps_bind; [apply keeps_readonly, readonly_db_prompt|].
  intros prompt. by apply keeps_emit.
Qed.

Lemma keeps_when outs (b : bool) (c : M unit) :
  keeps_but outs c -> keeps_but outs (when b c).
Proof. intros H. apply keeps_if; [done | by apply keeps_readonly, readonly_ret]. Qed.

Lemma readonly_generate_artifact client fid spec kind :
  readonly (generate_artifact client fid spec kind).
Proof.
  intros w. by rewrite (generate_artifact_result client client fid spec kind w w).
Qed.

Lemma keeps_save_artifact outs dir name data :
  dir // name ∈ outs -> keeps_but outs (save_artifact (dir // name) data).
Proof.
  intros H. rewrite save_artifact_unfold.
  apply keeps_bind; [apply keeps_mkdir_parents|]. intros _. by apply keeps_write_text.
Qed.

Lemma keeps_ssot_step outs client fid spec kind name :
  ssot_file fid name ∈ outs -> keeps_but outs (ssot_step client fid spec kind name).
Proof.
  intros H. apply keeps_bind; [apply keeps_readonly, readonly_generate_artifact|].
  intros data. by apply keeps_save_artifact.
Qed.

Ltac in_list := repeat first [apply list_elem_of_here | apply list_elem_of_further].

(** X16. Whether they end well or fail, the generation of a feature by
    generate_all.py and the run of generate_ssot_from_feature_spec.py keep
    every file and directory that is not one of their own outputs, the four
    generated files and the five artifact files: nothing else is overwritten
    or removed. *)
Theorem generation_keeps_other_files client (feature_id : string) modes has_key :
  keeps_but [api_file feature_id; ui_file feature_id; test_file feature_id;
             db_file feature_id]
            (generate_for_feature client feature_id modes)
  /\ keeps_but ((fun kn => ssot_file feature_id kn.2) <$> SSOT_ARTIFACTS)
               (ssot_main client has_key feature_id).
Proof.
  split.
  - unfold generate_for_feature.
    apply keeps_bind; [apply keeps_readonly, readonly_get_feature_config|].
    intros cfg.
    apply keeps_bind; [apply keeps_when, keeps_generate_api; in_list|]. intros _.
    apply keeps_bind; [apply keeps_when, keeps_generate_ui; in_list|]. intros _.
    apply keeps_bind; [apply keeps_when, keeps_generate_test; in_list|]. intros _.
    apply keeps_when, keeps_generate_db; in_list.
  - unfold ssot_main.
    apply keeps_bind; [apply keeps_readonly, readonly_path_exists|]. intros present.
    apply keeps_if; [apply keeps_readonly, readonly_raise|].
    apply keeps_if; [apply keeps_readonly, readonly_raise|].
    apply keeps_bind.
    { apply keeps_readonly. unfold load_yaml.
      apply readonly_bind; [apply readonly_read_text | intros ?; apply readonly_lift]. }
    intros spec. apply keeps_bind; [apply keeps_mkdir_parents|]. intros _.
    repeat (apply keeps_bind; [apply keeps_ssot_step; cbn; in_list | intros _]).
    apply keeps_ssot_step; cbn; in_list.
Qed.

(** A generator fails without a write when its prompt cannot be rendered or
    the service fails. *)
Lemma early_failure (pc : M str) client language dir name w :
  readonly pc ->
  (forall e, (pc w).1 = Err e ->
     bind pc (fun prompt => emit client prompt language dir name) w = (Err e, w))
  /\ (forall prompt e, (pc w).1 = Ok prompt -> client default_system prompt = Err e ->
        bind pc (fun prompt => emit client prompt language dir name) w = (Err e, w)).
Proof.
  intros Hro. split.
  - intros e He. unfold bind. by rewrite (readonly_run pc w Hro), He.
  - intros prompt e Hp He. unfold bind at 1.
    by rewrite (readonly_run pc w Hro), Hp, emit_unfold, He.
Qed.

(** X17. Each of the four generators of generate_all.py reads its
    inputs and asks the service before it creates anything: when the prompt
    cannot be rendered (a key of the configuration or a file is missing, a
    document does not parse) or the service fails, the generator raises that
    error and the file system is as before, with no directory made. *)
Theorem failed_generation_writes_nothing client (feature_id : string) cfg w pc gen :
  (pc, gen) ∈ generators client feature_id cfg ->
  (forall e, (pc w).1 = Err e -> gen w = (Err e, w))
  /\ (forall prompt e, (pc w).1 = Ok prompt ->
        client default_system prompt = Err e -> gen w = (Err e, w)).
Proof.
  unfold generators. intros H.
  repeat (apply elem_of_cons in H as [H|H]; [injection H as -> ->|]).
  - apply early_failure, readonly_api_prompt.
  - apply early_failure, readonly_ui_prompt.
  - apply early_failure, readonly_test_prompt.
  - apply early_failure, readonly_db_prompt.
  - by apply elem_of_nil in H.
Qed.

Lemma bind_ok_inv {A B} (c : M A) (f : A -> M B) w b w' :
  bind c f w = (Ok b, w') -> exists a w1, c w = (Ok a, w1) /\ f a w1 = (Ok b, w').
Proof.
  unfold bind. destruct (c w) as [[a|e] w1]; [|done]. intros H. by exists a, w1.
Qed.

Lemma generated_exists (pc : M str) client language dir name w w1 :
  readonly pc ->
  bind pc (fun prompt => emit client prompt language dir name) w = (Ok tt, w1) ->
  exists c, w1 !! (dir // name) = Some (File c).
Proof.
  intros Hro H. apply bind_ok_inv in H as (prompt & w0 & _ & H).
  rewrite emit_unfold in H. destruct (client default_system prompt) as [raw|e]; [|done].
  apply save_inv in H as [_ ->]. eexists. by rewrite lookup_insert_eq.
Qed.

Lemma path_div_inj p1 p2 (a b : string) : p1 // a = p2 // b -> p1 = p2 /\ a = b.
Proof. unfold path_div. intros H. by apply app_inj_tail in H. Qed.

Lemma kind_dirs_differ p1 p2 (k1 k2 n1 n2 : string) :
  k1 <> k2 -> p1 // k1 // n1 <> p2 // k2 // n2.
Proof.
  intros Hk H. apply path_div_inj in H as [H _]. by apply path_div_inj in H as [_ H].
Qed.

Lemma kept_file (c : M unit) out w q n :
  keeps_but [out] c -> q <> out -> w !! q = Some n -> (c w).2 !! q = Some n.
Proof.
  intros Hk Hq Hn. apply Hk; [|done]. intros Hin.
  apply elem_of_cons in Hin as [->|Hin]; [done | by apply elem_of_nil in Hin].
Qed.

(** X18. When the generation of a feature ends well, the file of every
    mode that was asked for is there: the later generators of the run did
    not touch it. *)
Theorem requested_modes_generated client (feature_id : string) modes w w' :
  generate_for_feature client feature_id modes w = (Ok tt, w') ->
  (has_mode "api" modes = true ->
   exists c, w' !! api_file feature_id = Some (File c))
  /\ (has_mode "ui" modes = true ->
      exists c, w' !! ui_file feature_id = Some (File c))
  /\ (has_mode "test" modes = true ->
      exists c, w' !! test_file feature_id = Some (File c))
  /\ (has_mode "db" modes = true ->
      exists c, w' !! db_file feature_id = Some (File c)).
Proof.
  intros H. unfold generate_for_feature in H.
  apply bind_ok_inv in H as (cfg & w0 & _ & H).
  apply bind_ok_inv in H as ([] & w1 & H1 & H).
  apply bind_ok_inv in H as ([] & w2 & H2 & H).
  apply bind_ok_inv in H as ([] & w3 & H3 & H4).
  assert (forall q n, q <> ui_file feature_id -> w1 !! q = Some n -> w2 !! q = Some n) as K2.
  { intros q n Hq Hn.
    pose proof (kept_file _ _ w1 q n
                  (keeps_when _ (has_mode "ui" modes) _
                     (keeps_generate_ui [ui_file feature_id] client feature_id cfg
                        ltac:(apply list_elem_of_here))) Hq Hn) as K.
    by rewrite H2 in K. }
  assert (forall q n, q <> test_file feature_id -> w2 !! q = Some n -> w3 !! q = Some n) as K3.
  { intros q n Hq Hn.
    pose proof (kept_file _ _ w2 q n
                  (keeps_when _ (has_mode "test" modes) _
                     (keeps_generate_test [test_file feature_id] client feature_id cfg
                        ltac:(apply list_elem_of_here))) Hq Hn) as K.
    by rewrite H3 in K. }
  assert (forall q n, q <> db_file feature_id -> w3 !! q = Some n -> w' !! q = Some n) as K4.
  { intros q n Hq Hn.
    pose proof (kept_file _ _ w3 q n
                  (keeps_when _ (has_mode "db" modes) _
                     (keeps_generate_db [db_file feature_id] client feature_id cfg
                        ltac:(apply list_elem_of_here))) Hq Hn) as K.
    by rewrite H4 in K. }
  repeat split; intros Hm; rewrite Hm in *; cbn [when] in *.
  - apply generated_exists in H1 as [c Hc]; [|apply readonly_api_prompt].
    exists c. apply K4, K3, K2; try (by apply kind_dirs_differ). exact Hc.
  - apply generated_exists in H2 as [c Hc]; [|apply readonly_ui_prompt].
    exists c. apply K4, K3; try (by apply kind_dirs_differ). exact Hc.
  - apply generated_exists in H3 as [c Hc]; [|apply readonly_test_prompt].
    exists c. apply K4; try (by apply kind_dirs_differ). exact Hc.
  - apply generated_exists in H4 as [c Hc]; [|apply readonly_db_prompt].
    by exists c.
Qed.

(** X19. Reading the configuration of a feature: when the index
    document parses to a mapping whose [features] entry is a mapping that
    holds the identifier, [get_feature_config] returns the block stored
    under it; when the document is empty, so that it parses to [None], the
    lookup raises AttributeError; when the document does not parse, it
    raises the error of the parser.  The file system is as before in each
    case. *)
Theorem feature_config_read (feature_id : string) w text :
  w !! SSOT_INDEX_PATH = Some (File text) ->
  (forall items fitems cfg,
     yaml_safe_load text = Ok (YMap items) ->
     assoc "features" items = Some (YMap fitems) ->
     assoc feature_id fitems = Some cfg ->
     get_feature_config feature_id w = (Ok cfg, w))
  /\ (yaml_safe_load text = Ok YNull ->
      get_feature_config feature_id w = (Err AttributeError, w))
  /\ (forall e, yaml_safe_load text = Err e ->
      get_feature_config feature_id w = (Err e, w)).
Proof.
  intros Hw.
  assert (get_feature_config feature_id w
          = bind (lift (yaml_safe_load text))
              (fun index =>
                 let* features := lift (get_or_empty index "features") in
                 let* found := lift (contains features feature_id) in
                 if negb found then raise (KeyError feature_id)
                 else lift (getitem features feature_id)) w) as ->.
  { unfold get_feature_config, bind at 1 3, lift at 3.
    by rewrite (load_ssot_index_ok w text Hw). }
  unfold bind at 1, lift at 1. split; [|split].
  - intros items fitems cfg -> Hf Hc. unfold bind, lift, raise. cbn [get_or_empty].
    rewrite Hf. cbn [default from_option id contains]. rewrite Hc.
    rewrite bool_decide_eq_true_2 by (by eexists). cbn [negb getitem]. by rewrite Hc.
  - by intros ->.
  - by intros e ->.
Qed.

(** X20. What [save_yaml] wrote, [load_yaml] reads back: after
    [save_yaml(path, data)] ended well, [load_yaml(path)] returns what
    [yaml.safe_load] makes of [yaml.safe_dump(data)], so [data] itself
    whenever the library reads back what it dumps. *)
Theorem saved_yaml_loads_back p data w w' :
  save_yaml p data w = (Ok tt, w') ->
  load_yaml p w' = (yaml_safe_load (yaml_safe_dump data), w')
  /\ (yaml_safe_load (yaml_safe_dump data) = Ok data -> load_yaml p w' = (Ok data, w')).
Proof.
  intros H.
  assert (load_yaml p w' = (yaml_safe_load (yaml_safe_dump data), w')) as Hload.
  { destruct p as [|a p0] using rev_ind.
    - unfold save_yaml, bind, mkdir_parents, write_text in H. by cbn in H.
    - clear IHp0. change (p0 ++ [a]) with (p0 // a) in *.
      unfold save_yaml in H. rewrite removelast_div in H.
      apply save_inv in H as [_ ->].
      unfold load_yaml, bind, read_text, lift.
      by rewrite lookup_node_div, lookup_insert_eq. }
  split; [done|]. intros E. by rewrite Hload, E.
Qed.

Lemma ssot_step_result client fid spec kind name w w1 :
  ssot_step client fid spec kind name w = (Ok tt, w1) ->
  exists data,
    (generate_artifact client fid spec kind w).1 = Ok data
    /\ w1 !! ssot_file fid name = Some (File (dumped data)).
Proof.
  intros H. apply bind_ok_inv in H as (data & w0 & Hg & H).
  exists data. split; [by rewrite Hg|].
  unfold ssot_file. rewrite save_artifact_unfold in H. apply save_inv in H as [_ ->].
  rewrite lookup_insert_eq. by destruct data.
Qed.

Lemma artifact_anywhere client fid spec kind w w0 :
  (generate_artifact client fid spec kind w).1
  = (generate_artifact client fid spec kind w0).1.
Proof. by rewrite (generate_artifact_result client client fid spec kind w0 w). Qed.

Lemma ssot_files_differ fid (n1 n2 : string) :
  n1 <> n2 -> ssot_file fid n1 <> ssot_file fid n2.
Proof. intros Hn H. by apply path_div_inj in H as [_ H]. Qed.

Lemma ssot_step_keeps client fid spec kind name w q n :
  q <> ssot_file fid name -> w !! q = Some n ->
  (ssot_step client fid spec kind name w).2 !! q = Some n.
Proof.
  intros Hq Hn. apply (kept_file _ (ssot_file fid name)); [|done|done].
  apply keeps_ssot_step, list_elem_of_here.
Qed.

(** X21. When generate_ssot_from_feature_spec.py ends well, the API key
    was set, the feature specification was read, and each of the five
    artifact files holds the dump of what [generate_artifact] returns for
    its kind from that specification: the later steps did not touch the
    files of the earlier ones. *)
Theorem ssot_main_writes_five client has_key (feature_id : string) w w' :
  ssot_main client has_key feature_id w = (Ok tt, w') ->
  has_key = true
  /\ exists spec,
       (load_yaml (SSOT_BASE_DIR ++ ["feature_specs";
                     (feature_id ++ "_feature_spec_add_lock.yaml")%string]) w).1 = Ok spec
       /\ forall kind name, (kind, name) ∈ SSOT_ARTIFACTS ->
            exists data,
              (generate_artifact client feature_id spec kind w).1 = Ok data
              /\ w' !! ssot_file feature_id name = Some (File (dumped data)).
Proof.
  intros H. unfold ssot_main in H.
  apply bind_ok_inv in H as (present & w0 & Hp & H).
  injection Hp as _ <-.
  destruct (negb present); [done|]. destruct has_key; [|done]. cbn [negb] in H.
  split; [done|].
  apply bind_ok_inv in H as (spec & w0 & Hspec & H).
  assert (w0 = w) as ->.
  { unfold load_yaml, bind, read_text, lift in Hspec.
    destruct (lookup_node w _) as [[c|]|]; [|done|done]. by injection Hspec. }
  exists spec. split; [by rewrite Hspec|].
  apply bind_ok_inv in H as ([] & wd & _ & H).
  apply bind_ok_inv in H as ([] & w1 & H1 & H).
  apply bind_ok_inv in H as ([] & w2 & H2 & H).
  apply bind_ok_inv in H as ([] & w3 & H3 & H).
  apply bind_ok_inv in H as ([] & w4 & H4 & H5).
  assert (forall (c : M unit) wa wb, c wa = (Ok tt, wb) -> (c wa).2 = wb) as Hsnd.
  { intros c wa wb E. by rewrite E. }
  apply ssot_step_result in H1 as (d1 & Hd1 & Hf1).
  pose proof (Hsnd _ _ _ H2) as E2. pose proof (Hsnd _ _ _ H3) as E3.
  pose proof (Hsnd _ _ _ H4) as E4. pose proof (Hsnd _ _ _ H5) as E5.
  apply ssot_step_result in H2 as (d2 & Hd2 & Hf2).
  apply ssot_step_result in H3 as (d3 & Hd3 & Hf3).
  apply ssot_step_result in H4 as (d4 & Hd4 & Hf4).
  apply ssot_step_result in H5 as (d5 & Hd5 & Hf5).
  intros kind name Hin. unfold SSOT_ARTIFACTS in Hin.
  repeat (apply elem_of_cons in Hin as [Hin|Hin]; [injection Hin as -> ->|]);
    [exists d1 | exists d2 | exists d3 | exists d4 | exists d5
    | by apply elem_of_nil in Hin];
    (split; [by erewrite artifact_anywhere|]).
  - rewrite <- E5. apply ssot_step_keeps; [by apply ssot_files_differ|].
    rewrite <- E4. apply ssot_step_keeps; [by apply ssot_files_differ|].
    rewrite <- E3. apply ssot_step_keeps; [by apply ssot_files_differ|].
    rewrite <- E2. apply ssot_step_keeps; [by apply ssot_files_differ|]. done.
  - rewrite <- E5. apply ssot_step_keeps; [by apply ssot_files_differ|].
    rewrite <- E4. apply ssot_step_keeps; [by apply ssot_files_differ|].
    rewrite <- E3. apply ssot_step_keeps; [by apply ssot_files_differ|]. done.
  - rewrite <- E5. apply ssot_step_keeps; [by apply ssot_files_differ|].
    rewrite <- E4. apply ssot_step_keeps; [by apply ssot_files_differ|]. done.
  - rewrite <- E5. apply ssot_step_keeps; [by apply ssot_files_differ|]. done.
  - done.
Qed.

(** X22. [generate_artifact] never writes; for a kind other than the
    five it knows it raises ValueError without asking the service; and
    what it returns is parsed JSON for the kind validation, parsed YAML for
    the four others. *)
Theorem artifact_by_kind client (feature_id : string) spec kind w :
  (generate_artifact client feature_id spec kind w).2 = w
  /\ (kind ∉ (fst <$> SSOT_ARTIFACTS) ->
      exists msg, generate_artifact client feature_id spec kind w
                  = (Err (ValueError msg), w))
  /\ (forall data, (generate_artifact client feature_id spec kind w).1 = Ok data ->
        kind ∈ (fst <$> SSOT_ARTIFACTS)
        /\ match data with
           | AJson _ => kind = "validation"
           | AYaml _ => kind <> "validation"
           end).
Proof.
  split; [apply readonly_generate_artifact|].
  assert (kind ∈ (fst <$> SSOT_ARTIFACTS) \/ system_messages kind = None) as Hk.
  { unfold system_messages, SSOT_ARTIFACTS. cbn [fmap list_fmap fst].
    destruct (String.eqb_spec kind "api") as [->|_]; [left; in_list|].
    destruct (String.eqb_spec kind "db_schema") as [->|_]; [left; in_list|].
    destruct (String.eqb_spec kind "rules") as [->|_]; [left; in_list|].
    destruct (String.eqb_spec kind "testcases") as [->|_]; [left; in_list|].
    destruct (String.eqb_spec kind "validation") as [->|_]; [left; in_list|].
    by right. }
  split.
  - intros Hnot. destruct Hk as [Hk|Hk]; [done|].
    unfold generate_artifact. rewrite Hk. by eexists.
  - intros data. unfold generate_artifact.
    destruct (system_messages kind) as [system|] eqn:Hs; [|done].
    destruct Hk as [Hk|Hk]; [|congruence].
    unfold bind, ssot_call_llm, lift, ret.
    destruct (client _ _) as [raw|e]; [|done].
    destruct (String.eqb_spec kind "validation") as [->|Hne].
    + destruct (json_loads _); [|done]. by intros [= <-].
    + destruct (yaml_safe_load _); [|done]. by intros [= <-].
Qed.

End GeneratorsMore.

(** ** The login page and the question client in front of the services *)

Section Clients.

Implicit Types (k : K) (s : mstate) (v q : str) (db : table) (now : Z).

Lemma m_bol k rs g : m Bol k (MState [] rs g) = k (MState [] rs g).
Proof. reflexivity. Qed.

Lemma m_wordb w k s :
  m (WordB w) k s
  = if xorb (is_word_at w (seen s)) (is_word_at w (rest s)) then k s else None.
Proof. reflexivity. Qed.

(** X23. The page's own check of the password lets through every
    password that the login API accepts. *)
Theorem page_accepts_api_passwords v :
  validate_password (Some v) = inr v -> ui_validate_password v = None.
Proof.
  intros H. destruct (accepted_password v H) as (Hlen & Hnl & H1 & H2 & H3 & H4).
  unfold ui_validate_password.
  destruct v as [|c t] eqn:Hv; [simpl in Hlen; lia|]. rewrite <- Hv in *. clear Hv c t.
  rewrite (proj2 (Nat.ltb_ge (length v) 8)) by lia.
  assert (exists x, match_ PASSWORD_REGEX v = Some x) as [x ->]; [|done].
  unfold match_, PASSWORD_REGEX, init. rewrite m_seq, m_bol.
  rewrite m_seq, lookahead_hit by done.
  rewrite m_seq, lookahead_hit by done.
  rewrite m_seq, lookahead_hit by done.
  rewrite m_seq, lookahead_hit by done.
  rewrite !m_seq, times_dot by done.
  eexists. apply m_star_greedy_chr. rewrite !rest_adv. cbn [rest].
  rewrite span_len_all.
  - cbn [m]. rewrite !rest_adv. cbn [rest]. by rewrite drop_all.
  - apply no_newline_dots. by apply existsb_drop.
Qed.

(** What the page makes of the answer of the login API. *)
Lemma call_login_backend now db email password :
  call_backend (login_backend now db) email password
  = Some (Rendered None None
            [if (status_code (post_login_api (mkLoginBody (Some email) (Some password))
                                now db).1 =? 200)%Z
             then unknown_error_flash else communication_error_flash]).
Proof.
  unfold call_backend, login_backend, post_login_api.
  destruct (parse_LoginRequest _) as [errors|req]; [reflexivity|].
  unfold serve_login, login_api.
  destruct (db !! req_email req) as [member|]; [|reflexivity].
  destruct (is_locked member); [reflexivity|].
  destruct (negb (checkpw _ _)); [by destruct (_ <=? _)%Z|].
  reflexivity.
Qed.

(** X24. With the login API of generated/login/api behind it, the login
    page never redirects to the home page.  When both fields pass the
    page's checks, the page is rendered again: with the message for an
    unknown error when the API answered 200, a successful login, and with
    the message for a communication error otherwise, also when the API
    answered 401 LOGIN_FAILED or ACCOUNT_LOCKED. *)
Theorem login_page_never_redirects now db form :
  (forall method endpoint,
     ui_login (login_backend now db) method form <> Redirect endpoint)
  /\ (ui_validate_email (strip (default [] (form_email form))) = None ->
      ui_validate_password (default [] (form_password form)) = None ->
      ui_login (login_backend now db) POST form
      = Rendered None None
          [if (status_code
                 (post_login_api
                    (mkLoginBody (Some (strip (default [] (form_email form))))
                                 (Some (default [] (form_password form))))
                    now db).1 =? 200)%Z
           then unknown_error_flash else communication_error_flash]).
Proof.
  split.
  - intros [|] endpoint; [done|]. unfold ui_login.
    destruct (ui_validate_email _), (ui_validate_password _); try done.
    by rewrite call_login_backend.
  - intros He Hp. unfold ui_login. by rewrite He, Hp, call_login_backend.
Qed.

(** No keyword can start at a character that matches none of the first
    letters s, i, u, d, t, e. *)
Lemma lit_i_miss c l k s :
  match rest s with x :: _ => ignorecase c x = false | [] => True end ->
  m (lit_i (c :: l)) k s = None.
Proof.
  destruct s as [sn [|x t] g]; cbn [rest lit_i]; intros H; rewrite m_seq.
  - apply m_chr_nil.
  - by rewrite m_chr_cons, H.
Qed.

Lemma no_keyword_search q :
  (forall x c, x ∈ q -> c ∈ [115; 105; 117; 100; 116; 101]%N -> ignorecase c x = false) ->
  search (Seq (WordB is_word)
      (Seq (Group 1
              (Alt (lit_i (py "select")) (Alt (lit_i (py "insert"))
              (Alt (lit_i (py "update")) (Alt (lit_i (py "delete"))
              (Alt (lit_i (py "drop")) (Alt (lit_i (py "truncate"))
              (Alt (lit_i (py "union")) (lit_i (py "exec"))))))))))
           (WordB is_word))) q = None.
Proof.
  intros H. apply search_at_none. intros j _.
  rewrite m_seq, m_wordb. destruct (xorb _ _); [|done].
  rewrite m_seq, m_group, !m_alt. cbn [rest].
  assert (forall c, c ∈ [115; 105; 117; 100; 116; 101]%N ->
            match drop j q with x :: _ => ignorecase c x = false | [] => True end) as Hj.
  { intros c Hc. destruct (drop j q) as [|x t] eqn:E; [done|].
    apply H; [|done]. rewrite <- (take_drop j q), E.
    apply elem_of_app. right. apply list_elem_of_here. }
  change (py "select") with (115%N :: py "elect").
  change (py "insert") with (105%N :: py "nsert").
  change (py "update") with (117%N :: py "pdate").
  change (py "delete") with (100%N :: py "elete").
  change (py "drop") with (100%N :: py "rop").
  change (py "truncate") with (116%N :: py "runcate").
  change (py "union") with (117%N :: py "nion").
  change (py "exec") with (101%N :: py "xec").
  rewrite !lit_i_miss; [done|..]; cbn [rest]; apply Hj;
    repeat first [apply list_elem_of_here | apply list_elem_of_further].
Qed.

Lemma search_chr_none (p : N -> bool) q :
  existsb p q = false -> search (Chr p) q = None.
Proof.
  unfold search. generalize (@nil N). induction q as [|c t IH]; intros sn; [done|].
  cbn [existsb search_at m rest]. intros [-> H]%orb_false_iff. by apply IH.
Qed.

(** X25. The question client and the question server together: when
    the server decodes the token that the client encodes to the same
    subject, /ask relays the 200 answer of /recommend for the member
    user123 and the client's question, which passes the validation and
    the screening of the server unchanged. *)
Theorem ask_relays_recommendation :
  jwt_decode (strip (client_jwt_encode ask_mbr_id)) = JwtPayload (Some ask_mbr_id) ->
  (forall c x, between 44032 55203 x = true -> ignorecase_nonascii c x = false) ->
  ask_recommend (fun r => inl (post_recommend r))
  = AskResponse 200
      (Relayed (CRecommend ask_mbr_id ask_question (json_dumps_question ask_question)
                           (dummy_answer ask_mbr_id ask_question))).
Proof.
  intros Hjwt Hcase.
  assert (detect_dangerous_pattern ask_question = Return tt) as Hd.
  { unfold detect_dangerous_pattern, DANGEROUS_PATTERNS. cbn [detect_in].
    rewrite no_keyword_search.
    - by rewrite search_chr_none.
    - intros x c Hx Hc. unfold ask_question in Hx.
      repeat (apply elem_of_cons in Hx as [->|Hx]);
        try (by apply elem_of_nil in Hx);
        repeat (apply elem_of_cons in Hc as [->|Hc]);
        try (by apply elem_of_nil in Hc);
        unfold ignorecase; rewrite ?Hcase by reflexivity; reflexivity. }
  assert (parse_QuestionRequest (Some ask_question) = inr ask_question) as Hq
    by (vm_compute; reflexivity).
  unfold ask_recommend, client_create_access_token.
  change (match ask_mbr_id with [] => _ | _ :: _ => _ end)
    with (match post_recommend
                  (mkRequest (Some (py "Bearer " ++ client_jwt_encode ask_mbr_id))
                             (Some ask_question)) with
          | resp => AskResponse (status_code resp) (Relayed (body resp))
          end).
  unfold post_recommend. cbn [authorization question].
  rewrite get_current_user_bearer by apply startswith_app.
  change (drop 7 (py "Bearer " ++ client_jwt_encode ask_mbr_id))
    with (client_jwt_encode ask_mbr_id).
  rewrite Hjwt. change ask_mbr_id with (117%N :: py "ser123") at 1. cbv beta iota.
  change (117%N :: py "ser123") with ask_mbr_id.
  rewrite Hq. unfold recommend. rewrite Hd. cbn [answer_of status_code body].
  by rewrite sanitize_safe by (vm_compute; reflexivity).
Qed.

End Clients.

(** ** lint_ssot.py *)

Section Lint.

Implicit Types (w : world) (out : list report) (cfg : yaml).

Hypothesis yaml_errors : forall text, yaml_safe_load text <> Err SystemExit.
Hypothesis json_errors : forall text, json_loads text <> Err SystemExit.

Lemma tame_rlift {A} (r : result A) : tame_result r -> tame (rlift r).
Proof. intros H w out e out' [= -> _]. by apply H. Qed.

Lemma tame_rret {A} (a : A) : tame (rret a).
Proof. by intros w out e out'. Qed.

Lemma tame_print line : tame (print line).
Proof. by intros w out e out'. Qed.

Lemma tame_rbind {A B} (c : R A) (f : A -> R B) :
  tame c -> (forall a, tame (f a)) -> tame (rbind c f).
Proof.
  intros Hc Hf w out e out'. unfold rbind.
  destruct (c w out) as [[a|e0] out0] eqn:E.
  - apply Hf.
  - intros [= <- <-]. by apply (Hc w out e0 out0).
Qed.

Lemma tame_if {A} (b : bool) (c1 c2 : R A) : tame c1 -> tame c2 -> tame (if b then c1 else c2).
Proof. by destruct b. Qed.

Lemma tame_getitem y key : tame_result (getitem y key).
Proof.
  intros e. destruct y as [| | | | |items]; try (by intros [= <-]).
  cbn [getitem]. destruct (assoc key items); [done | by intros [= <-]].
Qed.

Lemma tame_resolve_path y : tame_result (resolve_path y).
Proof. intros e. destruct y; intros [= ?]; by subst. Qed.

Lemma tame_yget y key dflt : tame_result (yget y key dflt).
Proof. intros e. destruct y; intros [= ?]; by subst. Qed.

Lemma tame_keys y : tame_result (keys y).
Proof. intros e. destruct y; intros [= ?]; by subst. Qed.

Lemma tame_iterate y : tame_result (iterate y).
Proof. intros e. destruct y; intros [= ?]; by subst. Qed.

Lemma tame_and_then {A B} (r : result A) (f : A -> result B) :
  tame_result r -> (forall a, tame_result (f a)) -> tame_result (and_then r f).
Proof. intros Hr Hf e. destruct r as [a|e0]; [exact (Hf a e)|].
  intros [= <-]. by apply (Hr e0).
Qed.

Lemma tame_first_post_fields paths : tame_result (first_post_fields paths).
Proof.
  destruct paths as [| | | | |[|[first_path spec] more]]; try (by intros e [= <-]).
  cbn [first_post_fields].
  repeat (apply tame_and_then; [apply tame_yget | intros ?]).
  apply tame_and_then; [apply tame_keys | intros ?]. by intros e.
Qed.

Lemma tame_read_text p : tame (reading (read_text p)).
Proof.
  intros w out e out'. unfold reading, read_text.
  destruct (lookup_node w p) as [[c|]|]; cbn [fst]; by intros [= <- _].
Qed.

Lemma tame_load_yaml p : tame (reading (load_yaml p)).
Proof.
  intros w out e out'. unfold reading, load_yaml, bind, read_text, lift.
  destruct (lookup_node w p) as [[c|]|]; cbn [fst]; try (by intros [= <- _]).
  intros [= H _]. destruct e; try done. by apply yaml_errors in H.
Qed.

Lemma tame_load_json p : tame (reading (load_json p)).
Proof.
  intros w out e out'. unfold reading, load_json, bind, read_text, lift, ret.
  destruct (lookup_node w p) as [[c|]|]; cbn [fst]; try (by intros [= <- _]).
  destruct (json_loads c) as [obj|e0] eqn:E; cbn [fst]; [done|].
  intros [= <- _]. destruct e0; try done. by apply json_errors in E.
Qed.

Ltac tame_tac :=
  repeat first
    [ apply tame_print | apply tame_rret
    | apply tame_load_yaml | apply tame_load_json
    | apply tame_rlift;
      first [ apply tame_getitem | apply tame_resolve_path | apply tame_yget
            | apply tame_keys | apply tame_iterate | apply tame_first_post_fields ]
    | apply tame_if
    | apply tame_rbind; [|intros ?] ].

Lemma tame_lint_api_vs_validation fid cfg : tame (lint_api_vs_validation fid cfg).
Proof. unfold lint_api_vs_validation. tame_tac. Qed.

Lemma tame_lint_testcases fields tcs : tame (lint_testcases fields tcs).
Proof. induction tcs as [|tc tcs IH]; cbn [lint_testcases]; tame_tac. exact IH. Qed.

Lemma tame_lint_api_vs_testcases fid cfg : tame (lint_api_vs_testcases fid cfg).
Proof. unfold lint_api_vs_testcases. tame_tac. apply tame_lint_testcases. Qed.

(** A [try] whose handler prints survives what its body raises. *)
Lemma try_except_survives (c : R unit) (line : exn -> report) w out :
  tame c -> exists out', try_except c (fun e => print (line e)) w out = (Ok tt, out').
Proof.
  intros Hc. unfold try_except. destruct (c w out) as [[[]|e] out0] eqn:E.
  - by eexists.
  - rewrite (Hc w out e out0 E). by eexists.
Qed.

Lemma truthy_path y : path_entry_ok y = true -> truthy_value y = true -> exists s, y = YStr s.
Proof.
  destruct y as [| | |s| |]; cbn [path_entry_ok]; try (by intros ->%negb_true_iff).
  intros _ _. by exists s.
Qed.

Lemma check_paths_survives entries :
  forallb (fun kv => path_entry_ok kv.2) entries = true ->
  forall w out, exists out', check_paths entries w out = (Ok tt, out').
Proof.
  induction entries as [|[label rel] entries IH]; intros H w out; [by eexists|].
  cbn [forallb snd] in H. apply andb_true_iff in H as [Hrel H].
  cbn [check_paths]. destruct (truthy_value rel) eqn:Ht; cbn [negb].
  - destruct (truthy_path rel Hrel Ht) as [s ->].
    unfold rbind at 1, rlift. cbn [resolve_path].
    unfold rbind at 1, reading, path_exists. cbn [fst].
    unfold rbind at 1, print. by apply IH.
  - unfold rbind at 1, print. by apply IH.
Qed.

Lemma assoc_forall (P : string * yaml -> bool) key items v :
  forallb P items = true -> assoc key items = Some v -> exists k, P (k, v) = true.
Proof.
  induction items as [|[k' v'] items IH]; [done|]. cbn [forallb assoc].
  intros [H1 H2]%andb_true_iff. destruct (String.eqb key k').
  - intros [= <-]. by exists k'.
  - by apply IH.
Qed.

Lemma design_paths_survives ditems dks :
  forallb (fun kv => path_entry_ok kv.2) ditems = true ->
  forall w out, exists entries,
    design_paths (YMap ditems) dks w out = (Ok entries, out)
    /\ forallb (fun kv => path_entry_ok kv.2) entries = true.
Proof.
  intros Hd. induction dks as [|dk dks IH]; intros w out; [by exists []|].
  cbn [design_paths]. unfold rbind at 1, rlift. cbn [contains].
  destruct (assoc dk ditems) as [v|] eqn:Ev.
  - rewrite bool_decide_eq_true_2 by (by eexists).
    unfold rbind at 1 2, rret. cbn [getitem]. rewrite Ev.
    destruct (IH w out) as (entries & Hi & He). unfold rbind. rewrite Hi.
    eexists. split; [reflexivity|]. cbn [app forallb snd]. rewrite He, andb_true_r.
    by destruct (assoc_forall _ _ _ _ Hd Ev) as [k Hk].
  - rewrite bool_decide_eq_false_2 by (by intros [? ?]).
    unfold rbind at 1 2, rret. destruct (IH w out) as (entries & Hi & He).
    unfold rbind. rewrite Hi. by exists entries.
Qed.

Lemma check_files_exist_survives fid cfg :
  cfg_ok cfg = true ->
  forall w out, exists out', check_files_exist fid cfg w out = (Ok tt, out').
Proof.
  destruct cfg as [| | | | |items]; try done. cbn [cfg_ok].
  intros [[H5 Hd]%andb_true_iff Hp]%andb_true_iff w out.
  unfold check_files_exist. unfold rbind at 1, print.
  do 5 (unfold rbind at 1; cbn [rlift yget]).
  unfold rbind at 1. cbn [rlift yget].
  destruct (default (YMap []) (assoc "design" items)) as [| | | | |ditems]; try done.
  cbn [paths_ok] in Hd.
  destruct (design_paths_survives ditems ["components"; "flow"; "tokens"] Hd w
              (out ++ [CheckHeader fid])) as (design & Hdesign & Hdok).
  unfold rbind at 1. rewrite Hdesign.
  unfold rbind at 1. cbn [rlift yget].
  destruct (default (YMap []) (assoc "prompts" items)) as [| | | | |pitems]; try done.
  cbn [paths_ok] in Hp.
  unfold rbind at 1. cbn [rlift items_of].
  apply check_paths_survives.
  cbn [forallb] in H5. rewrite !andb_true_iff in H5.
  destruct H5 as (H1 & H2 & H3 & H4 & H5 & _).
  cbn [app forallb snd]. rewrite H1, H2, H3, H4, H5. cbn [andb].
  rewrite forallb_app, Hdok. cbn [andb].
  rewrite forallb_forall in *. intros [label rel] Hin.
  apply in_map_iff in Hin as ([k v] & [= <- <-] & Hin). by apply (Hp (k, v)).
Qed.

(** A feature with a configuration block as meant is gone through, and
    the loop goes on. *)
Lemma lint_features_step fid cfg more :
  cfg_ok cfg = true ->
  forall w out, exists out',
    lint_features ((fid, cfg) :: more) w out = lint_features more w out'.
Proof.
  intros Hcfg w out.
  cbn [lint_features]. do 3 (unfold rbind at 1, print).
  destruct (check_files_exist_survives fid cfg Hcfg w (((out ++ [Rule]) ++ [FeatureTitle fid]) ++ [Rule]))
    as [out1 H1].
  unfold rbind at 1. rewrite H1.
  destruct cfg as [| | | | |items]; try done.
  do 2 (unfold rbind at 1; cbn [rlift yget]).
  assert (exists out2,
            (if truthy_value (default YNull (assoc "api_spec" items))
                && truthy_value (default YNull (assoc "validation" items))
             then try_except (lint_api_vs_validation fid (YMap items))
                             (fun e => print (ValidationError e))
             else rret tt) w out1 = (Ok tt, out2)) as [out2 H2].
  { destruct (_ && _); [|by eexists].
    apply try_except_survives, tame_lint_api_vs_validation. }
  unfold print in H2. unfold rbind at 1. rewrite H2.
  unfold rbind at 1. cbn [rlift yget].
  assert (exists out3,
            (if truthy_value (default YNull (assoc "api_spec" items))
                && truthy_value (default YNull (assoc "testcases" items))
             then try_except (lint_api_vs_testcases fid (YMap items))
                             (fun e => print (TestcasesError e))
             else rret tt) w out2 = (Ok tt, out3)) as [out3 H3].
  { destruct (_ && truthy_value (default YNull (assoc "testcases" items)));
      [|by eexists].
    apply try_except_survives, tame_lint_api_vs_testcases. }
  unfold print in H3. unfold rbind at 1. rewrite H3. by exists out3.
Qed.


Lemma check_files_exist_stops fid cfg w out :
  is_mapping cfg = false ->
  check_files_exist fid cfg w out = (Err AttributeError, out ++ [CheckHeader fid]).
Proof. by destruct cfg. Qed.

Lemma lint_features_stops good fid cfg more :
  forallb (fun kv => cfg_ok kv.2) good = true -> is_mapping cfg = false ->
  forall w out, exists out',
    lint_features (good ++ (fid, cfg) :: more) w out
    = (Err AttributeError, out' ++ [Rule; FeatureTitle fid; Rule; CheckHeader fid]).
Proof.
  intros Hgood Hcfg. induction good as [|[gid gcfg] good IH]; intros w out.
  - exists out. cbn [app lint_features]. do 3 (unfold rbind at 1, print).
    unfold rbind at 1. rewrite check_files_exist_stops by done.
    by rewrite <- !app_assoc.
  - cbn [forallb snd] in Hgood. apply andb_true_iff in Hgood as [Hg Hgood].
    rewrite <- app_comm_cons.
    destruct (lint_features_step gid gcfg (good ++ (fid, cfg) :: more) Hg w out)
      as [out1 ->].
    by apply IH.
Qed.


(** X27. The [try] of [lint_all] does not cover [check_files_exist]:
    at the first feature whose configuration block is not a mapping, an
    empty block for one, the run ends with AttributeError after the title
    of that feature and the header of the check, and the features after it
    are not gone through. *)
Theorem lint_stops_at_malformed_feature w text items good fid cfg more :
  w !! SSOT_INDEX_PATH = Some (File text) ->
  yaml_safe_load text = Ok (YMap items) ->
  assoc "features" items = Some (YMap (good ++ (fid, cfg) :: more)) ->
  forallb (fun kv => cfg_ok kv.2) good = true ->
  is_mapping cfg = false ->
  exists out,
    lint_all w []
    = (Err AttributeError, out ++ [Rule; FeatureTitle fid; Rule; CheckHeader fid]).
Proof.
  intros Hw Hy Hf Hok Hcfg. unfold lint_all, rbind at 1, reading.
  rewrite (load_ssot_index_ok w text Hw), Hy. cbn [fst].
  unfold rbind at 1. cbn [rlift yget]. rewrite Hf. cbn [default from_option id].
  assert (truthy_value (YMap (good ++ (fid, cfg) :: more)) = true) as ->
    by (by destruct good).
  cbn [negb]. unfold rbind at 1. cbn [rlift items_of].
  by apply lint_features_stops.
Qed.

End Lint.

End Model.

(** * Instances *)

Lemma longer_tag_taken_for_language_witness :
  0 < length (py "python")
  /\ tagchar 51 = true
  /\ find (fence ++ py "python")
          ([] ++ fence ++ py "python" ++ (51%N :: py (LF ++ "A" ++ LF)) ++ fence
             ++ py (LF ++ "```python" ++ LF ++ "B" ++ LF ++ "```"))
     = Some (length ([] : str))
  /\ find fence ((51%N :: py (LF ++ "A" ++ LF)) ++ fence)
     = Some (length (51%N :: py (LF ++ "A" ++ LF)))
  /\ py ("```python3" ++ LF ++ "A" ++ LF ++ "```" ++ LF ++ "```python" ++ LF ++ "B" ++ LF ++ "```")
     = [] ++ fence ++ py "python" ++ (51%N :: py (LF ++ "A" ++ LF)) ++ fence
          ++ py (LF ++ "```python" ++ LF ++ "B" ++ LF ++ "```")
  /\ extract_code_block
       ([] ++ fence ++ py "python" ++ (51%N :: py (LF ++ "A" ++ LF)) ++ fence
          ++ py (LF ++ "```python" ++ LF ++ "B" ++ LF ++ "```"))
       (Some (py "python"))
     = strip (51%N :: py (LF ++ "A" ++ LF))
  /\ strip (51%N :: py (LF ++ "A" ++ LF)) = py ("3" ++ LF ++ "A").
Proof.
  split; [simpl; lia|]. split; [vm_compute; reflexivity|].
  split; [vm_compute; reflexivity|]. split; [vm_compute; reflexivity|].
  split; [vm_compute; reflexivity|].
  split; [|vm_compute; reflexivity].
  apply (longer_tag_taken_for_language (py "python") 51%N (py (LF ++ "A" ++ LF)) []
           (py (LF ++ "```python" ++ LF ++ "B" ++ LF ++ "```")));
    [simpl; lia | vm_compute; reflexivity | vm_compute; reflexivity
    | vm_compute; reflexivity].
Defined.

Lemma fallback_exactly_without_fence_witness :
  has_closed_block (py "  plain answer ") = false
  /\ extract_block (py "  plain answer ") = strip (py "  plain answer ")
  /\ find fence (py "  plain answer ") = None
  /\ extract_code_block (py "  plain answer ") None = strip (py "  plain answer ")
  /\ has_closed_block (py ("```sql" ++ LF ++ "x")) = false
  /\ find (fence ++ py "python") (py ("```sql" ++ LF ++ "x")) = None
  /\ extract_code_block (py ("```sql" ++ LF ++ "x")) (Some (py "python"))
     = strip (py ("```sql" ++ LF ++ "x")).
Proof.
  destruct (fallback_exactly_without_fence (py "  plain answer ")) as (H1 & H2 & _);
    [vm_compute; reflexivity|].
  destruct (fallback_exactly_without_fence (py ("```sql" ++ LF ++ "x"))) as (_ & _ & H3);
    [vm_compute; reflexivity|].
  split; [vm_compute; reflexivity|]. split; [exact H1|].
  split; [vm_compute; reflexivity|].
  split; [apply (proj2 H2); vm_compute; reflexivity|].
  split; [vm_compute; reflexivity|]. split; [vm_compute; reflexivity|].
  apply (proj2 (H3 (py "python") ltac:(simpl; lia))). vm_compute; reflexivity.
Defined.

(** C5 as stated fails on a fence that is never closed: the text holds no
    fenced block, and the extractor returns what follows the fence, not the
    whole text. *)
Lemma unclosed_fence_not_whole_text :
  (has_closed_block (py "a ``` b") = false
   /\ extract_code_block (py "a ``` b") None = py "b"
   /\ strip (py "a ``` b") = py "a ``` b"
   /\ extract_code_block (py "a ``` b") None <> strip (py "a ``` b"))
  /\ (has_closed_block (py "use ```python to open a block") = false
      /\ extract_code_block (py "use ```python to open a block") (Some (py "python"))
         = py "to open a block"
      /\ extract_code_block (py "use ```python to open a block") (Some (py "python"))
         <> strip (py "use ```python to open a block")).
Proof.
  repeat split; try (vm_compute; reflexivity); vm_compute; discriminate.
Qed.

Lemma extractors_agree_iff_closed_witness :
  first_fence_closed (py ("```yaml" ++ LF ++ "a: 1" ++ LF ++ "```")) = true
  /\ extract_code_block (py ("```yaml" ++ LF ++ "a: 1" ++ LF ++ "```")) None
     = extract_block (py ("```yaml" ++ LF ++ "a: 1" ++ LF ++ "```")).
Proof.
  split; [vm_compute; reflexivity|].
  apply (proj1 (extractors_agree_iff_closed (py ("```yaml" ++ LF ++ "a: 1" ++ LF ++ "```")))).
  vm_compute; reflexivity.
Defined.

(** C6 as stated fails on a fence that is never closed. *)
Lemma extractors_differ_unclosed :
  extract_code_block (py ("```yaml" ++ LF ++ "a: 1")) None = py "a: 1"
  /\ extract_block (py ("```yaml" ++ LF ++ "a: 1")) = py ("```yaml" ++ LF ++ "a: 1")
  /\ extract_code_block (py ("```yaml" ++ LF ++ "a: 1")) None
     <> extract_block (py ("```yaml" ++ LF ++ "a: 1")).
Proof.
  repeat split; try (vm_compute; reflexivity). vm_compute. discriminate.
Qed.

Lemma validated_question_echoed_witness :
  parse_QuestionRequest (Some (py "  hello? ")) = inr (py "hello?")
  /\ sanitize_question (py "hello?") = py "hello?".
Proof.
  split; [vm_compute; reflexivity|].
  apply (validated_question_echoed demo_jwt_decode (fun q => q) (fun _ => false)
           (fun _ _ => false) (py "  hello? ") (py "hello?")).
  vm_compute; reflexivity.
Defined.

Lemma unknown_feature_or_missing_index_witness :
  demo_world !! SSOT_INDEX_PATH ["base"] = Some (File (py "features: ..."))
  /\ assoc "signup" [("login", demo_cfg)] = None
  /\ get_feature_config (fun _ => Ok demo_index) ["base"] "signup" demo_world
     = (Err (KeyError "signup"), demo_world)
  /\ (∅ : world) !! SSOT_INDEX_PATH ["base"] = None
  /\ get_feature_config (fun _ => Ok demo_index) ["base"] "signup" ∅
     = (Err FileNotFoundError, ∅).
Proof.
  split; [vm_compute; reflexivity|]. split; [vm_compute; reflexivity|].
  split.
  - apply (proj1 (unknown_feature_or_missing_index unit (fun _ => Ok demo_index)
                    (fun _ => Ok tt) (fun _ => []) demo_format ["base"] "signup" demo_world)
             (py "features: ...") [("features", YMap [("login", demo_cfg)])]
             [("login", demo_cfg)]);
      vm_compute; reflexivity.
  - split; [vm_compute; reflexivity|].
    apply (proj2 (unknown_feature_or_missing_index unit (fun _ => Ok demo_index)
                    (fun _ => Ok tt) (fun _ => []) demo_format ["base"] "signup" ∅)).
    vm_compute; reflexivity.
Defined.

Lemma artifacts_written_at_fixed_paths_witness :
  demo_client default_system (py "DDL for {feature_id}") = Ok demo_sql
  /\ (db_prompt demo_format ["base"] "login" demo_cfg demo_world).1
     = Ok (py "DDL for {feature_id}")
  /\ can_write (GENERATED_DIR ["base"] // "login" // "db") "login_schema.sql" demo_world
     = true
  /\ written (generate_db demo_format ["base"] demo_client "login" demo_cfg) demo_world
       ["base"; "generated"; "login"; "db"; "login_schema.sql"]
       (py "CREATE TABLE t (id INT);").
Proof.
  split; [reflexivity|]. split; [vm_compute; reflexivity|].
  split; [vm_compute; reflexivity|].
  apply (proj2 (proj2 (proj2
           (artifacts_written_at_fixed_paths unit (fun _ => Ok tt) (fun _ => [])
              demo_format ["base"] demo_client "login" demo_cfg demo_world
              (py "DDL for {feature_id}") demo_sql eq_refl))));
    vm_compute; reflexivity.
Defined.

(** C8 as stated fails for the db mode: the schema goes to
    login_schema.sql, and nothing is written to login_db.sql. *)
Lemma db_artifact_not_named_by_mode :
  (generate_db demo_format ["base"] demo_client "login" demo_cfg demo_world).1 = Ok tt
  /\ (generate_db demo_format ["base"] demo_client "login" demo_cfg demo_world).2
       !! ["base"; "generated"; "login"; "db"; "login_schema.sql"]
     = Some (File (py "CREATE TABLE t (id INT);"))
  /\ (generate_db demo_format ["base"] demo_client "login" demo_cfg demo_world).2
       !! ["base"; "generated"; "login"; "db"; "login_db.sql"] = None.
Proof. repeat split; vm_compute; reflexivity. Qed.

Lemma regeneration_is_idempotent_witness :
  (generate_db demo_format ["base"] demo_client "login" demo_cfg demo_world).1 = Ok tt
  /\ generate_db demo_format ["base"] demo_client "login" demo_cfg
       (generate_db demo_format ["base"] demo_client "login" demo_cfg demo_world).2
     = (Ok tt, (generate_db demo_format ["base"] demo_client "login" demo_cfg demo_world).2).
Proof.
  split; [vm_compute; reflexivity|].
  apply (proj1 (proj2 (proj2 (proj2
           (regeneration_is_idempotent unit (fun _ => Ok demo_index) (fun _ => [])
              (fun _ => Ok tt) (fun _ => []) demo_format ["base"] ["ssot"]
              demo_client demo_client "login" demo_cfg demo_world
              (generate_db demo_format ["base"] demo_client "login" demo_cfg
                 demo_world).2)))));
    [apply pair_fst; vm_compute; reflexivity
    | vm_compute; reflexivity | intros; reflexivity].
Defined.

Lemma lockout_never_reached_witness :
  (forall v : str, (fun _ : str => false) v = false)
  /\ (post_logins (fun _ => false) demo_checkpw (fun sub _ _ => sub) (fun _ => false)
        (replicate 5 (mkLoginBody (Some (py "user1@example.com")) (Some (py "WrongPass!1")), 0%Z)
           ++ [(mkLoginBody (Some (py "user1@example.com")) (Some (py "Pass@word1")), 9%Z)])
        {[ py "user1@example.com" := demo_member ]}).2
     = {[ py "user1@example.com" := demo_member ]}
  /\ forall resp,
       resp ∈ (post_logins (fun _ => false) demo_checkpw (fun sub _ _ => sub)
                 (fun _ => false)
                 (replicate 5 (mkLoginBody (Some (py "user1@example.com"))
                                 (Some (py "WrongPass!1")), 0%Z)
                    ++ [(mkLoginBody (Some (py "user1@example.com"))
                           (Some (py "Pass@word1")), 9%Z)])
                 {[ py "user1@example.com" := demo_member ]}).1 ->
       status_code resp = 422%Z.
Proof.
  split; [reflexivity|].
  destruct (lockout_never_reached (fun _ => false) demo_checkpw (fun sub _ _ => sub)
              (fun _ => false)
              (replicate 5 (mkLoginBody (Some (py "user1@example.com"))
                              (Some (py "WrongPass!1")), 0%Z)
                 ++ [(mkLoginBody (Some (py "user1@example.com"))
                        (Some (py "Pass@word1")), 9%Z)])
              ({[ py "user1@example.com" := demo_member ]} : gmap (list N) Member))
    as (H1 & _ & H3); [reflexivity|].
  split; [exact H1 | exact H3].
Defined.

(** The route function on requests that passed validation, with a validator
    of emails that lets the address through: four failures, the lock, and
    the right password refused. *)
Example lockout_on_validated_requests :
  exists db' m',
    serve_logins demo_checkpw (fun sub _ _ => sub)
      (submission (py "user1@example.com")
         <$> (replicate 5 (py "WrongPass!1", 0%Z) ++ [(py "Pass@word1", 9%Z)]))
      {[ py "user1@example.com" := demo_member ]}
    = (replicate 4 login_failed ++ [account_locked]
         ++ replicate (length [(py "Pass@word1", 9%Z)]) account_locked, db')
    /\ db' !! py "user1@example.com" = Some m' /\ is_locked m' = true.
Proof.
  destruct (lockout_after_five_failures demo_checkpw (fun sub _ _ => sub)
              (py "user1@example.com") demo_member
              ({[ py "user1@example.com" := demo_member ]} : gmap (list N) Member)
              (replicate 5 (py "WrongPass!1", 0%Z)) [(py "Pass@word1", 9%Z)])
    as [H _];
    [vm_compute; reflexivity | reflexivity | reflexivity | reflexivity
    | vm_compute; reflexivity | exact H].
Qed.



(** The cases of login_test.py on the route function, for requests that
    passed validation and the account of [demo_member]. *)
Example login_test_cases :
  (serve_login demo_checkpw (fun sub _ _ => sub)
     (mkLoginRequest (py "user1@example.com") (py "Pass@word1")) 7
     {[ py "user1@example.com" := demo_member ]}).1
  = Response 200 (CLogin (py "u1") (py "u1"))
  /\ (serve_login demo_checkpw (fun sub _ _ => sub)
        (mkLoginRequest (py "user1@example.com") (py "WrongPass!1")) 7
        {[ py "user1@example.com" := demo_member ]}).1
     = login_failed
  /\ (serve_login demo_checkpw (fun sub _ _ => sub)
        (mkLoginRequest (py "notfound@example.com") (py "Pass@word1")) 7
        {[ py "user1@example.com" := demo_member ]}).1
     = login_failed
  /\ validate_password (fun _ => false) (Some (py "Pass@word1")) = inr (py "Pass@word1")
  /\ validate_password (fun _ => false) (Some (py "WrongPass!1")) = inr (py "WrongPass!1").
Proof. repeat split; vm_compute; reflexivity. Qed.

(** ** Instances of the further properties *)

Lemma closed_block_extracted_witness :
  find fence (py ("Here:" ++ LF ++ "```yaml" ++ LF ++ "a: 1" ++ LF ++ "```")) = Some 6
  /\ find fence (drop (6 + 3) (py ("Here:" ++ LF ++ "```yaml" ++ LF ++ "a: 1" ++ LF ++ "```")))
     = Some 10
  /\ extract_block (py ("Here:" ++ LF ++ "```yaml" ++ LF ++ "a: 1" ++ LF ++ "```"))
     = py "a: 1"
  /\ extract_code_block (py ("Here:" ++ LF ++ "```yaml" ++ LF ++ "a: 1" ++ LF ++ "```")) None
     = py "a: 1".
Proof.
  split; [vm_compute; reflexivity|]. split; [vm_compute; reflexivity|].
  destruct (closed_block_extracted
              (py ("Here:" ++ LF ++ "```yaml" ++ LF ++ "a: 1" ++ LF ++ "```")) 6 10)
    as [H1 H2]; [vm_compute; reflexivity | vm_compute; reflexivity |].
  split; [rewrite H1 | rewrite H2]; vm_compute; reflexivity.
Defined.

Lemma unclosed_fence_extracted_witness :
  (find fence (py ("```yaml" ++ LF ++ "a: 1 ")) = Some 0
   /\ find fence (drop (0 + 3) (py ("```yaml" ++ LF ++ "a: 1 "))) = None
   /\ extract_code_block (py ("```yaml" ++ LF ++ "a: 1 ")) None = py "a: 1")
  /\ (find (fence ++ py "python") (py ("Hi" ++ LF) ++ fence ++ py "python" ++ py (LF ++ "x = 1"))
      = Some (length (py ("Hi" ++ LF)))
      /\ find fence (py (LF ++ "x = 1")) = None
      /\ extract_code_block (py ("Hi" ++ LF) ++ fence ++ py "python" ++ py (LF ++ "x = 1"))
           (Some (py "python"))
         = py "x = 1").
Proof.
  destruct (unclosed_fence_extracted (py ("```yaml" ++ LF ++ "a: 1 ")) 0
              (py "python") (py ("Hi" ++ LF)) (py (LF ++ "x = 1"))) as [H1 H2].
  split.
  - split; [vm_compute; reflexivity|]. split; [vm_compute; reflexivity|].
    rewrite H1; vm_compute; reflexivity.
  - split; [vm_compute; reflexivity|]. split; [vm_compute; reflexivity|].
    rewrite H2; [vm_compute; reflexivity | simpl; lia
                | vm_compute; reflexivity | vm_compute; reflexivity].
Defined.

Lemma question_request_accepts_exactly_witness :
  (1 <= length (py "hello?") <= 300
   /\ forallb safe_char (py "hello?") = true
   /\ parse_QuestionRequest (Some (py "  hello? ")) = inr (py "hello?"))
  /\ (trim [31%N] = [31%N]
      /\ parse_QuestionRequest (Some [31%N]) = inr [31%N])
  /\ (length (trim (31%N :: replicate 300 97%N)) = 301
      /\ forall q, parse_QuestionRequest (Some (31%N :: replicate 300 97%N)) <> inr q).
Proof.
  split; [|split].
  - split; [simpl; lia|]. split; [vm_compute; reflexivity|].
    apply (proj2 (question_request_accepts_exactly (py "  hello? ") (py "hello?"))).
    split; [vm_compute; reflexivity|]. split; [simpl; lia | vm_compute; reflexivity].
  - split; [vm_compute; reflexivity|].
    apply (proj2 (question_request_accepts_exactly [31%N] [31%N])).
    split; [vm_compute; reflexivity|]. split; [simpl; lia | vm_compute; reflexivity].
  - split; [vm_compute; reflexivity|].
    intros q H.
    apply (proj1 (question_request_accepts_exactly (31%N :: replicate 300 97%N) q)) in H.
    destruct H as (-> & [_ H] & _). vm_compute in H. lia.
Defined.

Lemma sanitize_question_keeps_safe_witness :
  sanitize_question (py "a<b>c") = py "abc"
  /\ validate_question (sanitize_question (py "a<b>c")) = inr (sanitize_question (py "a<b>c")).
Proof.
  destruct (sanitize_question_keeps_safe (py "a<b>c")) as (H1 & _ & _ & H4).
  split; [rewrite H1; vm_compute; reflexivity|].
  apply H4. rewrite H1. vm_compute. discriminate.
Defined.

Lemma shell_characters_rejected_witness :
  existsb is_shell_char (py "ls; rm") = true
  /\ recommend (fun q => q) (fun _ => false) (fun _ _ => false) (py "ls; rm") (py "user123")
     = RaiseHTTP 400 (DetailText dangerous_message).
Proof.
  split; [vm_compute; reflexivity|].
  apply (shell_characters_rejected (fun q => q) (fun _ => false) (fun _ _ => false)
           (py "ls; rm") (py "user123")).
  vm_compute; reflexivity.
Defined.

Lemma sql_keyword_rejected_witness :
  ascii_lower <$> py "DROP" = py "drop"
  /\ ends_in_word (fun _ => false) (py "please ") = false
  /\ begins_with_word (fun _ => false) (py " it") = false
  /\ detect_dangerous_pattern (fun _ => false) (fun _ _ => false)
       (py "please " ++ py "DROP" ++ py " it")
     = RaiseHTTP 400 (DetailText dangerous_message).
Proof.
  split; [vm_compute; reflexivity|]. split; [vm_compute; reflexivity|].
  split; [vm_compute; reflexivity|].
  apply (sql_keyword_rejected (fun _ => false) (fun _ _ => false)
           (py "please ") (py "DROP") (py " it"));
    [refine (bool_decide_unpack _ _); vm_compute; exact I
    | vm_compute; reflexivity | vm_compute; reflexivity].
Defined.

Lemma logins_keep_accounts_witness :
  (serve_logins demo_checkpw (fun sub _ _ => sub)
     [(mkLoginRequest (py "user1@example.com") (py "WrongPass!1"), 1%Z)]
     {[ py "user1@example.com" := demo_member;
        py "user2@example.com" := demo_locked ]}).2 !! py "user2@example.com"
  = ({[ py "user1@example.com" := demo_member;
        py "user2@example.com" := demo_locked ]} : gmap (list N) Member)
      !! py "user2@example.com".
Proof.
  apply (proj2 (logins_keep_accounts demo_checkpw (fun sub _ _ => sub)
                  [(mkLoginRequest (py "user1@example.com") (py "WrongPass!1"), 1%Z)]
                  {[ py "user1@example.com" := demo_member;
                     py "user2@example.com" := demo_locked ]}
                  (py "user2@example.com"))).
  intros req now [= -> ->]%list_elem_of_singleton. vm_compute. discriminate.
Defined.

Lemma locked_account_stays_locked_witness :
  (post_logins (fun _ => true) demo_checkpw (fun sub _ _ => sub) (fun _ => false)
     [(mkLoginBody (Some (py "user1@example.com")) (Some (py "Pass@word1")), 9%Z);
      (mkLoginBody (Some (py "user1@example.com")) (Some (py "short")), 10%Z)]
     {[ py "user1@example.com" := demo_locked ]}).2 !! py "user1@example.com"
  = Some demo_locked
  /\ (exists resp,
        (post_logins (fun _ => true) demo_checkpw (fun sub _ _ => sub) (fun _ => false)
           [(mkLoginBody (Some (py "user1@example.com")) (Some (py "Pass@word1")), 9%Z);
            (mkLoginBody (Some (py "user1@example.com")) (Some (py "short")), 10%Z)]
           {[ py "user1@example.com" := demo_locked ]}).1 !! 0 = Some resp
        /\ (status_code resp = 422%Z \/ resp = account_locked))
  /\ (post_logins (fun _ => true) demo_checkpw (fun sub _ _ => sub) (fun _ => false)
        [(mkLoginBody (Some (py "user1@example.com")) (Some (py "Pass@word1")), 9%Z);
         (mkLoginBody (Some (py "user1@example.com")) (Some (py "short")), 10%Z)]
        {[ py "user1@example.com" := demo_locked ]}).1
     = [account_locked;
        Response 422 (CValidation [FieldValueError "password" INVALID_PASSWORD_FORMAT])].
Proof.
  destruct (locked_account_stays_locked (fun _ => true) demo_checkpw (fun sub _ _ => sub)
              (fun _ => false)
              [(mkLoginBody (Some (py "user1@example.com")) (Some (py "Pass@word1")), 9%Z);
               (mkLoginBody (Some (py "user1@example.com")) (Some (py "short")), 10%Z)]
              ({[ py "user1@example.com" := demo_locked ]} : gmap (list N) Member)
              (py "user1@example.com") demo_locked)
    as [H1 H2]; [vm_compute; reflexivity | reflexivity |].
  split; [exact H1|]. split; [|vm_compute; reflexivity].
  apply (H2 0 (mkLoginBody (Some (py "user1@example.com")) (Some (py "Pass@word1"))) 9%Z);
    reflexivity.
Defined.

Lemma rows_stay_consistent_witness :
  exists member',
    (serve_logins demo_checkpw (fun sub _ _ => sub)
       (submission (py "user1@example.com") <$> replicate 7 (py "WrongPass!1", 0%Z))
       {[ py "user1@example.com" := demo_member ]}).2 !! py "user1@example.com"
    = Some member'
    /\ row_consistent member' = true.
Proof.
  apply (rows_stay_consistent demo_checkpw (fun sub _ _ => sub)
           (submission (py "user1@example.com") <$> replicate 7 (py "WrongPass!1", 0%Z))
           ({[ py "user1@example.com" := demo_member ]} : gmap (list N) Member)
           (py "user1@example.com") demo_member);
    [vm_compute; reflexivity | reflexivity].
Defined.

Lemma count_follows_answers_witness :
  exists m',
    (post_logins (fun _ => true) demo_checkpw (fun sub _ _ => sub) (fun _ => false)
       [(mkLoginBody (Some (py "user1@example.com")) (Some (py "WrongPass!1")), 1%Z);
        (mkLoginBody (Some (py "user1@example.com")) (Some (py "Pass@word1")), 2%Z);
        (mkLoginBody (Some (py "user1@example.com")) (Some (py "short")), 3%Z);
        (mkLoginBody (Some (py "user1@example.com")) (Some (py "WrongPass!1")), 4%Z)]
       {[ py "user1@example.com" := demo_member ]}).2 !! py "user1@example.com"
    = Some m'
    /\ (is_locked m' = false ->
        fail_count m'
        = counted (fail_count demo_member)
            (post_logins (fun _ => true) demo_checkpw (fun sub _ _ => sub) (fun _ => false)
               [(mkLoginBody (Some (py "user1@example.com")) (Some (py "WrongPass!1")), 1%Z);
                (mkLoginBody (Some (py "user1@example.com")) (Some (py "Pass@word1")), 2%Z);
                (mkLoginBody (Some (py "user1@example.com")) (Some (py "short")), 3%Z);
                (mkLoginBody (Some (py "user1@example.com")) (Some (py "WrongPass!1")), 4%Z)]
               {[ py "user1@example.com" := demo_member ]}).1).
Proof.
  apply (count_follows_answers (fun _ => true) demo_checkpw (fun sub _ _ => sub)
           (fun _ => false)
           [(mkLoginBody (Some (py "user1@example.com")) (Some (py "WrongPass!1")), 1%Z);
            (mkLoginBody (Some (py "user1@example.com")) (Some (py "Pass@word1")), 2%Z);
            (mkLoginBody (Some (py "user1@example.com")) (Some (py "short")), 3%Z);
            (mkLoginBody (Some (py "user1@example.com")) (Some (py "WrongPass!1")), 4%Z)]
           ({[ py "user1@example.com" := demo_member ]} : gmap (list N) Member)
           (py "user1@example.com") demo_member);
    [vm_compute; reflexivity | reflexivity | repeat constructor].
Defined.

Lemma unknown_email_attempts_witness :
  (post_logins (fun _ => true) demo_checkpw (fun sub _ _ => sub) (fun _ => false)
     [(mkLoginBody (Some (py "nobody@example.com")) (Some (py "Pass@word1")), 1%Z);
      (mkLoginBody (Some (py "nobody@example.com")) (Some (py "short")), 2%Z)]
     {[ py "user1@example.com" := demo_member ]}).2
  = {[ py "user1@example.com" := demo_member ]}
  /\ Forall (fun resp => status_code resp = 422%Z \/ resp = login_failed)
       (post_logins (fun _ => true) demo_checkpw (fun sub _ _ => sub) (fun _ => false)
          [(mkLoginBody (Some (py "nobody@example.com")) (Some (py "Pass@word1")), 1%Z);
           (mkLoginBody (Some (py "nobody@example.com")) (Some (py "short")), 2%Z)]
          {[ py "user1@example.com" := demo_member ]}).1.
Proof.
  apply (unknown_email_attempts (fun _ => true) demo_checkpw (fun sub _ _ => sub)
           (fun _ => false) (py "nobody@example.com")
           [(mkLoginBody (Some (py "nobody@example.com")) (Some (py "Pass@word1")), 1%Z);
            (mkLoginBody (Some (py "nobody@example.com")) (Some (py "short")), 2%Z)]
           ({[ py "user1@example.com" := demo_member ]} : gmap (list N) Member));
    [vm_compute; reflexivity | repeat constructor].
Defined.

Lemma generation_keeps_other_files_witness :
  (generate_for_feature unit (fun _ => Ok demo_index) (fun _ => Ok tt) (fun _ => [])
     demo_format ["base"] demo_client "login" ["db"] demo_world).2
    !! ["base"; "prompts"; "db.txt"]
  = Some (File (py "DDL for {feature_id}")).
Proof.
  apply (proj1 (generation_keeps_other_files unit (fun _ => Ok demo_index) (fun _ => [])
                  (fun _ => Ok tt) (fun _ => []) demo_format ["base"] ["ssot"]
                  demo_client "login" ["db"] true));
    [refine (bool_decide_unpack _ _); vm_compute; exact I | vm_compute; reflexivity].
Defined.

Lemma failed_generation_writes_nothing_witness :
  (db_prompt demo_format ["base"] "login" demo_cfg demo_world).1
  = Ok (py "DDL for {feature_id}")
  /\ generate_db demo_format ["base"] demo_down "login" demo_cfg demo_world
     = (Err ServiceError, demo_world).
Proof.
  split; [vm_compute; reflexivity|].
  apply (proj2 (failed_generation_writes_nothing unit (fun _ => Ok tt) (fun _ => [])
                  demo_format ["base"] demo_down "login" demo_cfg demo_world
                  (db_prompt demo_format ["base"] "login" demo_cfg)
                  (generate_db demo_format ["base"] demo_down "login" demo_cfg)
                  ltac:(unfold generators; do 3 apply list_elem_of_further;
                        apply list_elem_of_here))
          (py "DDL for {feature_id}") ServiceError);
    [vm_compute; reflexivity | reflexivity].
Defined.

Lemma requested_modes_generated_witness :
  exists c,
    (generate_for_feature unit (fun _ => Ok demo_index) (fun _ => Ok tt) (fun _ => [])
       demo_format ["base"] demo_client "login" ["db"] demo_world).2
      !! db_file ["base"] "login"
    = Some (File c).
Proof.
  apply (requested_modes_generated unit (fun _ => Ok demo_index) (fun _ => Ok tt)
           (fun _ => []) demo_format ["base"] demo_client "login" ["db"] demo_world
           (generate_for_feature unit (fun _ => Ok demo_index) (fun _ => Ok tt)
              (fun _ => []) demo_format ["base"] demo_client "login" ["db"]
              demo_world).2);
    [apply pair_fst; vm_compute; reflexivity | reflexivity].
Defined.

Lemma feature_config_read_witness :
  demo_world !! SSOT_INDEX_PATH ["base"] = Some (File (py "features: ..."))
  /\ get_feature_config (fun _ => Ok demo_index) ["base"] "login" demo_world
     = (Ok demo_cfg, demo_world).
Proof.
  split; [vm_compute; reflexivity|].
  apply (proj1 (feature_config_read (fun _ => Ok demo_index) ["base"] "login" demo_world
                  (py "features: ...") ltac:(vm_compute; reflexivity))
           [("features", YMap [("login", demo_cfg)])] [("login", demo_cfg)] demo_cfg);
    reflexivity.
Defined.

Lemma saved_yaml_loads_back_witness :
  load_yaml (fun _ => Ok (YStr "x")) ["out"; "a.yaml"]
    (save_yaml (fun _ => py "x") ["out"; "a.yaml"] (YStr "x") ∅).2
  = (Ok (YStr "x"), (save_yaml (fun _ => py "x") ["out"; "a.yaml"] (YStr "x") ∅).2).
Proof.
  apply (proj2 (saved_yaml_loads_back (fun _ => Ok (YStr "x")) (fun _ => py "x")
                  ["out"; "a.yaml"] (YStr "x") ∅
                  (save_yaml (fun _ => py "x") ["out"; "a.yaml"] (YStr "x") ∅).2
                  ltac:(apply pair_fst; vm_compute; reflexivity)));
    reflexivity.
Defined.

Lemma ssot_main_writes_five_witness :
  exists data,
    (ssot_main unit (fun _ => Ok YNull) (fun _ => py "x") (fun _ => Ok tt)
       (fun _ => py "{}") ["ssot"] demo_client true "login" demo_spec_world).2
      !! ssot_file ["ssot"] "login" "validation_schema.json"
    = Some (File (dumped unit (fun _ => py "x") (fun _ => py "{}") data)).
Proof.
  destruct (ssot_main_writes_five unit (fun _ => Ok YNull) (fun _ => py "x")
              (fun _ => Ok tt) (fun _ => py "{}") ["ssot"] demo_client true "login"
              demo_spec_world
              (ssot_main unit (fun _ => Ok YNull) (fun _ => py "x") (fun _ => Ok tt)
                 (fun _ => py "{}") ["ssot"] demo_client true "login"
                 demo_spec_world).2)
    as (_ & spec & _ & H); [apply pair_fst; vm_compute; reflexivity|].
  destruct (H "validation" "validation_schema.json") as (data & _ & Hd).
  - unfold SSOT_ARTIFACTS. do 4 apply list_elem_of_further. apply list_elem_of_here.
  - by exists data.
Defined.

Lemma artifact_by_kind_witness :
  exists msg,
    generate_artifact unit (fun _ => Ok YNull) (fun _ => py "x") (fun _ => Ok tt)
      demo_client "login" YNull "ui" demo_spec_world
    = (Err (ValueError msg), demo_spec_world).
Proof.
  apply (proj1 (proj2 (artifact_by_kind unit (fun _ => Ok YNull) (fun _ => py "x")
                         (fun _ => Ok tt) demo_client "login" YNull "ui"
                         demo_spec_world))).
  refine (bool_decide_unpack _ _). vm_compute. exact I.
Defined.

Lemma page_accepts_api_passwords_witness :
  validate_password (fun _ => false) (Some (py "Pass@word1")) = inr (py "Pass@word1")
  /\ ui_validate_password (fun _ => false) (py "Pass@word1") = None.
Proof.
  split; [vm_compute; reflexivity|].
  apply (page_accepts_api_passwords (fun _ => false) (py "Pass@word1")).
  vm_compute; reflexivity.
Defined.

Lemma login_page_never_redirects_witness :
  ui_validate_email (strip (py " user1@example.com ")) = None
  /\ ui_validate_password (fun _ => false) (py "Pass@word1") = None
  /\ ui_login (fun _ => false)
       (login_backend (fun _ => true) demo_checkpw (fun sub _ _ => sub) (fun _ => false)
          7 {[ py "user1@example.com" := demo_member ]})
       POST (mkLoginForm (Some (py " user1@example.com ")) (Some (py "Pass@word1")))
     = Rendered None None [unknown_error_flash].
Proof.
  split; [vm_compute; reflexivity|]. split; [vm_compute; reflexivity|].
  rewrite (proj2 (login_page_never_redirects (fun _ => true) demo_checkpw
                    (fun sub _ _ => sub) (fun _ => false) 7
                    {[ py "user1@example.com" := demo_member ]}
                    (mkLoginForm (Some (py " user1@example.com "))
                       (Some (py "Pass@word1")))));
    vm_compute; reflexivity.
Defined.

Lemma ask_relays_recommendation_witness :
  ask_recommend (fun _ => py "good")
    (fun r => inl (post_recommend demo_jwt_decode (fun q => q) (fun _ => false)
                     (fun _ _ => false) r))
  = AskResponse 200
      (Relayed (CRecommend ask_mbr_id ask_question ask_question
                  (dummy_answer ask_mbr_id ask_question))).
Proof.
  apply (ask_relays_recommendation demo_jwt_decode (fun q => q) (fun _ => false)
           (fun _ _ => false) (fun _ => py "good"));
    [vm_compute; reflexivity | reflexivity].
Defined.


Lemma lint_stops_at_malformed_feature_witness :
  exists out,
    lint_all unit (fun _ => Ok demo_broken_index) (fun _ => Err JSONDecodeError) ["base"]
      (fun _ => YNull) demo_world []
    = (Err AttributeError,
       out ++ [Rule; FeatureTitle "signup"; Rule; CheckHeader "signup"]).
Proof.
  apply (lint_stops_at_malformed_feature unit (fun _ => Ok demo_broken_index)
           (fun _ => Err JSONDecodeError) ["base"] (fun _ => YNull)
           ltac:(discriminate) ltac:(discriminate) demo_world (py "features: ...")
           [("features", YMap [("login", demo_cfg); ("signup", YNull);
                               ("logout", demo_cfg)])]
           [("login", demo_cfg)] "signup" YNull [("logout", demo_cfg)]);
    vm_compute; reflexivity.
Defined.
